(** * A file-backed service registry and its polling watcher

    Shallow embedding of [contrib/registry/local/registry.go] (the
    registry that keeps its whole state in one JSON file) and of the
    [Watcher] that polls it, followed by the properties of the
    specification that concern them.  The factory that builds the
    registry from a configuration and the in-memory registry of the
    earlier [local] package are embedded beside them.

    Conventions of the embedding.
    - Go's [error] is a message; a [nil] error is [None].
    - A run-time panic (nil dereference, send on a closed channel) is the
      [Panic] outcome of the monad [M]; deferred calls still run.
    - The operating system is a [World]: the files (path to content), a
      script of injected failures consumed by the successive system calls,
      a clock read by [time.Now], and the trace of the calls made.
    - [encoding/json] is outside the repository: the two functions used
      are parameters of the development, with a round trip law as a
      hypothesis where a proof reads back what the registry wrote.  The
      encoder coerces the strings that are not valid UTF-8: where the
      strings of a caller are read back, the law is assumed of the
      snapshots whose strings are valid only.
    - Nil and empty slices (and nil and empty [Metadata] maps, which the
      registry never inspects) are identified; the [Services] map, whose
      nil-ness the code tests, is an [option].
    - The registry's methods hold its lock from start to end and are
      functions of the world; the watcher, whose goroutine and [Next] can
      wait, is a transition system over the same world. *)

From Stdlib Require Import ZArith.
From stdpp Require Import gmap strings list fin_maps sorting.

Open Scope Z_scope.
Open Scope string_scope.
Open Scope list_scope.

Definition error : Type := string.

(** [fmt.Errorf(prefix ++ "%w", err)] *)
Definition Errorf (prefix : string) (err : error) : error := prefix +:+ err.

(** ** The Kratos [registry.ServiceInstance] handed in by callers *)
Module kratos_registry.

Record ServiceInstance : Type := mkServiceInstance {
  ID : string;
  Name : string;
  Version : string;
  Metadata : gmap string string;
  Endpoints : list string
}.

End kratos_registry.

(** ** Outcomes and the effect monad *)

Inductive Res (A : Type) : Type :=
| Val (a : A)
| Panic (msg : string).
Arguments Val {A} a.
Arguments Panic {A} msg.

Definition nil_deref : string := "invalid memory address or nil pointer dereference".

(** ** The stored form of an instance and of the whole file *)

Record ServiceInstance : Type := mkInstance {
  ID : string;
  Name : string;
  Version : string;
  Metadata : gmap string string;
  Endpoints : list string;
  Timestamp : Z
}.

(** An element of a [[]*ServiceInstance] is a pointer, hence possibly nil
    (the JSON [null]). *)
Record RegistryData : Type := mkData {
  Services : option (gmap string (list (option ServiceInstance)));
  DataVersion : string;
  Updated : Z
}.

(** The entry of the [Services] map under a key, if the map is not nil
    and has the key. *)
Definition lookup_services (data : RegistryData) (name : string)
  : option (list (option ServiceInstance)) :=
  match Services data with
  | None => None
  | Some m => m !! name
  end.

(** [data.Services[name]]: a nil map and a missing key both read as the
    empty slice. *)
Definition services_of (data : RegistryData) (name : string)
  : list (option ServiceInstance) :=
  default [] (lookup_services data name).

(** The first index whose entry has the given id, as both range loops of
    the registry search it: [existing.ID] dereferences the entry, so a nil
    entry met before a match panics. *)
Fixpoint index_of_id (services : list (option ServiceInstance)) (id : string)
  : Res (option nat) :=
  match services with
  | [] => Val None
  | None :: _ => Panic nil_deref
  | Some existing :: rest =>
      if String.eqb (ID existing) id then Val (Some 0%nat)
      else match index_of_id rest id with
           | Val (Some i) => Val (Some (S i))
           | other => other
           end
  end.

(** ** The strings that JSON carries

    [encoding/json] writes a string as text in UTF-8: walking the string
    with [utf8.DecodeRuneInString], it writes each byte at which no
    well-formed encoding starts as [U+FFFD], and the decoder reads that
    back as the three bytes of the replacement character.  [ToValid] is
    that coercion; a string is valid when it is left as it is. *)
Module utf8.

Definition between (lo hi : nat) (c : Ascii.ascii) : bool :=
  (lo <=? Ascii.nat_of_ascii c)%nat && (Ascii.nat_of_ascii c <=? hi)%nat.

(** The next [n] bytes are continuation bytes. *)
Fixpoint continuations (n : nat) (s : string) : bool :=
  match n with
  | O => true
  | S k =>
      match s with
      | String c rest => between 128 191 c && continuations k rest
      | EmptyString => false
      end
  end.

(** A second byte in the range the first byte accepts, and [n]
    continuation bytes after it. *)
Definition followed (lo hi n : nat) (s : string) : bool :=
  match s with
  | String c rest => between lo hi c && continuations n rest
  | EmptyString => false
  end.

(** The width of the well-formed encoding at the head of the string, [0]
    when there is none: the table of [unicode/utf8], which excludes
    overlong forms, surrogates and code points above [U+10FFFF]. *)
Definition RuneLen (s : string) : nat :=
  match s with
  | EmptyString => 0
  | String c rest =>
      if between 0 127 c then 1
      else if between 194 223 c then (if continuations 1 rest then 2 else 0)
      else if between 224 224 c then (if followed 160 191 1 rest then 3 else 0)
      else if between 225 236 c then (if followed 128 191 1 rest then 3 else 0)
      else if between 237 237 c then (if followed 128 159 1 rest then 3 else 0)
      else if between 238 239 c then (if followed 128 191 1 rest then 3 else 0)
      else if between 240 240 c then (if followed 144 191 2 rest then 4 else 0)
      else if between 241 243 c then (if followed 128 191 2 rest then 4 else 0)
      else if between 244 244 c then (if followed 128 143 2 rest then 4 else 0)
      else 0
  end%nat.

Definition replacement : string :=
  String (Ascii.ascii_of_nat 239) (String (Ascii.ascii_of_nat 191) (String (Ascii.ascii_of_nat 189) EmptyString)).

(** [skip] counts the bytes still to copy of the encoding being copied. *)
Fixpoint ToValid_from (skip : nat) (s : string) : string :=
  match s with
  | EmptyString => EmptyString
  | String c rest =>
      match skip with
      | S k => String c (ToValid_from k rest)
      | O =>
          match RuneLen s with
          | S k => String c (ToValid_from k rest)
          | O => replacement +:+ ToValid_from 0 rest
          end
      end
  end.

Definition ToValid (s : string) : string := ToValid_from 0 s.

End utf8.

Definition valid (s : string) : Prop := utf8.ToValid s = s.

Definition valid_service (service : kratos_registry.ServiceInstance) : Prop :=
  valid (kratos_registry.ID service) ∧ valid (kratos_registry.Name service) ∧
  valid (kratos_registry.Version service) ∧
  map_Forall (fun k v => valid k ∧ valid v) (kratos_registry.Metadata service) ∧
  Forall valid (kratos_registry.Endpoints service).

Definition valid_instance (instance : ServiceInstance) : Prop :=
  valid (ID instance) ∧ valid (Name instance) ∧ valid (Version instance) ∧
  map_Forall (fun k v => valid k ∧ valid v) (Metadata instance) ∧
  Forall valid (Endpoints instance).

(** A snapshot all of whose strings are valid: one that the encoder
    writes as it is. *)
Definition clean (data : RegistryData) : Prop :=
  valid (DataVersion data) ∧
  ∀ n l, lookup_services data n = Some l →
         valid n ∧ ∀ e, Some e ∈ l → valid_instance e.

(** ** The configuration read by the factory

    Package [conf] is generated code outside the sources at hand; the
    records have the fields that [contrib/registry/factory.go] reads,
    with those the example's [convertRegistryConfig] copies beside them.
    A pointer field is an [option]. *)
Module conf.

Record LocalRegistry : Type := mkLocalRegistry {
  FilePath : string
}.

Record EtcdRegistry : Type := mkEtcdRegistry {
  Endpoints : list string;
  DialTimeout : Z
}.

Record ConsulRegistry : Type := mkConsulRegistry {
  Address : string;
  Scheme : string
}.

Record NacosServerConfig : Type := mkNacosServerConfig {
  IpAddr : string;
  Port : Z
}.

Record NacosRegistry : Type := mkNacosRegistry {
  ServerConfigs : list (option NacosServerConfig)
}.

Record KubernetesRegistry : Type := mkKubernetesRegistry {
  KubeConfig : string;
  Namespace : string
}.

Record Registry : Type := mkRegistry {
  Type_ : string;
  Local : option LocalRegistry;
  Etcd : option EtcdRegistry;
  Consul : option ConsulRegistry;
  Nacos : option NacosRegistry;
  Kubernetes : option KubernetesRegistry
}.

End conf.

Section Registry.

(** The content of a file, and [json.MarshalIndent] / [json.Unmarshal] at
    the type [RegistryData]. *)
Variable Bytes : Type.
Variable json_MarshalIndent : RegistryData -> Bytes + error.
Variable json_Unmarshal : Bytes -> RegistryData + error.
(** [filepath.Dir]; directories themselves are not modelled. *)
Variable filepath_Dir : string -> string.

(** An injected failure of a system call: its error and, for a write,
    what the interrupted call left at the path, if anything. *)
Record Failure : Type := mkFailure {
  failure_err : error;
  residue : option Bytes
}.

Inductive Event : Type :=
| EvLock | EvUnlock | EvRLock | EvRUnlock
| EvMkdirAll (dir : string)
| EvStat (path : string)
| EvReadFile (path : string)
| EvWriteFile (path : string)
| EvRename (src dst : string)
| EvNow (t : Z).

(** [faults] scripts the system calls: call number [n] (counted by
    [calls]) fails when [faults n] is a failure. [clock] scripts the
    successive readings of the wall clock in the same way. *)
Record World : Type := mkWorld {
  files : gmap string Bytes;
  faults : nat -> option Failure;
  calls : nat;
  clock : nat -> Z;
  tick : nat;
  trace : list Event
}.

Definition M (A : Type) : Type := World -> Res A * World.

Definition ret {A} (a : A) : M A := fun w => (Val a, w).
Definition bind {A B} (m : M A) (k : A -> M B) : M B :=
  fun w => match m w with
           | (Val a, w') => k a w'
           | (Panic msg, w') => (Panic msg, w')
           end.
Definition panic {A} (msg : string) : M A := fun w => (Panic msg, w).
Definition lift {A} (r : Res A) : M A := fun w => (r, w).

(** [defer cleanup()]: the cleanup runs when the body returns and when it
    panics. *)
Definition defer {A} (cleanup : M unit) (body : M A) : M A :=
  fun w => match body w with
           | (r, w') => (r, snd (cleanup w'))
           end.

Notation "x <- m ;; k" := (bind m (fun x => k))
  (at level 100, m at next level, right associativity).
Notation "m ;;; k" := (bind m (fun _ => k))
  (at level 100, right associativity).

Definition emit (e : Event) : M unit :=
  fun w => (Val tt, mkWorld (files w) (faults w) (calls w) (clock w) (tick w)
                            (trace w ++ [e])).

(** The scripted failure of the system call being made, if any. *)
Definition next_fault : M (option Failure) :=
  fun w => (Val (faults w (calls w)),
            mkWorld (files w) (faults w) (S (calls w)) (clock w) (tick w) (trace w)).

Definition get_files : M (gmap string Bytes) := fun w => (Val (files w), w).
Definition set_files (fs : gmap string Bytes) : M unit :=
  fun w => (Val tt, mkWorld fs (faults w) (calls w) (clock w) (tick w) (trace w)).

(** [time.Now().Unix()] *)
Definition time_Now_Unix : M Z :=
  fun w => let t := clock w (tick w) in
           (Val t, mkWorld (files w) (faults w) (calls w) (clock w) (S (tick w))
                           (trace w ++ [EvNow t])).

(** *** System calls *)

Definition os_MkdirAll (dir : string) : M (option error) :=
  emit (EvMkdirAll dir) ;;;
  f <- next_fault ;;
  ret (failure_err <$> f).

Inductive StatResult : Type := StatOk | StatNotExist | StatError (e : error).

Definition os_Stat (path : string) : M StatResult :=
  emit (EvStat path) ;;;
  f <- next_fault ;;
  fs <- get_files ;;
  match f with
  | Some fl => ret (StatError (failure_err fl))
  | None => ret (if fs !! path is Some _ then StatOk else StatNotExist)
  end.

Definition os_ReadFile (path : string) : M (Bytes + error) :=
  emit (EvReadFile path) ;;;
  f <- next_fault ;;
  fs <- get_files ;;
  match f with
  | Some fl => ret (inr (failure_err fl))
  | None => match fs !! path with
            | Some b => ret (inl b)
            | None => ret (inr ("open " +:+ path +:+ ": no such file or directory"))
            end
  end.

(** A failed write may leave a truncated or partial file at its path. *)
Definition os_WriteFile (path : string) (b : Bytes) : M (option error) :=
  emit (EvWriteFile path) ;;;
  f <- next_fault ;;
  fs <- get_files ;;
  match f with
  | Some fl =>
      match residue fl with
      | Some junk => set_files (<[path := junk]> fs)
      | None => ret tt
      end ;;;
      ret (Some (failure_err fl))
  | None => set_files (<[path := b]> fs) ;;; ret None
  end.

(** [os.Rename] replaces the destination in one step or not at all. *)
Definition os_Rename (src dst : string) : M (option error) :=
  emit (EvRename src dst) ;;;
  f <- next_fault ;;
  fs <- get_files ;;
  match f with
  | Some fl => ret (Some (failure_err fl))
  | None => match fs !! src with
            | Some b => set_files (<[dst := b]> (delete src fs)) ;;; ret None
            | None => ret (Some ("rename " +:+ src +:+ ": no such file or directory"))
            end
  end.

(** *** The registry *)

(** Of the fields of [Registry], [filePath] alone bears on what the
    methods compute: the mutex shows as the lock events of the trace, and
    the [watchers] map is written by [Watch] and never read. *)
Record Registry : Type := mkRegistry {
  filePath : string
}.

Definition readRegistryFile (r : Registry) : M (RegistryData + error) :=
  data <- os_ReadFile (filePath r) ;;
  match data with
  | inr err => ret (inr err)
  | inl b => ret (json_Unmarshal b)
  end.

Definition writeRegistryFile (path : string) (data : RegistryData) : M (option error) :=
  match json_MarshalIndent data with
  | inr err => ret (Some err)
  | inl jsonData =>
      let tempFile := path +:+ ".tmp" in
      err <- os_WriteFile tempFile jsonData ;;
      match err with
      | Some e => ret (Some e)
      | None => os_Rename tempFile path
      end
  end.

Definition notifyWatchers (r : Registry) (serviceName : string) : M unit := ret tt.

Definition New (path : string) : M (Registry + error) :=
  let dir := filepath_Dir path in
  err <- os_MkdirAll dir ;;
  match err with
  | Some e => ret (inr (Errorf "failed to create registry directory: " e))
  | None =>
      st <- os_Stat path ;;
      match st with
      | StatNotExist =>
          now <- time_Now_Unix ;;
          let initialData := mkData (Some ∅) "1.0.0" now in
          err <- writeRegistryFile path initialData ;;
          match err with
          | Some e => ret (inr (Errorf "failed to initialize registry file: " e))
          | None => ret (inl (mkRegistry path))
          end
      | _ => ret (inl (mkRegistry path))
      end
  end.

Definition with_Lock {A} (body : M A) : M A :=
  emit EvLock ;;; defer (emit EvUnlock) body.
Definition with_RLock {A} (body : M A) : M A :=
  emit EvRLock ;;; defer (emit EvRUnlock) body.

(** The stored form of the instance handed to [Register], stamped with
    the time of the call. *)
Definition instance_of (service : kratos_registry.ServiceInstance) (now : Z)
  : ServiceInstance :=
  mkInstance (kratos_registry.ID service) (kratos_registry.Name service)
             (kratos_registry.Version service) (kratos_registry.Metadata service)
             (kratos_registry.Endpoints service) now.

(** [services[i] = instance] when the loop found index [i], and
    [append(services, instance)] when it did not. *)
Definition place (services : list (option ServiceInstance)) (found : option nat)
    (instance : ServiceInstance) : list (option ServiceInstance) :=
  match found with
  | Some i => <[i := Some instance]> services
  | None => services ++ [Some instance]
  end.

(** [data.Services[name] = services], after [Register]'s nil check has
    replaced a nil map by an empty one. *)
Definition set_services (data : RegistryData) (name : string)
    (services : list (option ServiceInstance)) : RegistryData :=
  mkData (Some (<[name := services]> (default ∅ (Services data))))
         (DataVersion data) (Updated data).

Definition set_Updated (data : RegistryData) (t : Z) : RegistryData :=
  mkData (Services data) (DataVersion data) t.

Definition Register (r : Registry) (service : option kratos_registry.ServiceInstance)
  : M (option error) :=
  match service with
  | None => ret (Some "service cannot be nil")
  | Some service =>
      with_Lock (
        data <- readRegistryFile r ;;
        match data with
        | inr err => ret (Some (Errorf "failed to read registry file: " err))
        | inl data =>
            now <- time_Now_Unix ;;
            let instance := instance_of service now in
            let services := services_of data (kratos_registry.Name service) in
            found <- lift (index_of_id services (kratos_registry.ID service)) ;;
            let services := place services found instance in
            let data := set_services data (kratos_registry.Name service) services in
            updated <- time_Now_Unix ;;
            let data := set_Updated data updated in
            err <- writeRegistryFile (filePath r) data ;;
            match err with
            | Some e => ret (Some (Errorf "failed to write registry file: " e))
            | None =>
                notifyWatchers r (kratos_registry.Name service) ;;;
                ret None
            end
        end)
  end.

(** [delete(data.Services, name)]; deleting from a nil map does nothing. *)
Definition delete_services (data : RegistryData) (name : string) : RegistryData :=
  mkData (delete name <$> Services data) (DataVersion data) (Updated data).

(** [data.Services[name] = services] where no nil check precedes. *)
Definition assign_services (data : RegistryData) (name : string)
    (services : list (option ServiceInstance)) : Res RegistryData :=
  match Services data with
  | None => Panic "assignment to entry in nil map"
  | Some m => Val (mkData (Some (<[name := services]> m)) (DataVersion data) (Updated data))
  end.

(** [append(services[:i], services[i+1:]...)] when the loop found index
    [i]; the slice is left alone when it did not. *)
Definition remove_at (services : list (option ServiceInstance)) (found : option nat)
  : list (option ServiceInstance) :=
  match found with
  | Some i => take i services ++ drop (S i) services
  | None => services
  end.

(** The [if len(services) == 0] that ends the removal. *)
Definition store_services (data : RegistryData) (name : string)
    (services : list (option ServiceInstance)) : Res RegistryData :=
  match services with
  | [] => Val (delete_services data name)
  | _ => assign_services data name services
  end.

Definition Deregister (r : Registry) (service : option kratos_registry.ServiceInstance)
  : M (option error) :=
  with_Lock (
    data <- readRegistryFile r ;;
    match data with
    | inr err => ret (Some (Errorf "failed to read registry file: " err))
    | inl data =>
        match service with
        | None => panic nil_deref
        | Some service =>
            let services := services_of data (kratos_registry.Name service) in
            found <- lift (index_of_id services (kratos_registry.ID service)) ;;
            let services := remove_at services found in
            data <- lift (store_services data (kratos_registry.Name service) services) ;;
            updated <- time_Now_Unix ;;
            let data := set_Updated data updated in
            err <- writeRegistryFile (filePath r) data ;;
            match err with
            | Some e => ret (Some (Errorf "failed to write registry file: " e))
            | None =>
                notifyWatchers r (kratos_registry.Name service) ;;;
                ret None
            end
        end
    end).

(** The instance [GetService] hands back for a stored entry. *)
Definition kratos_of (instance : ServiceInstance) : kratos_registry.ServiceInstance :=
  kratos_registry.mkServiceInstance (ID instance) (Name instance) (Version instance)
    (Metadata instance) (Endpoints instance).

(** The conversion loop of [GetService]; reading a field of a nil entry
    panics. *)
Fixpoint to_kratos (instances : list (option ServiceInstance))
  : Res (list kratos_registry.ServiceInstance) :=
  match instances with
  | [] => Val []
  | None :: _ => Panic nil_deref
  | Some instance :: rest =>
      match to_kratos rest with
      | Val result => Val (kratos_of instance :: result)
      | Panic msg => Panic msg
      end
  end.

Definition GetService (r : Registry) (serviceName : string)
  : M (list kratos_registry.ServiceInstance + error) :=
  with_RLock (
    data <- readRegistryFile r ;;
    match data with
    | inr err => ret (inr (Errorf "failed to read registry file: " err))
    | inl data =>
        let instances := services_of data serviceName in
        result <- lift (to_kratos instances) ;;
        ret (inl result)
    end).


(** *** Vocabulary of the statements *)

(** The lock is released last: the deferred [Unlock] runs on the world the
    body left. *)
Definition unlocked (w : World) : World :=
  mkWorld (files w) (faults w) (calls w) (clock w) (tick w) (trace w ++ [EvUnlock]).

Definition written_by (out : Res (option error) * World)
  : Res (option error) * World :=
  match out with
  | (Val (Some e), w2) => (Val (Some (Errorf "failed to write registry file: " e)), unlocked w2)
  | (Val None, w2) => (Val None, unlocked w2)
  | (Panic m, w2) => (Panic m, unlocked w2)
  end.

(** The world after a call that took the lock, read the file and gave
    up. *)
Definition gave_up (r : Registry) (w : World) : World :=
  mkWorld (files w) (faults w) (S (calls w)) (clock w) (tick w)
          (trace w ++ [EvLock; EvReadFile (filePath r); EvUnlock]).

(** The two hypotheses on [encoding/json] used where a proof follows a
    document through the file: a [RegistryData] always encodes (it holds
    strings, integers, maps and slices only), and decoding the text gives
    the value back. *)
Definition encodes_all : Prop := ∀ data, ∃ b, json_MarshalIndent data = inl b.
Definition round_trip : Prop := ∀ data b, json_MarshalIndent data = inl b → json_Unmarshal b = inl data.

(** [round_trip] is the law of a codec that carries every string.
    [encoding/json] carries the valid ones and coerces the others, so the
    law it satisfies is the one on clean snapshots; the statements about
    what is read back of the strings a caller hands in assume this one
    only. *)
Definition reads_back : Prop :=
  ∀ data b, clean data → json_MarshalIndent data = inl b → json_Unmarshal b = inl data.

(** The system calls number [calls w], ..., [calls w + n - 1] do not fail. *)
Definition calm (n : nat) (w : World) : Prop :=
  ∀ k, (k < n)%nat → faults w (calls w + k) = None.

(** Where the instance sits after [Register]. *)
Definition placed_at (services : list (option ServiceInstance)) (found : option nat) : nat :=
  match found with
  | Some i => i
  | None => length services
  end.

(** At most one entry of the list has the id. *)
Definition id_unique (services : list (option ServiceInstance)) (id : string) : Prop :=
  ∀ i j e e', services !! i = Some (Some e) → services !! j = Some (Some e') →
              ID e = id → ID e' = id → i = j.

(** The calls a client can make on a registry bound to a path; [CallNew]
    constructs a registry on the same path again. *)
Inductive Call : Type :=
| CallNew
| CallRegister (service : option kratos_registry.ServiceInstance)
| CallDeregister (service : option kratos_registry.ServiceInstance)
| CallGetService (serviceName : string).

Definition call (r : Registry) (c : Call) (w : World) : World :=
  match c with
  | CallNew => snd (New (filePath r) w)
  | CallRegister service => snd (Register r service w)
  | CallDeregister service => snd (Deregister r service w)
  | CallGetService serviceName => snd (GetService r serviceName w)
  end.

Definition run_calls (r : Registry) (cs : list Call) (w : World) : World :=
  fold_left (fun w c => call r c w) cs w.

(** No key of the [Services] map has an empty list. *)
Definition no_empty_list (data : RegistryData) : Prop :=
  ∀ n l, lookup_services data n = Some l → l ≠ [].

(** If the registry's file exists, it decodes to a snapshot with the
    property. *)
Definition file_holds (P : RegistryData -> Prop) (r : Registry) (w : World) : Prop :=
  ∀ b, files w !! filePath r = Some b →
       ∃ data, json_Unmarshal b = inl data ∧ P data.

Definition file_ok (r : Registry) (w : World) : Prop := file_holds no_empty_list r w.

(** The lists a registry writes: not empty, without nil entries, no id
    twice. *)
Definition sound_list (services : list (option ServiceInstance)) : Prop :=
  services ≠ [] ∧ Forall is_Some services ∧ ∀ id, id_unique services id.

Definition well_formed (data : RegistryData) : Prop :=
  ∀ n l, lookup_services data n = Some l → sound_list l.

(** The events other than the four of the mutex. *)
Definition io_event (e : Event) : Prop :=
  match e with
  | EvLock | EvUnlock | EvRLock | EvRUnlock => False
  | _ => True
  end.

(** A computation that, whatever it returns, only adds events with the
    property to the trace. *)
Definition appends {A} (P : Event -> Prop) (m : M A) : Prop :=
  ∀ w, ∃ evs, trace (snd (m w)) = trace w ++ evs ∧ Forall P evs.

(** ** The watcher

    [Next] and [Stop] are methods called by clients; [watch] is the
    goroutine [NewWatcher] starts. The goroutine and a [Next] inside its
    [select] can wait, so the whole is a transition system: the state
    holds the world, the fields of the [Watcher], the control point of the
    goroutine, the ticker's channel and the number of [Next] calls waiting
    in their [select]. [Stop] and the check that opens [Next] run under
    the watcher's lock and are single steps. A [select] with several ready
    cases takes any of them: the step takes the choice as an argument. *)

Definition ErrWatcherStopped : error := "watcher stopped".

(** A channel made with capacity one. *)
Record Chan (A : Type) : Type := mkChan {
  buffer : option A;
  closed : bool
}.
Arguments mkChan {A} _ _.
Arguments buffer {A} _.
Arguments closed {A} _.

(** A send can proceed when the buffer has room, and also on a closed
    channel, where it panics. *)
Definition send_ready {A} (c : Chan A) : bool :=
  closed c || (if buffer c is Some _ then false else true).

Definition send {A} (c : Chan A) (a : A) : Res (Chan A) :=
  if closed c then Panic "send on closed channel"
  else Val (mkChan (Some a) false).

(** A receive can proceed when a value is buffered, and on a closed
    channel, where it yields [ok = false] once the buffer is drained. *)
Definition recv_ready {A} (c : Chan A) : bool :=
  (if buffer c is Some _ then true else false) || closed c.

Definition close {A} (c : Chan A) : Res (Chan A) :=
  if closed c then Panic "close of closed channel"
  else Val (mkChan (buffer c) true).

Record Watcher : Type := mkWatcher {
  registry : Registry;
  serviceName : string;
  ctx_done : bool;
  ch : Chan (list kratos_registry.ServiceInstance);
  errorCh : Chan error;
  stopped : bool
}.

(** What [Next] returns: [(instances, nil)] or [(nil, err)]. *)
Inductive NextResult : Type :=
| Instances (instances : list kratos_registry.ServiceInstance)
| Failed (err : error).

(** The [select] of [Next]; its cases, in the order of the source, are
    [ctx.Done()], [errorCh] and [ch]. [pick] is the case taken if it is
    ready, otherwise the first ready one is; [None] when none is ready and
    the call waits. *)
Definition select_case (pick : nat) (r0 r1 r2 : bool) : option nat :=
  match pick, r0, r1, r2 with
  | 0%nat, true, _, _ => Some 0%nat
  | 1%nat, _, true, _ => Some 1%nat
  | 2%nat, _, _, true => Some 2%nat
  | _, true, _, _ => Some 0%nat
  | _, _, true, _ => Some 1%nat
  | _, _, _, true => Some 2%nat
  | _, _, _, _ => None
  end.

Definition Next_select (pick : nat) (w : Watcher) : option (NextResult * Watcher) :=
  match select_case pick (ctx_done w) (recv_ready (errorCh w)) (recv_ready (ch w)) with
  | None => None
  | Some 0%nat => Some (Failed ErrWatcherStopped, w)
  | Some 1%nat =>
      match buffer (errorCh w) with
      | None => Some (Failed ErrWatcherStopped, w)
      | Some err =>
          Some (Failed err,
                mkWatcher (registry w) (serviceName w) (ctx_done w) (ch w)
                          (mkChan None (closed (errorCh w))) (stopped w))
      end
  | Some _ =>
      match buffer (ch w) with
      | None => Some (Failed ErrWatcherStopped, w)
      | Some instances =>
          Some (Instances instances,
                mkWatcher (registry w) (serviceName w) (ctx_done w)
                          (mkChan None (closed (ch w))) (errorCh w) (stopped w))
      end
  end.

(** [Next], when nothing else runs between its check and its [select];
    [None] when the call waits. *)
Definition Next (pick : nat) (w : Watcher) : option (NextResult * Watcher) :=
  if stopped w then Some (Failed ErrWatcherStopped, w)
  else Next_select pick w.

Definition Stop (w : Watcher) : Res (option error) * Watcher :=
  if stopped w then (Val None, w)
  else
    let w1 := mkWatcher (registry w) (serviceName w) true (ch w) (errorCh w) true in
    match close (ch w) with
    | Panic msg => (Panic msg, w1)
    | Val ch' =>
        let w2 := mkWatcher (registry w) (serviceName w) true ch' (errorCh w) true in
        match close (errorCh w) with
        | Panic msg => (Panic msg, w2)
        | Val errorCh' =>
            (Val None, mkWatcher (registry w) (serviceName w) true ch' errorCh' true)
        end
    end.

(** What the goroutine is about to send. *)
Inductive Item : Type :=
| ItemInstances (instances : list kratos_registry.ServiceInstance)
| ItemError (err : error).

(** The control points of [watch]: before the first fetch; about to read
    [stopped] with an item in hand; at the [select] that sends the item;
    at the [select] on [ctx.Done()] and the ticker; after a tick, about to
    read [stopped]; about to fetch; returned; panicked. *)
Inductive Pc : Type :=
| PcStart
| PcCheck (item : Item)
| PcSend (item : Item)
| PcIdle
| PcTickCheck
| PcFetch
| PcReturned
| PcPanicked (msg : string).

Record Sys : Type := mkSys {
  world : World;
  watcher : Watcher;
  pc : Pc;
  ticker_C : bool;
  selecting : nat
}.

(** [NewWatcher]: fresh context and channels, and the goroutine started. *)
Definition NewWatcher (r : Registry) (name : string) (w : World) : Sys :=
  mkSys w (mkWatcher r name false (mkChan None false) (mkChan None false) false)
        PcStart false 0.

Definition alive (s : Sys) : bool :=
  match pc s with
  | PcPanicked _ => false
  | _ => true
  end.

Inductive Obs : Type :=
| Fetched (instances : list kratos_registry.ServiceInstance)
| NextReturned (result : NextResult)
| StopReturned (err : option error).

Definition at_pc (s : Sys) (p : Pc) : Sys :=
  mkSys (world s) (watcher s) p (ticker_C s) (selecting s).

Definition put_item (w : Watcher) (item : Item) : Res Watcher :=
  match item with
  | ItemInstances instances =>
      match send (ch w) instances with
      | Val c => Val (mkWatcher (registry w) (serviceName w) (ctx_done w) c
                                (errorCh w) (stopped w))
      | Panic msg => Panic msg
      end
  | ItemError err =>
      match send (errorCh w) err with
      | Val c => Val (mkWatcher (registry w) (serviceName w) (ctx_done w) (ch w)
                                c (stopped w))
      | Panic msg => Panic msg
      end
  end.

Definition item_ready (w : Watcher) (item : Item) : bool :=
  match item with
  | ItemInstances _ => send_ready (ch w)
  | ItemError _ => send_ready (errorCh w)
  end.

(** One step of the goroutine [watch]. [first] tells the fetch before the
    loop, whose error is dropped, from the fetch of a tick, whose error is
    sent on [errorCh]. [pick_done] is the choice of [ctx.Done()] in a
    [select] where the other case is ready too. *)
Definition fetch (first : bool) (s : Sys) : Sys * list Obs :=
  match GetService (registry (watcher s)) (serviceName (watcher s)) (world s) with
  | (Val (inl instances), w') =>
      (mkSys w' (watcher s) (PcCheck (ItemInstances instances)) (ticker_C s) (selecting s),
       [Fetched instances])
  | (Val (inr err), w') =>
      (mkSys w' (watcher s) (if first then PcIdle else PcCheck (ItemError err))
             (ticker_C s) (selecting s), [])
  | (Panic msg, w') =>
      (mkSys w' (watcher s) (PcPanicked msg) (ticker_C s) (selecting s), [])
  end.

Definition watch_step (pick_done : bool) (s : Sys) : option (Sys * list Obs) :=
  match pc s with
  | PcStart => Some (fetch true s)
  | PcCheck item =>
      if stopped (watcher s) then Some (at_pc s PcIdle, [])
      else Some (at_pc s (PcSend item), [])
  | PcSend item =>
      match item_ready (watcher s) item, ctx_done (watcher s) with
      | false, false => None
      | false, true => Some (at_pc s PcReturned, [])
      | true, done =>
          if done && pick_done then Some (at_pc s PcReturned, [])
          else match put_item (watcher s) item with
               | Val w' => Some (mkSys (world s) w' PcIdle (ticker_C s) (selecting s), [])
               | Panic msg => Some (at_pc s (PcPanicked msg), [])
               end
      end
  | PcIdle =>
      match ticker_C s, ctx_done (watcher s) with
      | false, false => None
      | false, true => Some (at_pc s PcReturned, [])
      | true, done =>
          if done && pick_done then Some (at_pc s PcReturned, [])
          else Some (mkSys (world s) (watcher s) PcTickCheck false (selecting s), [])
      end
  | PcTickCheck =>
      if stopped (watcher s) then Some (at_pc s PcReturned, [])
      else Some (at_pc s PcFetch, [])
  | PcFetch => Some (fetch false s)
  | PcReturned => None
  | PcPanicked _ => None
  end.

(** What can happen next: a step of the goroutine; a tick of the ticker;
    a client entering [Next]; a [Next] inside its [select] taking a ready
    case; a client calling [Stop]; a client calling the registry. *)
Inductive Action : Type :=
| ActWatch (pick_done : bool)
| ActTick
| ActNext
| ActSelect (pick : nat)
| ActStop
| ActCall (c : Call).

(** A panic ends the process: no step is taken after one. An action that
    cannot proceed in the state (a [select] with no ready case) yields
    [None]. *)
Definition step (a : Action) (s : Sys) : option (Sys * list Obs) :=
  if alive s then
    match a with
    | ActWatch pick_done => watch_step pick_done s
    | ActTick => Some (mkSys (world s) (watcher s) (pc s) true (selecting s), [])
    | ActNext =>
        if stopped (watcher s) then Some (s, [NextReturned (Failed ErrWatcherStopped)])
        else Some (mkSys (world s) (watcher s) (pc s) (ticker_C s) (S (selecting s)), [])
    | ActSelect pick =>
        match selecting s with
        | O => None
        | S n =>
            match Next_select pick (watcher s) with
            | None => None
            | Some (result, w') =>
                Some (mkSys (world s) w' (pc s) (ticker_C s) n, [NextReturned result])
            end
        end
    | ActStop =>
        match Stop (watcher s) with
        | (Val err, w') =>
            Some (mkSys (world s) w' (pc s) (ticker_C s) (selecting s), [StopReturned err])
        | (Panic msg, w') =>
            Some (mkSys (world s) w' (PcPanicked msg) (ticker_C s) (selecting s), [])
        end
    | ActCall c =>
        Some (mkSys (call (registry (watcher s)) c (world s)) (watcher s) (pc s)
                    (ticker_C s) (selecting s), [])
    end
  else None.

(** The channels are closed by [Stop] only. *)
Definition open_until_stopped (s : Sys) : Prop :=
  stopped (watcher s) = false →
  closed (ch (watcher s)) = false ∧ closed (errorCh (watcher s)) = false.

(** A schedule run from a state: the observations made and the state
    reached. An action that cannot proceed is passed over. *)
Fixpoint run (acts : list Action) (s : Sys) : list Obs * Sys :=
  match acts with
  | [] => ([], s)
  | a :: rest =>
      match step a s with
      | None => run rest s
      | Some (s', o) => let (os, s'') := run rest s' in (o ++ os, s'')
      end
  end.

(** Every instance set in the channel or in the goroutine's hands has
    been fetched. *)
Definition fetched_before (s : Sys) (obs : list Obs) : Prop :=
  (∀ v, buffer (ch (watcher s)) = Some v → Fetched v ∈ obs) ∧
  (∀ v, pc s = PcCheck (ItemInstances v) ∨ pc s = PcSend (ItemInstances v) →
        Fetched v ∈ obs).

(** In a list of observations, every delivery of an instance set comes
    after a fetch of the same set. *)
Definition deliveries_fetched (obs : list Obs) : Prop :=
  ∀ pre v post, obs = pre ++ NextReturned (Instances v) :: post → Fetched v ∈ pre.

(** [Stop] cancels the context and closes both channels. *)
Definition stopped_closed (s : Sys) : Prop :=
  stopped (watcher s) = true →
  ctx_done (watcher s) = true ∧
  closed (ch (watcher s)) = true ∧ closed (errorCh (watcher s)) = true.

(** The steps the goroutine can still take once the watcher is stopped. *)
Definition steps_left (p : Pc) : nat :=
  match p with
  | PcStart | PcFetch => 4
  | PcCheck _ => 3
  | PcIdle => 2
  | PcTickCheck | PcSend _ => 1
  | PcReturned | PcPanicked _ => 0
  end.

Fixpoint watch_count (acts : list Action) : nat :=
  match acts with
  | [] => 0
  | ActWatch _ :: rest => S (watch_count rest)
  | _ :: rest => watch_count rest
  end.

(** The instance sets fetched, and those returned by [Next], in the order
    of the observations. *)
Fixpoint fetches (obs : list Obs) : list (list kratos_registry.ServiceInstance) :=
  match obs with
  | [] => []
  | Fetched v :: rest => v :: fetches rest
  | _ :: rest => fetches rest
  end.

Fixpoint deliveries (obs : list Obs) : list (list kratos_registry.ServiceInstance) :=
  match obs with
  | [] => []
  | NextReturned (Instances v) :: rest => v :: deliveries rest
  | _ :: rest => deliveries rest
  end.

(** The instance set waiting in the channel, and the one the goroutine
    holds between its fetch and its send. *)
Definition buffered (s : Sys) : list (list kratos_registry.ServiceInstance) :=
  match buffer (ch (watcher s)) with
  | Some v => [v]
  | None => []
  end.

Definition in_hand (s : Sys) : list (list kratos_registry.ServiceInstance) :=
  match pc s with
  | PcCheck (ItemInstances v) | PcSend (ItemInstances v) => [v]
  | _ => []
  end.

(** A stopped watcher, with its context cancelled and channels closed. *)
Definition shut_down (s : Sys) : Prop :=
  stopped (watcher s) = true ∧ ctx_done (watcher s) = true ∧
  closed (ch (watcher s)) = true ∧ closed (errorCh (watcher s)) = true.

(** The watcher as [NewWatcher] makes it. *)
Definition fresh_watcher (r : Registry) (name : string) : Watcher :=
  mkWatcher r name false (mkChan None false) (mkChan None false) false.

(** What [Next] has returned, then what waits in the channel, then what the
    goroutine holds, is a subsequence of what was fetched. *)
Definition in_fetch_order (s : Sys) (obs : list Obs) : Prop :=
  sublist (deliveries obs ++ buffered s ++ in_hand s) (fetches obs).

(** ** The factory ([contrib/registry/factory.go])

    [CreateRegistry] returns a registrar, a discovery and an error; the
    only implementation of the two interfaces is the file-backed
    [Registry], so an interface value is an [option Registry]. *)

Definition Created : Type := option Registry * option Registry * option error.

Definition createLocalRegistry (config : option conf.LocalRegistry) : M Created :=
  match config with
  | None => ret (None, None, Some "local registry config cannot be nil")
  | Some config =>
      if String.eqb (conf.FilePath config) ""
      then ret (None, None, Some "local registry file path cannot be empty")
      else
        res <- New (conf.FilePath config) ;;
        match res with
        | inr err => ret (None, None, Some (Errorf "failed to create local registry: " err))
        | inl registry => ret (Some registry, Some registry, None)
        end
  end.

Definition createEtcdRegistry (config : option conf.EtcdRegistry) : Created :=
  match config with
  | None => (None, None, Some "etcd registry config cannot be nil")
  | Some config =>
      if (length (conf.Endpoints config) =? 0)%nat
      then (None, None, Some "etcd endpoints cannot be empty")
      else (None, None, Some "etcd registry not implemented yet")
  end.

Definition createConsulRegistry (config : option conf.ConsulRegistry) : Created :=
  match config with
  | None => (None, None, Some "consul registry config cannot be nil")
  | Some config =>
      if String.eqb (conf.Address config) ""
      then (None, None, Some "consul address cannot be empty")
      else (None, None, Some "consul registry not implemented yet")
  end.

Definition createNacosRegistry (config : option conf.NacosRegistry) : Created :=
  match config with
  | None => (None, None, Some "nacos registry config cannot be nil")
  | Some config =>
      if (length (conf.ServerConfigs config) =? 0)%nat
      then (None, None, Some "nacos server configs cannot be empty")
      else (None, None, Some "nacos registry not implemented yet")
  end.

Definition createKubernetesRegistry (config : option conf.KubernetesRegistry) : Created :=
  match config with
  | None => (None, None, Some "kubernetes registry config cannot be nil")
  | Some _ => (None, None, Some "kubernetes registry not implemented yet")
  end.

Definition CreateRegistry (config : option conf.Registry) : M Created :=
  match config with
  | None => ret (None, None, Some "registry config cannot be nil")
  | Some config =>
      if String.eqb (conf.Type_ config) "local" then
        createLocalRegistry (conf.Local config)
      else if String.eqb (conf.Type_ config) "etcd" then
        ret (createEtcdRegistry (conf.Etcd config))
      else if String.eqb (conf.Type_ config) "consul" then
        ret (createConsulRegistry (conf.Consul config))
      else if String.eqb (conf.Type_ config) "nacos" then
        ret (createNacosRegistry (conf.Nacos config))
      else if String.eqb (conf.Type_ config) "kubernetes" then
        ret (createKubernetesRegistry (conf.Kubernetes config))
      else
        ret (None, None, Some ("unsupported registry type: " +:+ conf.Type_ config))
  end.

Definition ValidateConfig (config : option conf.Registry) : option error :=
  match config with
  | None => Some "registry config cannot be nil"
  | Some config =>
      if String.eqb (conf.Type_ config) "" then
        Some "registry type cannot be empty"
      else if String.eqb (conf.Type_ config) "local" then
        match conf.Local config with
        | None => Some "local registry config cannot be nil when type is local"
        | Some l =>
            if String.eqb (conf.FilePath l) ""
            then Some "local registry file path cannot be empty"
            else None
        end
      else if String.eqb (conf.Type_ config) "etcd" then
        match conf.Etcd config with
        | None => Some "etcd registry config cannot be nil when type is etcd"
        | Some e =>
            if (length (conf.Endpoints e) =? 0)%nat
            then Some "etcd endpoints cannot be empty"
            else None
        end
      else if String.eqb (conf.Type_ config) "consul" then
        match conf.Consul config with
        | None => Some "consul registry config cannot be nil when type is consul"
        | Some c =>
            if String.eqb (conf.Address c) ""
            then Some "consul address cannot be empty"
            else None
        end
      else if String.eqb (conf.Type_ config) "nacos" then
        match conf.Nacos config with
        | None => Some "nacos registry config cannot be nil when type is nacos"
        | Some n =>
            if (length (conf.ServerConfigs n) =? 0)%nat
            then Some "nacos server configs cannot be empty"
            else None
        end
      else if String.eqb (conf.Type_ config) "kubernetes" then
        match conf.Kubernetes config with
        | None => Some "kubernetes registry config cannot be nil when type is kubernetes"
        | Some _ => None
        end
      else
        Some ("unsupported registry type: " +:+ conf.Type_ config)
  end.

Definition GetDefaultConfig : conf.Registry :=
  conf.mkRegistry "local" (Some (conf.mkLocalRegistry "./registry.json"))
                  None None None None.

End Registry.

Arguments mkFailure {Bytes} _ _.
Arguments failure_err {Bytes} _.
Arguments residue {Bytes} _.
Arguments mkWorld {Bytes} _ _ _ _ _ _.
Arguments files {Bytes} _.
Arguments faults {Bytes} _.
Arguments calls {Bytes} _.
Arguments clock {Bytes} _.
Arguments tick {Bytes} _.
Arguments trace {Bytes} _.
Arguments ret {Bytes A} _ _.
Arguments bind {Bytes A B} _ _ _.
Arguments Register {Bytes} _ _ _ _ _.
Arguments Deregister {Bytes} _ _ _ _ _.
Arguments GetService {Bytes} _ _ _ _.
Arguments New {Bytes} _ _ _ _.
Arguments writeRegistryFile {Bytes} _ _ _ _.
Arguments readRegistryFile {Bytes} _ _ _.
Arguments unlocked {Bytes} _.
Arguments written_by {Bytes} _.
Arguments gave_up {Bytes} _ _.
Arguments encodes_all {Bytes} _.
Arguments round_trip {Bytes} _ _.
Arguments reads_back {Bytes} _ _.
Arguments calm {Bytes} _ _.
Arguments call {Bytes} _ _ _ _ _ _.
Arguments run_calls {Bytes} _ _ _ _ _ _.
Arguments file_ok {Bytes} _ _ _.
Arguments file_holds {Bytes} _ _ _ _.
Arguments appends {Bytes A} _ _.
Arguments mkChan {A} _ _.
Arguments buffer {A} _.
Arguments closed {A} _.
Arguments mkSys {Bytes} _ _ _ _ _.
Arguments world {Bytes} _.
Arguments watcher {Bytes} _.
Arguments pc {Bytes} _.
Arguments ticker_C {Bytes} _.
Arguments selecting {Bytes} _.
Arguments NewWatcher {Bytes} _ _ _.
Arguments alive {Bytes} _.
Arguments at_pc {Bytes} _ _.
Arguments fetch {Bytes} _ _ _.
Arguments watch_step {Bytes} _ _ _.
Arguments step {Bytes} _ _ _ _ _.
Arguments run {Bytes} _ _ _ _ _.
Arguments open_until_stopped {Bytes} _.
Arguments fetched_before {Bytes} _ _.
Arguments stopped_closed {Bytes} _.
Arguments buffered {Bytes} _.
Arguments in_hand {Bytes} _.
Arguments createLocalRegistry {Bytes} _ _ _ _.
Arguments CreateRegistry {Bytes} _ _ _ _.
Arguments shut_down {Bytes} _.
Arguments in_fetch_order {Bytes} _ _.

(** ** The in-memory registry

    The earlier [local] package: one [ServiceEntry] per normalized service
    name, kept in a map behind a mutex.  Its methods hold the mutex from
    start to end and perform no input or output, so they are functions of
    the registry; a nil [service] is dereferenced and panics.  The entries
    are held by pointer; [New] and [Register] are the only writers of the
    map, and neither stores a nil pointer or one pointer under two keys.
    [strings.TrimSpace] is a parameter.

    The endpoints of an entry are a slice, and the map below holds, for
    each entry, the sequence that slice shows.  [Register] stores the
    slice it is handed without copying it and appends to it in place, so
    two entries made from slices of one array, or an entry and the
    caller's slice, share storage, and an append under one name can
    change what the other shows.  The model follows one entry through one
    call: what the call reads of the entry, what it leaves in it, and
    what [GetService] then returns for it.  It says nothing of what the
    other entries show afterwards when slices are shared. *)
Module memory.

Record ServiceEntry : Type := mkServiceEntry {
  ID : string;
  Name : string;
  Endpoints : list string;
  Version : string
}.

Record Registry : Type := mkRegistry {
  authority : string;
  entries : gmap string ServiceEntry
}.

Fixpoint slices_Contains (s : list string) (v : string) : bool :=
  match s with
  | [] => false
  | x :: rest => if String.eqb x v then true else slices_Contains rest v
  end.

(** The loop of [Register] over the endpoints handed in. *)
Fixpoint merge_endpoints (have : list string) (more : list string) : list string :=
  match more with
  | [] => have
  | endpoint :: rest =>
      if slices_Contains have endpoint then merge_endpoints have rest
      else merge_endpoints (have ++ [endpoint]) rest
  end.

Section Memory.

Variable strings_TrimSpace : string → string.

Definition NewServiceEntry (id name version : string) (endpoints : list string)
  : ServiceEntry :=
  let id := if String.eqb (strings_TrimSpace id) "" then name else id in
  mkServiceEntry id name endpoints version.

Definition normalizeName (authority name : string) : string :=
  if String.prefix "discovery://" name then strings_TrimSpace name
  else "discovery://" +:+ authority +:+ "/" +:+ strings_TrimSpace name.

(** The loop of [New]: [entries[i].Name] dereferences the entry. *)
Fixpoint New_entries (authority : string) (given : list (option ServiceEntry))
    (m : gmap string ServiceEntry) : Res (gmap string ServiceEntry) :=
  match given with
  | [] => Val m
  | None :: _ => Panic nil_deref
  | Some entry :: rest =>
      New_entries authority rest (<[normalizeName authority (Name entry) := entry]> m)
  end.

Definition New (authority : string) (given : list (option ServiceEntry)) : Res Registry :=
  match New_entries authority given ∅ with
  | Val m => Val (mkRegistry authority m)
  | Panic msg => Panic msg
  end.

Definition Register (r : Registry) (service : option kratos_registry.ServiceInstance)
  : Res (option error) * Registry :=
  match service with
  | None => (Panic nil_deref, r)
  | Some service =>
      let key := normalizeName (authority r) (kratos_registry.Name service) in
      match entries r !! key with
      | Some entry =>
          let entry := mkServiceEntry (ID entry) (Name entry)
                         (merge_endpoints (Endpoints entry) (kratos_registry.Endpoints service))
                         (Version entry) in
          (Val None, mkRegistry (authority r) (<[key := entry]> (entries r)))
      | None =>
          let entry := NewServiceEntry (kratos_registry.ID service)
                         (kratos_registry.Name service) (kratos_registry.Version service)
                         (kratos_registry.Endpoints service) in
          (Val None, mkRegistry (authority r) (<[key := entry]> (entries r)))
      end
  end.

Definition Deregister (r : Registry) (service : option kratos_registry.ServiceInstance)
  : Res (option error) * Registry :=
  match service with
  | None => (Panic nil_deref, r)
  | Some service =>
      let key := normalizeName (authority r) (kratos_registry.Name service) in
      match entries r !! key with
      | Some entry =>
          if String.eqb (Name entry) (kratos_registry.Name service)
             && String.eqb (ID entry) (kratos_registry.ID service)
          then (Val None, mkRegistry (authority r) (delete key (entries r)))
          else (Val None, r)
      | None => (Val None, r)
      end
  end.

Definition GetService (r : Registry) (name : string)
  : list kratos_registry.ServiceInstance * option error :=
  let key := normalizeName (authority r) name in
  match entries r !! key with
  | Some entry =>
      ([kratos_registry.mkServiceInstance (ID entry) (Name entry) (Version entry) ∅
          (Endpoints entry)], None)
  | None => ([], None)
  end.

End Memory.

(** *** The revision without authority

    It keys the map by the name as given, and its [New] leaves the map
    nil.  Reading a nil map finds nothing, assigning to it panics. *)
Definition nil_map : string := "assignment to entry in nil map".

Record Registry2 : Type := mkRegistry2 {
  entries2 : option (gmap string ServiceEntry)
}.

Definition lookup2 (r : Registry2) (name : string) : option ServiceEntry :=
  match entries2 r with
  | None => None
  | Some m => m !! name
  end.

Definition assign2 (r : Registry2) (name : string) (entry : ServiceEntry) : Res Registry2 :=
  match entries2 r with
  | None => Panic nil_map
  | Some m => Val (mkRegistry2 (Some (<[name := entry]> m)))
  end.

Fixpoint New2_entries (given : list (option ServiceEntry)) (r : Registry2) : Res Registry2 :=
  match given with
  | [] => Val r
  | None :: _ => Panic nil_deref
  | Some entry :: rest =>
      match assign2 r (Name entry) entry with
      | Val r => New2_entries rest r
      | Panic msg => Panic msg
      end
  end.

Definition New2 (given : list (option ServiceEntry)) : Res Registry2 :=
  New2_entries given (mkRegistry2 None).

Definition Register2 (strings_TrimSpace : string → string)
    (r : Registry2) (service : option kratos_registry.ServiceInstance)
  : Res (option error) * Registry2 :=
  match service with
  | None => (Panic nil_deref, r)
  | Some service =>
      match lookup2 r (kratos_registry.Name service) with
      | Some entry =>
          let entry := mkServiceEntry (ID entry) (Name entry)
                         (merge_endpoints (Endpoints entry) (kratos_registry.Endpoints service))
                         (Version entry) in
          (Val None,
           mkRegistry2 (option_map <[kratos_registry.Name service := entry]> (entries2 r)))
      | None =>
          let entry := NewServiceEntry strings_TrimSpace (kratos_registry.ID service)
                         (kratos_registry.Name service) (kratos_registry.Version service)
                         (kratos_registry.Endpoints service) in
          match assign2 r (Name entry) entry with
          | Val r => (Val None, r)
          | Panic msg => (Panic msg, r)
          end
      end
  end.

End memory.

(** ** A concrete store, to run the model

    A file holds either a well-formed document, standing for the text
    [json.MarshalIndent] prints for it, or text that does not parse. *)
Module Doc.

Inductive Bytes : Type :=
| Document (data : RegistryData)
| Garbled (raw : string).

Definition MarshalIndent (data : RegistryData) : Bytes + error := inl (Document data).

Definition Unmarshal (b : Bytes) : RegistryData + error :=
  match b with
  | Document data => inl data
  | Garbled _ => inr "invalid character looking for beginning of value"
  end.

(** Everything before the last slash; [.] when there is none. *)
Fixpoint Dir_aux (s : string) : option string :=
  match s with
  | EmptyString => None
  | String c rest =>
      match Dir_aux rest with
      | Some d => Some (String c d)
      | None => if Ascii.eqb c (Ascii.ascii_of_nat 47) then Some EmptyString else None
      end
  end.
Definition Dir (path : string) : string := default "." (Dir_aux path).

Definition quiet : nat -> option (Failure Bytes) := fun _ => None.
Definition seconds (start : Z) : nat -> Z := fun n => Z.of_nat n + start.

Definition world0 : World Bytes := mkWorld ∅ quiet 0 (seconds 1700000000) 0 [].

(** A registry on a fresh path, and the instances of the replace-on-conflict
    scenario. *)
Definition path : string := "/var/run/registry.json".
Definition reg : Registry := mkRegistry path.
Definition created : World Bytes := snd (New MarshalIndent Dir path world0).

Definition svc_v1 : kratos_registry.ServiceInstance :=
  kratos_registry.mkServiceInstance "1" "svc" "v1" ∅ ["http://a"].
Definition svc_v2 : kratos_registry.ServiceInstance :=
  kratos_registry.mkServiceInstance "1" "svc" "v2" ∅ ["http://b"].

Definition registered : World Bytes :=
  snd (Register MarshalIndent Unmarshal reg (Some svc_v1) created).

(** The snapshots in the file in the worlds [created] and [registered]. *)
Definition data_created : RegistryData := mkData (Some ∅) "1.0.0" 1700000000.
Definition data_registered : RegistryData :=
  mkData (Some {[ "svc" := [Some (instance_of svc_v1 1700000001)] ]}) "1.0.0" 1700000002.

(** An instance without an id, and one that lists an endpoint twice. *)
Definition svc_no_id : kratos_registry.ServiceInstance :=
  kratos_registry.mkServiceInstance "" "svc" "v1" ∅ ["http://a"].
Definition svc_twice : kratos_registry.ServiceInstance :=
  kratos_registry.mkServiceInstance "1" "svc" "v1" ∅ ["http://a"; "http://a"].

(** A world whose next system call fails. *)
Definition failing : World Bytes :=
  mkWorld (files registered)
          (fun n => if Nat.eqb n (calls registered)
                    then Some (mkFailure "permission denied" None) else None)
          (calls registered) (clock registered) (tick registered) (trace registered).

End Doc.

(** ** A store that coerces as the encoder does

    The document a file holds is the snapshot as [json.MarshalIndent]
    writes it: every string passed through [utf8.ToValid].  A map is
    written key by key in the order of the keys as given, and read back
    with the last of two equal keys winning. *)
Module Json.

(** The order of the keys: byte by byte. *)
Definition key_le {A : Type} (x y : string * A) : Prop := String.leb (fst x) (fst y) = true.

Definition key_le_dec {A : Type} (x y : string * A) : Decision (key_le x y) :=
  decide (String.leb (fst x) (fst y) = true).

Definition coerce_map {A B : Type} (f : A -> B) (m : gmap string A) : gmap string B :=
  list_to_map
    (reverse (prod_map utf8.ToValid f <$>
                @merge_sort _ key_le key_le_dec (map_to_list m))).

Definition coerce_instance (instance : ServiceInstance) : ServiceInstance :=
  mkInstance (utf8.ToValid (ID instance)) (utf8.ToValid (Name instance))
             (utf8.ToValid (Version instance))
             (coerce_map utf8.ToValid (Metadata instance))
             (utf8.ToValid <$> Endpoints instance) (Timestamp instance).

Definition coerce_list (services : list (option ServiceInstance))
  : list (option ServiceInstance) :=
  option_map coerce_instance <$> services.

Definition coerce (data : RegistryData) : RegistryData :=
  mkData (option_map (coerce_map coerce_list) (Services data))
         (utf8.ToValid (DataVersion data)) (Updated data).

Definition MarshalIndent (data : RegistryData) : Doc.Bytes + error :=
  inl (Doc.Document (coerce data)).

Definition Unmarshal : Doc.Bytes -> RegistryData + error := Doc.Unmarshal.

(** The registry on the fresh path, and an instance whose id is the one
    byte [0xFF]. *)
Definition created : World Doc.Bytes := snd (New MarshalIndent Doc.Dir Doc.path Doc.world0).


End Json.

(** ** Instances to run the factory and the in-memory registry

    [TrimSpace] is [strings.TrimSpace] on ASCII text. *)
Module MemDoc.

Fixpoint trim_left (s : string) : string :=
  match s with
  | String c rest => if Ascii.is_space c then trim_left rest else s
  | EmptyString => EmptyString
  end.

Definition TrimSpace (s : string) : string :=
  String.rev (trim_left (String.rev (trim_left s))).

Definition empty : memory.Registry := memory.mkRegistry "zero" ∅.

Definition entry_v1 : memory.ServiceEntry :=
  memory.mkServiceEntry "1" "svc" ["http://a"] "v1".


(** A local configuration without a path, and an etcd configuration. *)
Definition local_no_path : conf.Registry :=
  conf.mkRegistry "local" (Some (conf.mkLocalRegistry "")) None None None None.
Definition etcd : conf.Registry :=
  conf.mkRegistry "etcd" None (Some (conf.mkEtcdRegistry ["127.0.0.1:2379"] 5))
                  None None None.

End MemDoc.

(** * Properties *)

(** ** Strings and lists *)

Lemma string_length_app (a b : string) :
  String.length (a +:+ b) = (String.length a + String.length b)%nat.
Proof. induction a as [|c a IH]; simpl; [reflexivity | now rewrite IH]. Qed.

(** The temporary path is never the target path. *)
Lemma tmp_path_ne (path : string) : path +:+ ".tmp" ≠ path.
Proof.
  intros H. apply (f_equal String.length) in H.
  rewrite string_length_app in H. simpl in H. lia.
Qed.

Lemma remove_middle {A} (l1 : list A) (x : A) (l2 : list A) :
  take (length l1) (l1 ++ x :: l2) ++ drop (S (length l1)) (l1 ++ x :: l2) = l1 ++ l2.
Proof. induction l1 as [|a l1 IH]; simpl; [reflexivity | now rewrite IH]. Qed.

Lemma kratos_of_instance_of s t : kratos_of (instance_of s t) = s.
Proof. now destruct s. Qed.

Lemma to_kratos_entries entries :
  to_kratos (Some <$> entries) = Val (kratos_of <$> entries).
Proof. induction entries as [|e rest IH]; cbn; [reflexivity | now rewrite IH]. Qed.

Lemma Forall_is_Some_entries {A} (l : list (option A)) :
  Forall is_Some l → ∃ entries, l = Some <$> entries.
Proof.
  induction 1 as [|o rest [e ->] _ [entries ->]]; [now exists []|].
  now exists (e :: entries).
Qed.

(** What the search loop returns, in terms of the list. *)
Lemma index_of_id_Some services id i :
  index_of_id services id = Val (Some i) →
  ∃ e, services !! i = Some (Some e) ∧ ID e = id ∧
       ∀ j, (j < i)%nat → ∃ e', services !! j = Some (Some e') ∧ ID e' ≠ id.
Proof.
  revert i. induction services as [|[e|] rest IH]; intros i; simpl; try discriminate.
  destruct (String.eqb_spec (ID e) id) as [Heq|Hne].
  - intros [= <-]. exists e. split; [reflexivity|]. split; [assumption|]. intros j Hj. lia.
  - destruct (index_of_id rest id) as [[k|]|] eqn:Hrest; try discriminate.
    intros [= <-]. destruct (IH k eq_refl) as (e' & Hk & Hid & Hbefore).
    exists e'. split; [exact Hk|]. split; [exact Hid|].
    intros [|j] Hj; [exists e; split; [reflexivity | exact Hne]|].
    apply Hbefore. lia.
Qed.

Lemma index_of_id_None services id :
  index_of_id services id = Val None →
  ∀ o, o ∈ services → ∃ e, o = Some e ∧ ID e ≠ id.
Proof.
  induction services as [|[e|] rest IH]; simpl; try discriminate.
  - intros _ o Ho. inversion Ho.
  - destruct (String.eqb_spec (ID e) id) as [Heq|Hne]; [discriminate|].
    destruct (index_of_id rest id) as [[k|]|] eqn:Hrest; try discriminate.
    intros _ o Ho. apply elem_of_cons in Ho as [->|Ho]; [eauto | auto].
Qed.

(** Without nil entries the search does not panic. *)
Lemma index_of_id_total services id :
  Forall is_Some services → ∃ found, index_of_id services id = Val found.
Proof.
  induction 1 as [|o rest [e ->] _ [found IH]]; simpl; [eauto|].
  destruct (String.eqb (ID e) id); [eauto|]. rewrite IH. destruct found; eauto.
Qed.

(** The search finds the first entry with the id, when told where it is. *)
Lemma index_of_id_first services id i e :
  services !! i = Some (Some e) → ID e = id →
  (∀ j, (j < i)%nat → ∃ e', services !! j = Some (Some e') ∧ ID e' ≠ id) →
  index_of_id services id = Val (Some i).
Proof.
  revert i. induction services as [|o rest IH]; intros i Hi Hid Hbefore.
  - rewrite lookup_nil in Hi. discriminate.
  - destruct i as [|i].
    + simpl in Hi. injection Hi as ->. simpl.
      destruct (String.eqb_spec (ID e) id); [reflexivity | contradiction].
    + destruct (Hbefore 0%nat ltac:(lia)) as (e0 & H0 & Hne). simpl in H0.
      injection H0 as ->. simpl.
      destruct (String.eqb_spec (ID e0) id); [contradiction|].
      rewrite (IH i); [reflexivity | exact Hi | exact Hid |].
      intros j Hj. apply (Hbefore (S j)). lia.
Qed.

Lemma index_of_id_absent services id :
  (∀ o, o ∈ services → ∃ e, o = Some e ∧ ID e ≠ id) →
  index_of_id services id = Val None.
Proof.
  induction services as [|o rest IH]; intros H; [reflexivity|].
  destruct (H o) as (e & -> & Hne); [left|]. simpl.
  destruct (String.eqb_spec (ID e) id); [contradiction|].
  rewrite IH; [reflexivity|]. intros o Ho. apply H. now right.
Qed.

(** ** The file system calls of the registry *)

Section RegistryFacts.

Context {Bytes : Type}.
Variable marshal : RegistryData → Bytes + error.
Variable unmarshal : Bytes → RegistryData + error.
Variable Dir : string → string.

Implicit Types (w : World Bytes) (r : Registry) (data : RegistryData).

Lemma readRegistryFile_eq r w :
  readRegistryFile unmarshal r w =
  (Val (match faults w (calls w) with
        | Some fl => inr (failure_err fl)
        | None => match files w !! filePath r with
                  | Some b => unmarshal b
                  | None => inr ("open " +:+ filePath r +:+ ": no such file or directory")
                  end
        end),
   mkWorld (files w) (faults w) (S (calls w)) (clock w) (tick w)
           (trace w ++ [EvReadFile (filePath r)])).
Proof.
  unfold readRegistryFile, os_ReadFile, bind, emit, next_fault,
    get_files, ret. cbn.
  destruct (faults w (calls w)); [reflexivity|].
  destruct (files w !! filePath r); reflexivity.
Qed.

Lemma writeRegistryFile_encode_error path data w e :
  marshal data = inr e → writeRegistryFile marshal path data w = (Val (Some e), w).
Proof. intros H. unfold writeRegistryFile. now rewrite H. Qed.

Lemma writeRegistryFile_write_error path data w b fl :
  marshal data = inl b → faults w (calls w) = Some fl →
  writeRegistryFile marshal path data w =
  (Val (Some (failure_err fl)),
   mkWorld (match residue fl with
            | Some junk => <[path +:+ ".tmp" := junk]> (files w)
            | None => files w
            end)
           (faults w) (S (calls w)) (clock w) (tick w)
           (trace w ++ [EvWriteFile (path +:+ ".tmp")])).
Proof.
  intros Hm Hf. unfold writeRegistryFile. rewrite Hm.
  unfold os_WriteFile, bind, emit, next_fault, get_files, set_files,
    ret. cbn. rewrite Hf. destruct (residue fl); reflexivity.
Qed.

Lemma writeRegistryFile_rename_error path data w b fl :
  marshal data = inl b → faults w (calls w) = None →
  faults w (S (calls w)) = Some fl →
  writeRegistryFile marshal path data w =
  (Val (Some (failure_err fl)),
   mkWorld (<[path +:+ ".tmp" := b]> (files w))
           (faults w) (S (S (calls w))) (clock w) (tick w)
           (trace w ++ [EvWriteFile (path +:+ ".tmp");
                        EvRename (path +:+ ".tmp") path])).
Proof.
  intros Hm Hf1 Hf2. unfold writeRegistryFile. rewrite Hm.
  unfold os_WriteFile, os_Rename, bind, emit, next_fault, get_files,
    set_files, ret. cbn. rewrite Hf1. cbn. rewrite Hf2.
  now rewrite <- app_assoc.
Qed.

Lemma writeRegistryFile_ok path data w b :
  marshal data = inl b → faults w (calls w) = None →
  faults w (S (calls w)) = None →
  writeRegistryFile marshal path data w =
  (Val None,
   mkWorld (<[path := b]> (delete (path +:+ ".tmp") (files w)))
           (faults w) (S (S (calls w))) (clock w) (tick w)
           (trace w ++ [EvWriteFile (path +:+ ".tmp");
                        EvRename (path +:+ ".tmp") path])).
Proof.
  intros Hm Hf1 Hf2. unfold writeRegistryFile. rewrite Hm.
  unfold os_WriteFile, os_Rename, bind, emit, next_fault, get_files,
    set_files, ret. cbn. rewrite Hf1. cbn. rewrite Hf2.
  rewrite lookup_insert_eq. cbn. rewrite delete_insert_eq.
  now rewrite <- app_assoc.
Qed.

(** [Register] up to its call of [writeRegistryFile], when the file was
    read and decoded. *)
Lemma Register_reads r s w b data found :
  faults w (calls w) = None →
  files w !! filePath r = Some b →
  unmarshal b = inl data →
  index_of_id (services_of data (kratos_registry.Name s)) (kratos_registry.ID s) = Val found →
  Register marshal unmarshal r (Some s) w =
  written_by
    (writeRegistryFile marshal (filePath r)
       (set_Updated
          (set_services data (kratos_registry.Name s)
             (place (services_of data (kratos_registry.Name s)) found
                    (instance_of s (clock w (tick w)))))
          (clock w (S (tick w))))
       (mkWorld (files w) (faults w) (S (calls w)) (clock w) (S (S (tick w)))
          (trace w ++ [EvLock; EvReadFile (filePath r); EvNow (clock w (tick w));
                       EvNow (clock w (S (tick w)))]))).
Proof.
  intros Hf Hr Hu Hi.
  unfold Register, with_Lock, defer.
  unfold bind at 1. cbn [emit].
  unfold bind at 1. rewrite readRegistryFile_eq. cbn [files faults calls clock tick trace].
  rewrite Hf, Hr, Hu.
  unfold bind at 1. unfold time_Now_Unix at 1. cbn [files faults calls clock tick trace].
  unfold bind at 1. unfold lift at 1. rewrite Hi.
  unfold bind at 1. unfold time_Now_Unix at 1. cbn [files faults calls clock tick trace].
  unfold bind at 1. rewrite <- !app_assoc. cbn [app].
  unfold written_by.
  destruct (writeRegistryFile _ _ _ _) as [[[e|]|m] w2]; reflexivity.
Qed.

Lemma lookup_set_services_eq data name services :
  lookup_services (set_services data name services) name = Some services.
Proof. unfold lookup_services, set_services. cbn. apply lookup_insert_eq. Qed.

Lemma lookup_set_services_ne data name services n :
  n ≠ name →
  lookup_services (set_services data name services) n = lookup_services data n.
Proof.
  intros Hne. unfold lookup_services, set_services. cbn.
  rewrite lookup_insert_ne by congruence.
  destruct (Services data); [reflexivity | apply lookup_empty].
Qed.

Lemma lookup_set_Updated data t n :
  lookup_services (set_Updated data t) n = lookup_services data n.
Proof. reflexivity. Qed.

(** *** Clean snapshots

    [Register] keeps a snapshot clean when the instance handed in is
    valid. *)

Lemma valid_instance_of s t : valid_service s → valid_instance (instance_of s t).
Proof. intros H. exact H. Qed.

Lemma clean_services data name e :
  clean data → Some e ∈ services_of data name → valid_instance e.
Proof.
  intros [_ H] He. unfold services_of in He.
  destruct (lookup_services data name) as [l|] eqn:Hl; cbn in He.
  - now apply (H name l Hl).
  - inversion He.
Qed.

Lemma place_elem services found instance e :
  Some e ∈ place services found instance → e = instance ∨ Some e ∈ services.
Proof.
  destruct found as [i|]; cbn [place].
  - intros H. apply list_elem_of_lookup_1 in H as [j Hj].
    apply list_lookup_insert_Some in Hj as [(_ & Heq & _)|[_ Hj]].
    + left. congruence.
    + right. eapply list_elem_of_lookup_2, Hj.
  - rewrite elem_of_app, list_elem_of_singleton. intros [H|H]; [now right|].
    left. congruence.
Qed.

Lemma clean_registered data s found t t' :
  clean data → valid_service s →
  clean
    (set_Updated
       (set_services data (kratos_registry.Name s)
          (place (services_of data (kratos_registry.Name s)) found (instance_of s t))) t').
Proof.
  intros Hc Hs. split; [exact (proj1 Hc)|].
  intros n l. rewrite lookup_set_Updated.
  destruct (decide (n = kratos_registry.Name s)) as [->|Hn].
  - rewrite lookup_set_services_eq. intros [= <-]. split; [apply Hs|].
    intros e He. apply place_elem in He as [->|He].
    + now apply valid_instance_of.
    + eapply clean_services; eauto.
  - rewrite lookup_set_services_ne by exact Hn. apply Hc.
Qed.

(** C1. [Register] of a non-nil instance, when the file is read and
    written without failure: it takes the lock, reads the snapshot, and
    either overwrites in place the first entry of the name's list that
    has the id (same position, same length, the other entries untouched)
    or, when no entry has the id, appends; the entry written or appended
    carries the id, name, version, metadata and endpoints handed in and
    the time read at the call; the lists of the other names are
    untouched; the encoding of the new snapshot is in the file, written
    through the temporary path and renamed, before the lock is released
    and [nil] returned.  The file decodes to the new snapshot when the
    strings of the old one and of the instance are valid. *)
Theorem Register_overwrites_or_appends r s w b data :
  encodes_all marshal → reads_back marshal unmarshal →
  files w !! filePath r = Some b →
  unmarshal b = inl data →
  Forall is_Some (services_of data (kratos_registry.Name s)) →
  calm 3 w →
  ∃ w' b' data',
    Register marshal unmarshal r (Some s) w = (Val None, w') ∧
    trace w' = trace w ++
      [EvLock; EvReadFile (filePath r);
       EvNow (clock w (tick w)); EvNow (clock w (S (tick w)));
       EvWriteFile (filePath r +:+ ".tmp");
       EvRename (filePath r +:+ ".tmp") (filePath r); EvUnlock] ∧
    files w' !! filePath r = Some b' ∧
    marshal data' = inl b' ∧
    (clean data → valid_service s → unmarshal b' = inl data') ∧
    (∀ n, n ≠ kratos_registry.Name s → lookup_services data' n = lookup_services data n) ∧
    (∀ i e,
       services_of data (kratos_registry.Name s) !! i = Some (Some e) →
       ID e = kratos_registry.ID s →
       (∀ j e', (j < i)%nat →
          services_of data (kratos_registry.Name s) !! j = Some (Some e') →
          ID e' ≠ kratos_registry.ID s) →
       length (services_of data' (kratos_registry.Name s)) =
         length (services_of data (kratos_registry.Name s)) ∧
       services_of data' (kratos_registry.Name s) !! i =
         Some (Some (mkInstance (kratos_registry.ID s) (kratos_registry.Name s)
                             (kratos_registry.Version s) (kratos_registry.Metadata s)
                             (kratos_registry.Endpoints s) (clock w (tick w)))) ∧
       ∀ j, j ≠ i → services_of data' (kratos_registry.Name s) !! j =
                    services_of data (kratos_registry.Name s) !! j) ∧
    ((∀ e, Some e ∈ services_of data (kratos_registry.Name s) → ID e ≠ kratos_registry.ID s) →
       services_of data' (kratos_registry.Name s) =
         services_of data (kratos_registry.Name s) ++
         [Some (mkInstance (kratos_registry.ID s) (kratos_registry.Name s)
                             (kratos_registry.Version s) (kratos_registry.Metadata s)
                             (kratos_registry.Endpoints s) (clock w (tick w)))]).
Proof.
  intros Henc Hrt Hfile Hdec Hwf Hcalm.
  set (name := kratos_registry.Name s) in *.
  set (old := services_of data name) in *.
  destruct (index_of_id_total old (kratos_registry.ID s) Hwf) as [found Hfound].
  set (data' := set_Updated (set_services data name
                  (place old found (instance_of s (clock w (tick w)))))
                  (clock w (S (tick w)))).
  destruct (Henc data') as [b' Hb'].
  pose proof (Hcalm 0%nat ltac:(lia)) as H0. rewrite Nat.add_0_r in H0.
  pose proof (Hcalm 1%nat ltac:(lia)) as H1. rewrite Nat.add_1_r in H1.
  pose proof (Hcalm 2%nat ltac:(lia)) as H2.
  replace (calls w + 2)%nat with (S (S (calls w))) in H2 by lia.
  eexists _, b', data'.
  rewrite (Register_reads r s w b data found H0 Hfile Hdec Hfound).
  fold name old data'.
  rewrite (writeRegistryFile_ok _ _ _ b' Hb') by assumption.
  unfold written_by, unlocked. cbn [files faults calls clock tick trace].
  split; [reflexivity|].
  split; [rewrite <- !app_assoc; reflexivity|].
  split; [apply lookup_insert_eq|].
  split; [exact Hb'|].
  split; [intros Hc Hs; apply Hrt; [now apply clean_registered | exact Hb']|].
  assert (Hnew : services_of data' name = place old found (instance_of s (clock w (tick w)))).
  { unfold services_of, data'. rewrite lookup_set_Updated, lookup_set_services_eq.
    reflexivity. }
  split; [intros n Hn; unfold data';
          rewrite lookup_set_Updated; now apply lookup_set_services_ne|].
  rewrite Hnew. split.
  - intros i e Hi Hid Hbefore.
    assert (found = Some i) as ->.
    { assert (index_of_id old (kratos_registry.ID s) = Val (Some i)) as Hix.
      { apply (index_of_id_first old _ i e Hi Hid).
        intros j Hj.
        assert (is_Some (old !! j)) as [o Ho].
        { apply lookup_lt_is_Some. apply lookup_lt_Some in Hi. lia. }
        pose proof (proj1 (Forall_lookup _ _) Hwf j o Ho) as [e' ->].
        exists e'. split; [exact Ho | exact (Hbefore j e' Hj Ho)]. }
      congruence. }
    cbn [place]. split; [apply length_insert|].
    split; [apply list_lookup_insert_eq; now apply lookup_lt_Some in Hi|].
    intros j Hj. now apply list_lookup_insert_ne.
  - intros Habsent.
    assert (found = None) as ->; [|reflexivity].
    assert (index_of_id old (kratos_registry.ID s) = Val None) as Hix; [|congruence].
    apply index_of_id_absent. intros o Ho.
    pose proof (proj1 (Forall_forall _ _) Hwf o Ho) as [e ->].
    exists e. split; [reflexivity | now apply Habsent].
Qed.

(** C2. [writeRegistryFile] never panics and touches the target path by
    the rename only. The calls it makes are, in this order, the write of
    the whole encoded document to the path with [.tmp] appended and the
    rename of that path over the target, the second only after the first
    has succeeded, and always then. A failure to encode or to write the
    temporary file is returned as the error, and so is a failure of the
    rename, which leaves the document at the temporary path; whenever an
    error is returned the target path holds what it held before. When
    the document encodes and neither call fails, the result is [nil], the
    target path holds the encoded document and the temporary path is
    gone. *)
Theorem writeRegistryFile_atomic path data w :
  ∃ res w',
    writeRegistryFile marshal path data w = (Val res, w') ∧
    (∀ e, marshal data = inr e → res = Some e ∧ w' = w) ∧
    (∀ b fl, marshal data = inl b → faults w (calls w) = Some fl →
       res = Some (failure_err fl) ∧
       trace w' = trace w ++ [EvWriteFile (path +:+ ".tmp")]) ∧
    (∃ n, trace w' = trace w ++
            take n [EvWriteFile (path +:+ ".tmp"); EvRename (path +:+ ".tmp") path]) ∧
    (∀ b, marshal data = inl b → faults w (calls w) = None →
       trace w' = trace w ++
         [EvWriteFile (path +:+ ".tmp"); EvRename (path +:+ ".tmp") path] ∧
       (∀ fl, faults w (S (calls w)) = Some fl →
          res = Some (failure_err fl) ∧ files w' !! (path +:+ ".tmp") = Some b) ∧
       (faults w (S (calls w)) = None →
          res = None ∧ files w' !! path = Some b ∧
          files w' !! (path +:+ ".tmp") = None)) ∧
    match res with
    | Some _ => files w' !! path = files w !! path
    | None =>
        ∃ b, marshal data = inl b ∧ files w' !! path = Some b ∧
             files w' !! (path +:+ ".tmp") = None ∧
             trace w' = trace w ++
               [EvWriteFile (path +:+ ".tmp"); EvRename (path +:+ ".tmp") path]
    end.
Proof.
  pose proof (tmp_path_ne path) as Hne.
  destruct (marshal data) as [b|e] eqn:Hm.
  - destruct (faults w (calls w)) as [fl|] eqn:Hf1.
    + rewrite (writeRegistryFile_write_error _ _ _ b fl Hm Hf1).
      eexists _, _. split; [reflexivity|]. cbn [files trace].
      split; [intros e [=]|].
      split; [intros b0 fl0 _ [= <-]; split; reflexivity|].
      split; [exists 1%nat; reflexivity|].
      split; [intros b0 _ [=]|].
      destruct (residue fl); [now rewrite lookup_insert_ne | reflexivity].
    + destruct (faults w (S (calls w))) as [fl|] eqn:Hf2.
      * rewrite (writeRegistryFile_rename_error _ _ _ b fl Hm Hf1 Hf2).
        eexists _, _. split; [reflexivity|]. cbn [files trace].
        split; [intros e [=]|].
        split; [intros b0 fl0 _ [=]|].
        split; [exists 2%nat; reflexivity|].
        split.
        { intros b0 [= <-] _. split; [reflexivity|]. split; [|discriminate].
          intros fl0 [= <-]. split; [reflexivity | apply lookup_insert_eq]. }
        now rewrite lookup_insert_ne.
      * rewrite (writeRegistryFile_ok _ _ _ b Hm Hf1 Hf2).
        eexists _, _. split; [reflexivity|]. cbn [files trace].
        split; [intros e [=]|].
        split; [intros b0 fl0 _ [=]|].
        split; [exists 2%nat; reflexivity|].
        assert (<[path:=b]> (delete (path +:+ ".tmp") (files w)) !! (path +:+ ".tmp") = None)
          as Htmp.
        { rewrite lookup_insert_ne by congruence. apply lookup_delete_eq. }
        split.
        { intros b0 [= <-] _. split; [reflexivity|]. split; [discriminate|].
          intros _. split; [reflexivity|]. split; [apply lookup_insert_eq | exact Htmp]. }
        exists b. split; [reflexivity|]. split; [apply lookup_insert_eq|].
        split; [exact Htmp | reflexivity].
  - rewrite (writeRegistryFile_encode_error _ _ _ e Hm).
    eexists _, _. split; [reflexivity|].
    split; [intros e0 [= <-]; split; reflexivity|].
    split; [intros b fl [=]|].
    split; [exists 0%nat; cbn; now rewrite app_nil_r|].
    split; [intros b [=]|].
    reflexivity.
Qed.

(** *** Deregister *)

Lemma store_services_lookup data name services data1 :
  store_services data name services = Val data1 →
  services_of data1 name = services ∧
  ∀ n, n ≠ name → lookup_services data1 n = lookup_services data n.
Proof.
  unfold store_services, assign_services, delete_services, services_of, lookup_services.
  destruct services as [|o rest].
  - intros [= <-]. cbn. destruct (Services data) as [m|]; cbn.
    + split; [now rewrite lookup_delete_eq|]. intros n Hn. now apply lookup_delete_ne.
    + split; [reflexivity|]. reflexivity.
  - destruct (Services data) as [m|]; [|discriminate]. intros [= <-]. cbn.
    split; [now rewrite lookup_insert_eq|]. intros n Hn. now apply lookup_insert_ne.
Qed.

Lemma remove_at_nil found : remove_at [] found = [].
Proof. destruct found as [i|]; [|reflexivity]. cbn. now rewrite take_nil. Qed.

(** The removal never assigns into a nil map: a nil map has no entries to
    remove from. *)
Lemma store_services_total data name found :
  ∃ data1, store_services data name (remove_at (services_of data name) found) = Val data1.
Proof.
  unfold store_services, assign_services, services_of, lookup_services.
  destruct (Services data) as [m|].
  - destruct (remove_at _ _); eauto.
  - cbn. rewrite remove_at_nil. eauto.
Qed.

(** [Deregister] up to its call of [writeRegistryFile], when the file was
    read and decoded. *)
Lemma Deregister_reads r s w b data found data1 :
  faults w (calls w) = None →
  files w !! filePath r = Some b →
  unmarshal b = inl data →
  index_of_id (services_of data (kratos_registry.Name s)) (kratos_registry.ID s) = Val found →
  store_services data (kratos_registry.Name s)
    (remove_at (services_of data (kratos_registry.Name s)) found) = Val data1 →
  Deregister marshal unmarshal r (Some s) w =
  written_by
    (writeRegistryFile marshal (filePath r)
       (set_Updated data1 (clock w (tick w)))
       (mkWorld (files w) (faults w) (S (calls w)) (clock w) (S (tick w))
          (trace w ++ [EvLock; EvReadFile (filePath r); EvNow (clock w (tick w))]))).
Proof.
  intros Hf Hr Hu Hi Hs.
  unfold Deregister, with_Lock, defer.
  unfold bind at 1. cbn [emit].
  unfold bind at 1. rewrite readRegistryFile_eq. cbn [files faults calls clock tick trace].
  rewrite Hf, Hr, Hu.
  unfold bind at 1. unfold lift at 1. rewrite Hi.
  unfold bind at 1. unfold lift at 1. rewrite Hs.
  unfold bind at 1. unfold time_Now_Unix at 1. cbn [files faults calls clock tick trace].
  unfold bind at 1. rewrite <- !app_assoc. cbn [app].
  unfold written_by.
  destruct (writeRegistryFile _ _ _ _) as [[[e|]|m] w2]; reflexivity.
Qed.

(** C3. [Deregister] of a non-nil instance, when the file is read and
    written without failure, returns [nil] and has rewritten the file
    (temporary path, then rename) whether or not it removed anything. If
    no entry of the name's list has the id, that list and the list of
    every other name are as before. If some entry has the id, the first
    such entry is taken out of the name's list and nothing else
    changes. *)
Theorem Deregister_removes_the_entry r s w b data :
  encodes_all marshal → round_trip marshal unmarshal →
  files w !! filePath r = Some b →
  unmarshal b = inl data →
  Forall is_Some (services_of data (kratos_registry.Name s)) →
  calm 3 w →
  ∃ w' b' data',
    Deregister marshal unmarshal r (Some s) w = (Val None, w') ∧
    trace w' = trace w ++
      [EvLock; EvReadFile (filePath r); EvNow (clock w (tick w));
       EvWriteFile (filePath r +:+ ".tmp");
       EvRename (filePath r +:+ ".tmp") (filePath r); EvUnlock] ∧
    files w' !! filePath r = Some b' ∧
    marshal data' = inl b' ∧ unmarshal b' = inl data' ∧
    (∀ n, n ≠ kratos_registry.Name s → lookup_services data' n = lookup_services data n) ∧
    ((∀ e, Some e ∈ services_of data (kratos_registry.Name s) → ID e ≠ kratos_registry.ID s) →
       services_of data' (kratos_registry.Name s) = services_of data (kratos_registry.Name s)) ∧
    (∀ l1 e l2,
       services_of data (kratos_registry.Name s) = l1 ++ Some e :: l2 →
       ID e = kratos_registry.ID s →
       (∀ e', Some e' ∈ l1 → ID e' ≠ kratos_registry.ID s) →
       services_of data' (kratos_registry.Name s) = l1 ++ l2).
Proof.
  intros Henc Hrt Hfile Hdec Hwf Hcalm.
  set (name := kratos_registry.Name s) in *.
  set (old := services_of data name) in *.
  destruct (index_of_id_total old (kratos_registry.ID s) Hwf) as [found Hfound].
  destruct (store_services_total data name found) as [data1 Hstore]. fold old in Hstore.
  destruct (store_services_lookup _ _ _ _ Hstore) as [Hmine Hothers].
  set (data' := set_Updated data1 (clock w (tick w))).
  destruct (Henc data') as [b' Hb'].
  pose proof (Hcalm 0%nat ltac:(lia)) as H0. rewrite Nat.add_0_r in H0.
  pose proof (Hcalm 1%nat ltac:(lia)) as H1. rewrite Nat.add_1_r in H1.
  pose proof (Hcalm 2%nat ltac:(lia)) as H2.
  replace (calls w + 2)%nat with (S (S (calls w))) in H2 by lia.
  eexists _, b', data'.
  rewrite (Deregister_reads r s w b data found data1 H0 Hfile Hdec Hfound Hstore).
  fold data'.
  rewrite (writeRegistryFile_ok _ _ _ b' Hb') by assumption.
  unfold written_by, unlocked. cbn [files faults calls clock tick trace].
  split; [reflexivity|].
  split; [rewrite <- !app_assoc; reflexivity|].
  split; [apply lookup_insert_eq|].
  split; [exact Hb'|].
  split; [apply Hrt, Hb'|].
  split; [intros n Hn; unfold data'; rewrite lookup_set_Updated; now apply Hothers|].
  assert (Hnew : services_of data' name = remove_at old found) by exact Hmine.
  rewrite Hnew. split.
  - intros Habsent.
    assert (index_of_id old (kratos_registry.ID s) = Val None) as Hix.
    { apply index_of_id_absent. intros o Ho.
      pose proof (proj1 (Forall_forall _ _) Hwf o Ho) as [e ->].
      exists e. split; [reflexivity | now apply Habsent]. }
    assert (found = None) as -> by congruence. reflexivity.
  - intros l1 e l2 Hold Hid Hbefore.
    assert (index_of_id old (kratos_registry.ID s) = Val (Some (length l1))) as Hix.
    { apply (index_of_id_first old _ (length l1) e).
      - rewrite Hold. now rewrite list_lookup_middle.
      - exact Hid.
      - intros j Hj. rewrite Hold.
        destruct (lookup_lt_is_Some_2 l1 j Hj) as [o Ho].
        rewrite lookup_app_l by exact Hj. rewrite Ho.
        assert (o ∈ old) as Hin.
        { rewrite Hold. apply elem_of_app. left. eapply list_elem_of_lookup_2, Ho. }
        pose proof (proj1 (Forall_forall _ _) Hwf o Hin) as [e' ->].
        exists e'. split; [reflexivity|]. apply Hbefore.
        eapply list_elem_of_lookup_2, Ho. }
    assert (found = Some (length l1)) as -> by congruence.
    cbn [remove_at]. rewrite Hold. apply remove_middle.
Qed.

(** *** GetService *)

Lemma GetService_reads r name w b data result :
  faults w (calls w) = None →
  files w !! filePath r = Some b →
  unmarshal b = inl data →
  to_kratos (services_of data name) = Val result →
  GetService unmarshal r name w =
  (Val (inl result),
   mkWorld (files w) (faults w) (S (calls w)) (clock w) (tick w)
           (trace w ++ [EvRLock; EvReadFile (filePath r); EvRUnlock])).
Proof.
  intros Hf Hr Hu Hk.
  unfold GetService, with_RLock, defer.
  unfold bind at 1. cbn [emit].
  unfold bind at 1. rewrite readRegistryFile_eq. cbn [files faults calls clock tick trace].
  rewrite Hf, Hr, Hu.
  unfold bind at 1. unfold lift at 1. rewrite Hk.
  cbn. now rewrite <- !app_assoc.
Qed.

(** *** Registering over a registration *)

Lemma index_of_id_place services id found instance :
  index_of_id services id = Val found →
  ID instance = id →
  index_of_id (place services found instance) id = Val (Some (placed_at services found)).
Proof.
  intros Hfound Hid. destruct found as [i|]; cbn [place placed_at].
  - destruct (index_of_id_Some _ _ _ Hfound) as (e & Hi & _ & Hbefore).
    apply (index_of_id_first _ _ i instance).
    + apply list_lookup_insert_eq. now apply lookup_lt_Some in Hi.
    + exact Hid.
    + intros j Hj. rewrite list_lookup_insert_ne by lia. now apply Hbefore.
  - pose proof (index_of_id_None _ _ Hfound) as Hall.
    apply (index_of_id_first _ _ (length services) instance).
    + now rewrite list_lookup_middle.
    + exact Hid.
    + intros j Hj. rewrite lookup_app_l by exact Hj.
      destruct (lookup_lt_is_Some_2 services j Hj) as [o Ho].
      destruct (Hall o) as (e' & -> & Hne); [eapply list_elem_of_lookup_2, Ho|].
      eauto.
Qed.


Lemma place_is_Some services found instance :
  Forall is_Some services → Forall is_Some (place services found instance).
Proof.
  intros H. destruct found as [i|]; cbn [place].
  - apply Forall_insert; [exact H | eauto].
  - apply Forall_app. split; [exact H|]. repeat constructor. eauto.
Qed.


(** [Register] when nothing fails. *)
Lemma Register_ok r s w b data found b' :
  faults w (calls w) = None →
  faults w (S (calls w)) = None →
  faults w (S (S (calls w))) = None →
  files w !! filePath r = Some b →
  unmarshal b = inl data →
  index_of_id (services_of data (kratos_registry.Name s)) (kratos_registry.ID s) = Val found →
  marshal (set_Updated
             (set_services data (kratos_registry.Name s)
                (place (services_of data (kratos_registry.Name s)) found
                       (instance_of s (clock w (tick w)))))
             (clock w (S (tick w)))) = inl b' →
  Register marshal unmarshal r (Some s) w =
  (Val None,
   mkWorld (<[filePath r := b']> (delete (filePath r +:+ ".tmp") (files w)))
     (faults w) (S (S (S (calls w)))) (clock w) (S (S (tick w)))
     (trace w ++
        [EvLock; EvReadFile (filePath r);
         EvNow (clock w (tick w)); EvNow (clock w (S (tick w)));
         EvWriteFile (filePath r +:+ ".tmp");
         EvRename (filePath r +:+ ".tmp") (filePath r); EvUnlock])).
Proof.
  intros H0 H1 H2 Hfile Hdec Hfound Hb'.
  rewrite (Register_reads r s w b data found H0 Hfile Hdec Hfound).
  rewrite (writeRegistryFile_ok _ _ _ b' Hb') by assumption.
  unfold written_by, unlocked. cbn [files faults calls clock tick trace].
  now rewrite <- !app_assoc.
Qed.


(** *** What Register stores *)

(** After a [Register] in which nothing fails, the snapshot encoded into
    the file holds, at the first index of the name's list with the id,
    the caller's instance field for field, stamped with the time of the
    call. *)
Lemma Register_stores_instance r s w b data :
  encodes_all marshal → reads_back marshal unmarshal →
  files w !! filePath r = Some b →
  unmarshal b = inl data →
  Forall is_Some (services_of data (kratos_registry.Name s)) →
  calm 3 w →
  ∃ w' b' data' i,
    Register marshal unmarshal r (Some s) w = (Val None, w') ∧
    files w' !! filePath r = Some b' ∧
    marshal data' = inl b' ∧
    (clean data → valid_service s → unmarshal b' = inl data') ∧
    index_of_id (services_of data' (kratos_registry.Name s)) (kratos_registry.ID s) =
      Val (Some i) ∧
    services_of data' (kratos_registry.Name s) !! i =
      Some (Some (instance_of s (clock w (tick w)))).
Proof.
  intros Henc Hrt Hfile Hdec Hwf Hcalm.
  set (name := kratos_registry.Name s) in *.
  set (old := services_of data name) in *.
  destruct (index_of_id_total old (kratos_registry.ID s) Hwf) as [found Hfound].
  set (inst := instance_of s (clock w (tick w))).
  set (data' := set_Updated (set_services data name (place old found inst))
                  (clock w (S (tick w)))).
  destruct (Henc data') as [b' Hb'].
  pose proof (Hcalm 0%nat ltac:(lia)) as H0. rewrite Nat.add_0_r in H0.
  pose proof (Hcalm 1%nat ltac:(lia)) as H1. rewrite Nat.add_1_r in H1.
  pose proof (Hcalm 2%nat ltac:(lia)) as H2.
  replace (calls w + 2)%nat with (S (S (calls w))) in H2 by lia.
  eexists _, b', data', (placed_at old found).
  split; [exact (Register_ok r s w b data found b' H0 H1 H2 Hfile Hdec Hfound Hb')|].
  cbn [files]. split; [apply lookup_insert_eq|]. split; [exact Hb'|].
  split; [intros Hc Hs; apply Hrt; [now apply clean_registered | exact Hb']|].
  assert (services_of data' name = place old found inst) as ->.
  { unfold services_of, data'. now rewrite lookup_set_Updated, lookup_set_services_eq. }
  pose proof (index_of_id_place old _ found inst Hfound eq_refl) as Hix.
  split; [exact Hix|].
  destruct (index_of_id_Some _ _ _ Hix) as (e & He & Hid & _).
  destruct found as [i|]; cbn [place placed_at] in *.
  - rewrite list_lookup_insert_eq in He |- *; [reflexivity| |];
      destruct (index_of_id_Some _ _ _ Hfound) as (e0 & Hi & _);
      now apply lookup_lt_Some in Hi.
  - now rewrite list_lookup_middle.
Qed.

(** C6. A nil instance: [Register] returns the validation error at once,
    without taking the lock or touching the file; [Deregister] has no
    such check, takes the lock, reads the file and, the file read and
    decoded, dereferences the nil instance and panics (when the read
    fails it returns the read error instead). *)
Theorem nil_instance_Register_rejects_Deregister_panics r w :
  Register marshal unmarshal r None w = (Val (Some "service cannot be nil"), w) ∧
  (∀ b data,
     faults w (calls w) = None →
     files w !! filePath r = Some b →
     unmarshal b = inl data →
     Deregister marshal unmarshal r None w =
     (Panic nil_deref,
      mkWorld (files w) (faults w) (S (calls w)) (clock w) (tick w)
              (trace w ++ [EvLock; EvReadFile (filePath r); EvUnlock]))) ∧
  (∀ fl,
     faults w (calls w) = Some fl →
     fst (Deregister marshal unmarshal r None w) =
     Val (Some (Errorf "failed to read registry file: " (failure_err fl)))).
Proof.
  split; [reflexivity|]. split.
  - intros b data Hf Hr Hu.
    unfold Deregister, with_Lock, defer.
    unfold bind at 1. cbn [emit].
    unfold bind at 1. rewrite readRegistryFile_eq. cbn [files faults calls clock tick trace].
    rewrite Hf, Hr, Hu. cbn. now rewrite <- !app_assoc.
  - intros fl Hf.
    unfold Deregister, with_Lock, defer.
    unfold bind at 1. cbn [emit].
    unfold bind at 1. rewrite readRegistryFile_eq. cbn [files faults calls clock tick trace].
    rewrite Hf. reflexivity.
Qed.

(** C7 (as the code has it). [Register] does not default an empty id:
    after a [Register] of an instance with an empty id in which nothing
    fails, the snapshot encoded into the file has, under the name, an
    entry with the empty id and the name handed in, the first entry the
    empty id finds; nothing replaces the id by the service name.  The
    file decodes to that snapshot when the strings of the old one and of
    the instance are valid. *)
Theorem Register_keeps_empty_id r s w b data :
  encodes_all marshal → reads_back marshal unmarshal →
  files w !! filePath r = Some b →
  unmarshal b = inl data →
  Forall is_Some (services_of data (kratos_registry.Name s)) →
  calm 3 w →
  kratos_registry.ID s = "" →
  ∃ w' b' data' i e,
    Register marshal unmarshal r (Some s) w = (Val None, w') ∧
    files w' !! filePath r = Some b' ∧
    marshal data' = inl b' ∧
    (clean data → valid_service s → unmarshal b' = inl data') ∧
    index_of_id (services_of data' (kratos_registry.Name s)) "" = Val (Some i) ∧
    services_of data' (kratos_registry.Name s) !! i = Some (Some e) ∧
    ID e = "" ∧ Name e = kratos_registry.Name s.
Proof.
  intros Henc Hrt Hfile Hdec Hwf Hcalm Hempty.
  destruct (Register_stores_instance r s w b data Henc Hrt Hfile Hdec Hwf Hcalm)
    as (w' & b' & data' & i & Hreg & Hf' & Hm' & Hd' & Hix & Hi).
  exists w', b', data', i, (instance_of s (clock w (tick w))).
  rewrite Hempty in Hix.
  repeat (split; [assumption|]). reflexivity.
Qed.

(** C8 (as the code has it). [Register] does not remove repeated
    endpoints: after a [Register] in which nothing fails, the entry of
    the instance in the snapshot encoded into the file lists the
    endpoints handed in, in the same order and with the same repetitions,
    so an endpoint handed in twice is there twice.  The file decodes to
    that snapshot when the strings of the old one and of the instance are
    valid. *)
Theorem Register_keeps_repeated_endpoints r s w b data :
  encodes_all marshal → reads_back marshal unmarshal →
  files w !! filePath r = Some b →
  unmarshal b = inl data →
  Forall is_Some (services_of data (kratos_registry.Name s)) →
  calm 3 w →
  ∃ w' b' data' i e,
    Register marshal unmarshal r (Some s) w = (Val None, w') ∧
    files w' !! filePath r = Some b' ∧
    marshal data' = inl b' ∧
    (clean data → valid_service s → unmarshal b' = inl data') ∧
    index_of_id (services_of data' (kratos_registry.Name s)) (kratos_registry.ID s) =
      Val (Some i) ∧
    services_of data' (kratos_registry.Name s) !! i = Some (Some e) ∧
    Endpoints e = kratos_registry.Endpoints s ∧
    (¬ NoDup (kratos_registry.Endpoints s) → ¬ NoDup (Endpoints e)).
Proof.
  intros Henc Hrt Hfile Hdec Hwf Hcalm.
  destruct (Register_stores_instance r s w b data Henc Hrt Hfile Hdec Hwf Hcalm)
    as (w' & b' & data' & i & Hreg & Hf' & Hm' & Hd' & Hix & Hi).
  exists w', b', data', i, (instance_of s (clock w (tick w))).
  repeat (split; [assumption|]). split; [reflexivity|]. intros H. exact H.
Qed.

(** *** The target path under arbitrary failures *)

Lemma writeRegistryFile_target path data w :
  ∃ res w',
    writeRegistryFile marshal path data w = (Val res, w') ∧
    match res with
    | Some _ => files w' !! path = files w !! path
    | None => ∃ b, marshal data = inl b ∧ files w' !! path = Some b
    end.
Proof.
  pose proof (tmp_path_ne path) as Hne.
  destruct (marshal data) as [b|e] eqn:Hm.
  - destruct (faults w (calls w)) as [fl|] eqn:Hf1.
    + rewrite (writeRegistryFile_write_error _ _ _ b fl Hm Hf1).
      eexists _, _. split; [reflexivity|]. cbn [files].
      destruct (residue fl); [now rewrite lookup_insert_ne | reflexivity].
    + destruct (faults w (S (calls w))) as [fl|] eqn:Hf2.
      * rewrite (writeRegistryFile_rename_error _ _ _ b fl Hm Hf1 Hf2).
        eexists _, _. split; [reflexivity|]. cbn [files]. now rewrite lookup_insert_ne.
      * rewrite (writeRegistryFile_ok _ _ _ b Hm Hf1 Hf2).
        eexists _, _. split; [reflexivity|]. cbn [files].
        exists b. split; [reflexivity | apply lookup_insert_eq].
  - rewrite (writeRegistryFile_encode_error _ _ _ e Hm).
    eexists _, _. split; [reflexivity|]. reflexivity.
Qed.

Lemma written_by_target path data w :
  let out := written_by (writeRegistryFile marshal path data w) in
  (fst out ≠ Val None ∧ files (snd out) !! path = files w !! path) ∨
  (fst out = Val None ∧ ∃ b, marshal data = inl b ∧ files (snd out) !! path = Some b).
Proof.
  destruct (writeRegistryFile_target path data w) as ([e|] & w' & -> & H); cbn.
  - left. split; [discriminate | exact H].
  - right. split; [reflexivity | exact H].
Qed.

Ltac enter_locked_read :=
  unfold with_Lock, with_RLock, defer;
  unfold bind at 1; cbn [emit];
  unfold bind at 1; rewrite readRegistryFile_eq;
  cbn [files faults calls clock tick trace].

Lemma Register_unread r s w e :
  fst (readRegistryFile unmarshal r w) = Val (inr e) →
  Register marshal unmarshal r (Some s) w =
  (Val (Some (Errorf "failed to read registry file: " e)), gave_up r w).
Proof.
  rewrite readRegistryFile_eq. cbn [fst]. intros [= H].
  unfold Register. enter_locked_read. rewrite H. cbn.
  unfold gave_up. now rewrite <- !app_assoc.
Qed.

Lemma Deregister_unread r sv w e :
  fst (readRegistryFile unmarshal r w) = Val (inr e) →
  Deregister marshal unmarshal r sv w =
  (Val (Some (Errorf "failed to read registry file: " e)), gave_up r w).
Proof.
  rewrite readRegistryFile_eq. cbn [fst]. intros [= H].
  unfold Deregister. enter_locked_read. rewrite H. cbn.
  unfold gave_up. now rewrite <- !app_assoc.
Qed.

Lemma Deregister_nil r w data :
  fst (readRegistryFile unmarshal r w) = Val (inl data) →
  Deregister marshal unmarshal r None w = (Panic nil_deref, gave_up r w).
Proof.
  rewrite readRegistryFile_eq. cbn [fst]. intros [= H].
  unfold Deregister. enter_locked_read. rewrite H. cbn.
  unfold gave_up. now rewrite <- !app_assoc.
Qed.

Lemma Register_nil_entry r s w data msg :
  fst (readRegistryFile unmarshal r w) = Val (inl data) →
  index_of_id (services_of data (kratos_registry.Name s)) (kratos_registry.ID s)
    = Panic msg →
  ∃ w', Register marshal unmarshal r (Some s) w = (Panic msg, w') ∧ files w' = files w.
Proof.
  rewrite readRegistryFile_eq. cbn [fst]. intros [= H] Hi.
  unfold Register. enter_locked_read. rewrite H.
  unfold bind at 1. unfold time_Now_Unix at 1. cbn [files faults calls clock tick trace].
  unfold bind at 1. unfold lift at 1. rewrite Hi. cbn. eauto.
Qed.

Lemma Deregister_nil_entry r s w data msg :
  fst (readRegistryFile unmarshal r w) = Val (inl data) →
  index_of_id (services_of data (kratos_registry.Name s)) (kratos_registry.ID s)
    = Panic msg →
  ∃ w', Deregister marshal unmarshal r (Some s) w = (Panic msg, w') ∧ files w' = files w.
Proof.
  rewrite readRegistryFile_eq. cbn [fst]. intros [= H] Hi.
  unfold Deregister. enter_locked_read. rewrite H.
  unfold bind at 1. unfold lift at 1. rewrite Hi. cbn. eauto.
Qed.

Lemma read_result r w :
  (∃ e, fst (readRegistryFile unmarshal r w) = Val (inr e)) ∨
  (∃ b data, faults w (calls w) = None ∧ files w !! filePath r = Some b ∧
             unmarshal b = inl data ∧
             fst (readRegistryFile unmarshal r w) = Val (inl data)).
Proof.
  rewrite readRegistryFile_eq. cbn [fst].
  destruct (faults w (calls w)) as [fl|]; [left; eauto|].
  destruct (files w !! filePath r) as [b|]; [|left; eauto].
  destruct (unmarshal b) as [data|e] eqn:Hu; [|left; eauto].
  right. exists b, data. rewrite Hu. auto.
Qed.

(** [Register] leaves the target path alone unless it returns [nil], and
    then the path holds the encoding of the snapshot read with the
    instance placed in it. *)
Lemma Register_target r sv w :
  let out := Register marshal unmarshal r sv w in
  (fst out ≠ Val None ∧ files (snd out) !! filePath r = files w !! filePath r) ∨
  (fst out = Val None ∧
   ∃ s b data found t t' b',
     sv = Some s ∧
     files w !! filePath r = Some b ∧ unmarshal b = inl data ∧
     index_of_id (services_of data (kratos_registry.Name s)) (kratos_registry.ID s)
       = Val found ∧
     marshal (set_Updated
                (set_services data (kratos_registry.Name s)
                   (place (services_of data (kratos_registry.Name s)) found
                          (instance_of s t))) t') = inl b' ∧
     files (snd out) !! filePath r = Some b').
Proof.
  cbn zeta.
  destruct sv as [s|]; [|left; split; [discriminate | reflexivity]].
  destruct (read_result r w) as [[e He]|(b & data & Hf & Hr & Hu & Hread)].
  { left. rewrite (Register_unread r s w e He). split; [discriminate | reflexivity]. }
  destruct (index_of_id (services_of data (kratos_registry.Name s)) (kratos_registry.ID s))
    as [found|m] eqn:Hi.
  2:{ left. destruct (Register_nil_entry r s w data m Hread Hi) as (w' & -> & Hw').
      cbn. split; [discriminate | now rewrite Hw']. }
  rewrite (Register_reads r s w b data found Hf Hr Hu Hi).
  match goal with |- context [written_by (writeRegistryFile marshal ?p ?d ?w1)] =>
    destruct (written_by_target p d w1) as [[Hne Hsame]|[Heq (b' & Hb' & Hnew)]]
  end.
  - left. split; [exact Hne|]. rewrite Hsame. reflexivity.
  - right. split; [exact Heq|]. eexists s, b, data, found, _, _, b'.
    repeat (split; [first [reflexivity | eassumption]|]). exact Hnew.
Qed.

(** The same for [Deregister]. *)
Lemma Deregister_target r sv w :
  let out := Deregister marshal unmarshal r sv w in
  (fst out ≠ Val None ∧ files (snd out) !! filePath r = files w !! filePath r) ∨
  (fst out = Val None ∧
   ∃ s b data found data1 t b',
     sv = Some s ∧
     files w !! filePath r = Some b ∧ unmarshal b = inl data ∧
     index_of_id (services_of data (kratos_registry.Name s)) (kratos_registry.ID s)
       = Val found ∧
     store_services data (kratos_registry.Name s)
       (remove_at (services_of data (kratos_registry.Name s)) found) = Val data1 ∧
     marshal (set_Updated data1 t) = inl b' ∧
     files (snd out) !! filePath r = Some b').
Proof.
  cbn zeta.
  destruct (read_result r w) as [[e He]|(b & data & Hf & Hr & Hu & Hread)].
  { left. rewrite (Deregister_unread r sv w e He). split; [discriminate | reflexivity]. }
  destruct sv as [s|].
  2:{ left. rewrite (Deregister_nil r w data Hread). split; [discriminate | reflexivity]. }
  destruct (index_of_id (services_of data (kratos_registry.Name s)) (kratos_registry.ID s))
    as [found|m] eqn:Hi.
  2:{ left. destruct (Deregister_nil_entry r s w data m Hread Hi) as (w' & -> & Hw').
      cbn. split; [discriminate | now rewrite Hw']. }
  destruct (store_services_total data (kratos_registry.Name s) found) as [data1 Hs].
  rewrite (Deregister_reads r s w b data found data1 Hf Hr Hu Hi Hs).
  match goal with |- context [written_by (writeRegistryFile marshal ?p ?d ?w1)] =>
    destruct (written_by_target p d w1) as [[Hne Hsame]|[Heq (b' & Hb' & Hnew)]]
  end.
  - left. split; [exact Hne|]. rewrite Hsame. reflexivity.
  - right. split; [exact Heq|]. eexists s, b, data, found, data1, _, b'.
    repeat (split; [first [reflexivity | eassumption]|]). exact Hnew.
Qed.

Lemma GetService_files r name w :
  files (snd (GetService unmarshal r name w)) = files w.
Proof.
  unfold GetService. enter_locked_read.
  destruct (faults w (calls w)); [reflexivity|].
  destruct (files w !! filePath r) as [b|]; [|reflexivity].
  destruct (unmarshal b) as [data|]; [|reflexivity].
  unfold bind, lift. destruct (to_kratos _); reflexivity.
Qed.

(** [New] writes the empty snapshot or leaves the target path alone. *)
Lemma New_target path w :
  let out := New marshal Dir path w in
  files (snd out) !! path = files w !! path ∨
  ∃ t b, marshal (mkData (Some ∅) "1.0.0" t) = inl b ∧
         files (snd out) !! path = Some b ∧ fst out = Val (inl (mkRegistry path)).
Proof.
  cbn zeta. remember (New marshal Dir path w) as out eqn:Hout.
  unfold New, os_MkdirAll, os_Stat in Hout.
  unfold bind at 1 in Hout. unfold bind at 1 in Hout. cbn [emit] in Hout.
  unfold bind at 1 in Hout.
  cbn [next_fault ret files faults calls clock tick trace] in Hout.
  destruct (faults w (calls w)) as [fl|]; cbn [fmap option_fmap option_map ret] in Hout;
    [left; now subst out|].
  unfold bind at 1 in Hout. unfold bind at 1 in Hout. cbn [emit] in Hout.
  unfold bind at 1 in Hout.
  cbn [next_fault ret files faults calls clock tick trace] in Hout.
  unfold bind at 1 in Hout. cbn [get_files files] in Hout.
  destruct (faults w (S (calls w))) as [fl|]; cbn [ret] in Hout; [left; now subst out|].
  destruct (files w !! path) as [b0|] eqn:Hp; cbn [ret] in Hout; [left; now subst out|].
  unfold bind at 1 in Hout.
  cbn [time_Now_Unix files faults calls clock tick trace] in Hout.
  unfold bind at 1 in Hout.
  match type of Hout with context [writeRegistryFile marshal ?p ?d ?w1] =>
    destruct (writeRegistryFile_target p d w1) as ([e|] & w' & Hw & H)
  end; rewrite Hw in Hout; cbn [ret] in Hout; subst out; cbn [fst snd].
  - left. cbn in *. rewrite H. exact Hp.
  - right. cbn in *. destruct H as (b & Hb & Hnew). eauto.
Qed.

(** *** No name without an instance *)

Lemma place_nonempty services id found instance :
  index_of_id services id = Val found → place services found instance ≠ [].
Proof.
  intros Hfound. destruct found as [i|]; cbn [place].
  - destruct (index_of_id_Some _ _ _ Hfound) as (e & Hi & _).
    intros Hnil. apply (f_equal length) in Hnil. rewrite length_insert in Hnil.
    apply lookup_lt_Some in Hi. cbn in Hnil. lia.
  - intros Hnil. now apply app_eq_nil in Hnil as [_ [=]].
Qed.

Lemma no_empty_registered data name services t :
  no_empty_list data → services ≠ [] →
  no_empty_list (set_Updated (set_services data name services) t).
Proof.
  intros Hdata Hne n l. rewrite lookup_set_Updated.
  destruct (decide (n = name)) as [->|Hn].
  - rewrite lookup_set_services_eq. now intros [= <-].
  - rewrite lookup_set_services_ne by exact Hn. apply Hdata.
Qed.

Lemma no_empty_stored data name services data1 t :
  no_empty_list data →
  store_services data name services = Val data1 →
  no_empty_list (set_Updated data1 t).
Proof.
  intros Hdata Hstore n l. rewrite lookup_set_Updated.
  destruct (store_services_lookup _ _ _ _ Hstore) as [Hmine Hothers].
  destruct (decide (n = name)) as [->|Hn].
  - intros Hl Hnil. subst l.
    unfold store_services, assign_services, delete_services in Hstore.
    destruct services as [|o rest].
    + injection Hstore as <-. unfold lookup_services in Hl. cbn in Hl.
      destruct (Services data) as [m|]; cbn in Hl; [|discriminate].
      now rewrite lookup_delete_eq in Hl.
    + unfold services_of in Hmine. rewrite Hl in Hmine. discriminate.
  - rewrite Hothers by exact Hn. apply Hdata.
Qed.

Lemma no_empty_initial t : no_empty_list (mkData (Some ∅) "1.0.0" t).
Proof. intros n l. unfold lookup_services. cbn. now rewrite lookup_empty. Qed.

Lemma call_file_holds (P : RegistryData → Prop) r c w :
  (∀ t, P (mkData (Some ∅) "1.0.0" t)) →
  (∀ data s found t t',
     P data →
     index_of_id (services_of data (kratos_registry.Name s)) (kratos_registry.ID s)
       = Val found →
     P (set_Updated
          (set_services data (kratos_registry.Name s)
             (place (services_of data (kratos_registry.Name s)) found (instance_of s t)))
          t')) →
  (∀ data s found data1 t,
     P data →
     index_of_id (services_of data (kratos_registry.Name s)) (kratos_registry.ID s)
       = Val found →
     store_services data (kratos_registry.Name s)
       (remove_at (services_of data (kratos_registry.Name s)) found) = Val data1 →
     P (set_Updated data1 t)) →
  round_trip marshal unmarshal →
  file_holds unmarshal P r w →
  file_holds unmarshal P r (call marshal unmarshal Dir r c w).
Proof.
  intros Hinit Hplace Hstore Hrt Hok. destruct c as [|sv|sv|name]; cbn [call].
  - destruct (New_target (filePath r) w) as [Hsame|(t & b & Hb & Hnew & _)].
    + intros b. rewrite Hsame. apply Hok.
    + intros b0. rewrite Hnew. intros [= <-]. exists (mkData (Some ∅) "1.0.0" t).
      split; [apply Hrt, Hb | apply Hinit].
  - destruct (Register_target r sv w)
      as [[_ Hsame]|[_ (s & b & data & found & t & t' & b' & -> & Hr & Hu & Hi & Hb' & Hnew)]].
    + intros b. rewrite Hsame. apply Hok.
    + intros b0. rewrite Hnew. intros [= <-]. eexists. split; [apply Hrt, Hb'|].
      destruct (Hok b Hr) as (data0 & Hu0 & Hne). rewrite Hu in Hu0. injection Hu0 as <-.
      now apply Hplace.
  - destruct (Deregister_target r sv w)
      as [[_ Hsame]|[_ (s & b & data & found & data1 & t & b' & -> & Hr & Hu & Hi & Hs & Hb' & Hnew)]].
    + intros b. rewrite Hsame. apply Hok.
    + intros b0. rewrite Hnew. intros [= <-]. eexists. split; [apply Hrt, Hb'|].
      destruct (Hok b Hr) as (data0 & Hu0 & Hne). rewrite Hu in Hu0. injection Hu0 as <-.
      eapply Hstore; eauto.
  - intros b. rewrite GetService_files. apply Hok.
Qed.

Lemma call_file_ok r c w :
  round_trip marshal unmarshal →
  file_ok unmarshal r w → file_ok unmarshal r (call marshal unmarshal Dir r c w).
Proof.
  apply call_file_holds.
  - apply no_empty_initial.
  - intros data s found t t' Hne Hi.
    apply no_empty_registered; [exact Hne|]. eapply place_nonempty, Hi.
  - intros data s found data1 t Hne _ Hs. eapply no_empty_stored; [exact Hne | exact Hs].
Qed.

(** *** The snapshots a registry writes are well formed *)

Lemma place_unique services id found instance id' :
  index_of_id services id = Val found →
  ID instance = id →
  (∀ id0, id_unique services id0) →
  id_unique (place services found instance) id'.
Proof.
  intros Hfound Hid Huniq j k e1 e2 Hj Hk H1 H2.
  destruct found as [i|]; cbn [place] in Hj, Hk.
  - destruct (index_of_id_Some _ _ _ Hfound) as (e & Hi & Hide & _).
    assert (i < length services)%nat as Hlt by now apply lookup_lt_Some in Hi.
    destruct (decide (j = i)) as [->|Hji], (decide (k = i)) as [->|Hki]; [reflexivity| | |].
    + rewrite list_lookup_insert_eq in Hj by exact Hlt. injection Hj as <-.
      rewrite list_lookup_insert_ne in Hk by congruence.
      symmetry. apply (Huniq id k i e2 e Hk Hi); congruence.
    + rewrite list_lookup_insert_eq in Hk by exact Hlt. injection Hk as <-.
      rewrite list_lookup_insert_ne in Hj by congruence.
      apply (Huniq id j i e1 e Hj Hi); congruence.
    + rewrite list_lookup_insert_ne in Hj, Hk by congruence.
      now apply (Huniq id' j k e1 e2).
  - pose proof (index_of_id_None _ _ Hfound) as Hnone.
    apply lookup_app_Some in Hj as [Hj|[Hjl Hj]], Hk as [Hk|[Hkl Hk]].
    + now apply (Huniq id' j k e1 e2).
    + apply list_lookup_singleton_Some in Hk as [_ [= <-]].
      destruct (Hnone (Some e1)) as (e0 & [= <-] & Hne);
        [eapply list_elem_of_lookup_2, Hj | congruence].
    + apply list_lookup_singleton_Some in Hj as [_ [= <-]].
      destruct (Hnone (Some e2)) as (e0 & [= <-] & Hne);
        [eapply list_elem_of_lookup_2, Hk | congruence].
    + apply list_lookup_singleton_Some in Hj as [Hj _], Hk as [Hk _]. lia.
Qed.

Lemma lookup_remove_at services i j (x : option ServiceInstance) :
  (i < length services)%nat →
  remove_at services (Some i) !! j = Some x →
  services !! (if decide (j < i)%nat then j else S j) = Some x.
Proof.
  intros Hlt. cbn [remove_at]. intros Hj.
  apply lookup_app_Some in Hj as [Hj|[Hjl Hj]].
  - apply lookup_take_Some in Hj as [Hj Hji]. now rewrite decide_True.
  - rewrite length_take, Nat.min_l in Hjl, Hj by lia. rewrite lookup_drop in Hj.
    rewrite decide_False by lia. rewrite <- Hj. f_equal. lia.
Qed.

Lemma remove_at_sound services id found :
  index_of_id services id = Val found →
  Forall is_Some services → (∀ id0, id_unique services id0) →
  Forall is_Some (remove_at services found) ∧
  ∀ id', id_unique (remove_at services found) id'.
Proof.
  intros Hfound Hwf Huniq. destruct found as [i|]; [|now split].
  destruct (index_of_id_Some _ _ _ Hfound) as (e & Hi & _).
  assert (i < length services)%nat as Hlt by now apply lookup_lt_Some in Hi.
  split.
  - apply Forall_lookup. intros j x Hj.
    apply (lookup_remove_at _ _ _ _ Hlt) in Hj.
    exact (proj1 (Forall_lookup _ _) Hwf _ _ Hj).
  - intros id' j k e1 e2 Hj Hk H1 H2.
    apply (lookup_remove_at _ _ _ _ Hlt) in Hj, Hk.
    pose proof (Huniq id' _ _ e1 e2 Hj Hk H1 H2) as Heq.
    repeat case_decide; lia.
Qed.

Lemma well_formed_services data name :
  well_formed data →
  Forall is_Some (services_of data name) ∧ ∀ id, id_unique (services_of data name) id.
Proof.
  intros Hwf. unfold services_of.
  destruct (lookup_services data name) as [l|] eqn:Hl; cbn.
  - destruct (Hwf name l Hl) as (_ & H1 & H2). now split.
  - split; [constructor|]. intros id i j e e' Hi. now rewrite lookup_nil in Hi.
Qed.

Lemma well_formed_registered data s found t t' :
  well_formed data →
  index_of_id (services_of data (kratos_registry.Name s)) (kratos_registry.ID s)
    = Val found →
  well_formed
    (set_Updated
       (set_services data (kratos_registry.Name s)
          (place (services_of data (kratos_registry.Name s)) found (instance_of s t))) t').
Proof.
  intros Hwf Hi n l. rewrite lookup_set_Updated.
  destruct (well_formed_services data (kratos_registry.Name s) Hwf) as [Hsome Huniq].
  destruct (decide (n = kratos_registry.Name s)) as [->|Hn].
  - rewrite lookup_set_services_eq. intros [= <-]. split; [|split].
    + eapply place_nonempty, Hi.
    + now apply place_is_Some.
    + intros id'. eapply place_unique; [exact Hi | reflexivity | exact Huniq].
  - rewrite lookup_set_services_ne by exact Hn. apply Hwf.
Qed.

Lemma well_formed_stored data s found data1 t :
  well_formed data →
  index_of_id (services_of data (kratos_registry.Name s)) (kratos_registry.ID s)
    = Val found →
  store_services data (kratos_registry.Name s)
    (remove_at (services_of data (kratos_registry.Name s)) found) = Val data1 →
  well_formed (set_Updated data1 t).
Proof.
  intros Hwf Hi Hstore n l. rewrite lookup_set_Updated.
  destruct (well_formed_services data (kratos_registry.Name s) Hwf) as [Hsome Huniq].
  destruct (remove_at_sound _ _ _ Hi Hsome Huniq) as [Hsome' Huniq'].
  destruct (store_services_lookup _ _ _ _ Hstore) as [Hmine Hothers].
  destruct (decide (n = kratos_registry.Name s)) as [->|Hn].
  - intros Hl. split; [|split].
    + eapply (no_empty_stored data _ _ data1 t); [|exact Hstore|].
      * intros n0 l0 Hl0. now destruct (Hwf n0 l0 Hl0).
      * rewrite lookup_set_Updated. exact Hl.
    + unfold services_of in Hmine. rewrite Hl in Hmine. cbn in Hmine. now subst l.
    + unfold services_of in Hmine. rewrite Hl in Hmine. cbn in Hmine. now subst l.
  - rewrite Hothers by exact Hn. apply Hwf.
Qed.

(** Every snapshot a registry leaves in its file is well formed, if the
    file was absent or well formed to begin with: the lists the theorems
    on [Register] and [Deregister] start from have no nil entry and no id
    twice. *)
Lemma run_calls_well_formed r cs w :
  round_trip marshal unmarshal →
  file_holds unmarshal well_formed r w →
  file_holds unmarshal well_formed r (run_calls marshal unmarshal Dir r cs w).
Proof.
  intros Hrt. revert w. induction cs as [|c cs IH]; intros w Hok; [exact Hok|].
  cbn. apply IH. apply call_file_holds; try assumption.
  - intros t n l. unfold lookup_services. cbn. now rewrite lookup_empty.
  - intros data s found t t'. apply well_formed_registered.
  - intros data s found data1 t. apply well_formed_stored.
Qed.

(** C10. The snapshot in the registry's file never maps a name to an
    empty list. Starting from a world where the file does not exist, or
    holds a snapshot without an empty list, every sequence of [New],
    [Register], [Deregister] and [GetService] calls on that path, nil
    arguments and failing or interrupted system calls included, leaves a
    file that, if it exists, decodes to a snapshot without an empty list.
    And [Deregister] of the only instance under a name, when nothing
    fails, writes a snapshot from which the name's key is gone. *)
Theorem snapshot_has_no_empty_list r :
  round_trip marshal unmarshal →
  (∀ w cs, file_ok unmarshal r w →
           file_ok unmarshal r (run_calls marshal unmarshal Dir r cs w)) ∧
  (∀ s w b data e,
     encodes_all marshal →
     files w !! filePath r = Some b →
     unmarshal b = inl data →
     services_of data (kratos_registry.Name s) = [Some e] →
     ID e = kratos_registry.ID s →
     calm 3 w →
     ∃ w' b' data',
       Deregister marshal unmarshal r (Some s) w = (Val None, w') ∧
       files w' !! filePath r = Some b' ∧
       unmarshal b' = inl data' ∧
       lookup_services data' (kratos_registry.Name s) = None).
Proof.
  intros Hrt. split.
  - intros w cs. revert w. induction cs as [|c cs IH]; intros w Hok; [exact Hok|].
    cbn. apply IH. now apply call_file_ok.
  - intros s w b data e Henc Hfile Hdec Hold Hid Hcalm.
    pose proof (Hcalm 0%nat ltac:(lia)) as H0. rewrite Nat.add_0_r in H0.
    pose proof (Hcalm 1%nat ltac:(lia)) as H1. rewrite Nat.add_1_r in H1.
    pose proof (Hcalm 2%nat ltac:(lia)) as H2.
    replace (calls w + 2)%nat with (S (S (calls w))) in H2 by lia.
    assert (index_of_id (services_of data (kratos_registry.Name s)) (kratos_registry.ID s)
            = Val (Some 0%nat)) as Hi.
    { rewrite Hold. cbn. now rewrite (proj2 (String.eqb_eq _ _) Hid). }
    assert (store_services data (kratos_registry.Name s)
              (remove_at (services_of data (kratos_registry.Name s)) (Some 0%nat))
            = Val (delete_services data (kratos_registry.Name s))) as Hs.
    { now rewrite Hold. }
    set (data' := set_Updated (delete_services data (kratos_registry.Name s))
                    (clock w (tick w))).
    destruct (Henc data') as [b' Hb'].
    exists
      (unlocked
         (mkWorld
            (<[filePath r := b']> (delete (filePath r +:+ ".tmp") (files w)))
            (faults w) (S (S (S (calls w)))) (clock w) (S (tick w))
            ((trace w ++ [EvLock; EvReadFile (filePath r); EvNow (clock w (tick w))]) ++
             [EvWriteFile (filePath r +:+ ".tmp");
              EvRename (filePath r +:+ ".tmp") (filePath r)]))),
      b', data'.
    rewrite (Deregister_reads r s w b data _ _ H0 Hfile Hdec Hi Hs). fold data'.
    rewrite (writeRegistryFile_ok _ _ _ b' Hb') by assumption.
    split; [reflexivity|]. cbn [unlocked files].
    split; [apply lookup_insert_eq|]. split; [apply Hrt, Hb'|].
    unfold data', lookup_services, delete_services. cbn.
    destruct (Services data) as [m|]; cbn; [apply lookup_delete_eq | reflexivity].
Qed.

End RegistryFacts.

(** ** The watcher *)

Section WatcherFacts.

Context {Bytes : Type}.
Variable marshal : RegistryData → Bytes + error.
Variable unmarshal : Bytes → RegistryData + error.
Variable Dir : string → string.

Implicit Types (s : Sys Bytes) (a : Action) (o : list Obs).

Ltac step_cases H :=
  unfold step in H;
  repeat (case_match; try discriminate);
  unfold watch_step, fetch, Next_select, Stop, put_item, send, close, at_pc in *;
  repeat (case_match; try discriminate);
  simplify_eq; cbn in *.

(** Nothing resets the [stopped] flag. *)
Lemma step_stopped a s s' o :
  step marshal unmarshal Dir a s = Some (s', o) →
  stopped (watcher s) = true → stopped (watcher s') = true.
Proof. intros H Hs. step_cases H; congruence. Qed.

Lemma step_open a s s' o :
  step marshal unmarshal Dir a s = Some (s', o) →
  open_until_stopped s → open_until_stopped s'.
Proof.
  unfold open_until_stopped. intros H Hopen.
  step_cases H; intros Hs; try congruence;
    try (destruct (Hopen Hs); split; congruence); auto.
Qed.

Lemma run_cons a acts s :
  run marshal unmarshal Dir (a :: acts) s =
  match step marshal unmarshal Dir a s with
  | None => run marshal unmarshal Dir acts s
  | Some (s', o) =>
      (o ++ fst (run marshal unmarshal Dir acts s'), snd (run marshal unmarshal Dir acts s'))
  end.
Proof.
  cbn [run]. destruct (step _ _ _ a s) as [[s' o]|]; [|reflexivity].
  now destruct (run _ _ _ acts s').
Qed.

Lemma run_invariant (P : Sys Bytes → Prop) :
  (∀ a s s' o, step marshal unmarshal Dir a s = Some (s', o) → P s → P s') →
  ∀ acts s, P s → P (snd (run marshal unmarshal Dir acts s)).
Proof.
  intros Hstep acts. induction acts as [|a acts IH]; intros s Hs; [exact Hs|].
  rewrite run_cons. destruct (step _ _ _ a s) as [[s' o]|] eqn:Ha; cbn [snd].
  - apply IH. eapply Hstep; eauto.
  - now apply IH.
Qed.

(** C5. After a [Stop] on a running process (at any point of any
    schedule since [NewWatcher]) has returned [nil], and whatever happens
    afterwards (goroutine steps, ticks, registry calls, further [Next] and
    [Stop] calls): [Next] returns the watcher-stopped error from its
    opening check, for every choice its [select] could have made, without
    entering the [select] and without changing the state; [Stop] returns
    [nil] and changes nothing, so the outcome of a later [Next] is the
    same. *)
Theorem Next_after_Stop r name w0 before after :
  let s1 := snd (run marshal unmarshal Dir before (NewWatcher r name w0)) in
  alive s1 = true →
  ∃ s2,
    step marshal unmarshal Dir ActStop s1 = Some (s2, [StopReturned None]) ∧
    let s3 := snd (run marshal unmarshal Dir after s2) in
    (∀ pick, Next pick (watcher s3) = Some (Failed ErrWatcherStopped, watcher s3)) ∧
    Stop (watcher s3) = (Val None, watcher s3) ∧
    (alive s3 = true →
     step marshal unmarshal Dir ActNext s3 =
       Some (s3, [NextReturned (Failed ErrWatcherStopped)]) ∧
     step marshal unmarshal Dir ActStop s3 = Some (s3, [StopReturned None])).
Proof.
  intros s1 Halive.
  assert (open_until_stopped s1) as Hopen.
  { apply (run_invariant open_until_stopped); [apply step_open|]. intros _. now split. }
  assert (∃ s2, step marshal unmarshal Dir ActStop s1 = Some (s2, [StopReturned None]) ∧
                stopped (watcher s2) = true) as (s2 & Hstop & Hs2).
  { unfold step. rewrite Halive. unfold Stop.
    destruct (stopped (watcher s1)) eqn:Hst.
    - eexists. split; [reflexivity|]. exact Hst.
    - destruct (Hopen Hst) as [Hc He]. unfold close. rewrite Hc, He.
      eexists. split; [reflexivity|]. reflexivity. }
  exists s2. split; [exact Hstop|]. intros s3.
  assert (stopped (watcher s3) = true) as Hs3.
  { apply (run_invariant (fun s => stopped (watcher s) = true)); [|exact Hs2].
    intros a s s' o. apply step_stopped. }
  split; [intros pick; unfold Next; now rewrite Hs3|].
  split; [unfold Stop; now rewrite Hs3|].
  intros Halive3. unfold step, Stop. rewrite Halive3, Hs3.
  split; [reflexivity|]. now destruct s3.
Qed.

(** *** What Next delivers *)

Lemma step_fetched_before a s s' o obs :
  step marshal unmarshal Dir a s = Some (s', o) →
  fetched_before s obs →
  fetched_before s' (obs ++ o) ∧
  (o = [] ∨ ∃ x, o = [x] ∧ ∀ v, x = NextReturned (Instances v) → Fetched v ∈ obs).
Proof.
  unfold fetched_before. intros H [Hbuf Hpc].
  step_cases H; (split; [split|]);
    try (left; reflexivity);
    try (right; eexists; split; [reflexivity|]; intros v' Hx; inversion Hx; subst; eauto);
    intros v' Hv'; rewrite ?app_nil_r, ?elem_of_app, ?list_elem_of_singleton;
    try (destruct Hv' as [Hv'|Hv']); try discriminate;
    try congruence; try (inversion Hv'; subst); eauto 6.
Qed.

Lemma deliveries_fetched_snoc obs x :
  deliveries_fetched obs →
  (∀ v, x = NextReturned (Instances v) → Fetched v ∈ obs) →
  deliveries_fetched (obs ++ [x]).
Proof.
  intros Hobs Hx pre v post. induction post as [|y post _] using rev_ind.
  - intros Heq. apply app_inj_tail in Heq as [-> ->]. now apply Hx.
  - rewrite app_comm_cons, app_assoc. intros Heq.
    apply app_inj_tail in Heq as [Heq _]. now apply (Hobs pre v post).
Qed.

Lemma run_deliveries_fetched acts s obs :
  fetched_before s obs → deliveries_fetched obs →
  deliveries_fetched (obs ++ fst (run marshal unmarshal Dir acts s)).
Proof.
  revert s obs. induction acts as [|a acts IH]; intros s obs Hinv Hobs.
  - cbn. now rewrite app_nil_r.
  - rewrite run_cons. destruct (step _ _ _ a s) as [[s' o]|] eqn:Ha; [|now apply IH].
    cbn [fst]. rewrite app_assoc.
    destruct (step_fetched_before a s s' o obs Ha Hinv) as [Hinv' [->|(x & -> & Hx)]].
    + apply IH; [exact Hinv'|]. now rewrite app_nil_r.
    + apply IH; [exact Hinv'|]. now apply deliveries_fetched_snoc.
Qed.

(** The watcher keeps its registry and its name. *)
Lemma step_watched a s s' o r name :
  step marshal unmarshal Dir a s = Some (s', o) →
  registry (watcher s) = r ∧ serviceName (watcher s) = name →
  registry (watcher s') = r ∧ serviceName (watcher s') = name.
Proof. intros H Hs. step_cases H; exact Hs. Qed.

Lemma step_Fetched a s s' o v :
  step marshal unmarshal Dir a s = Some (s', o) →
  Fetched v ∈ o →
  ∃ p, a = ActWatch p ∧ (pc s = PcStart ∨ pc s = PcFetch) ∧
       fst (GetService unmarshal (registry (watcher s)) (serviceName (watcher s)) (world s))
       = Val (inl v).
Proof.
  intros H Hv. step_cases H; try (now inversion Hv).
  all: try (apply list_elem_of_singleton in Hv; discriminate).
  all: apply list_elem_of_singleton in Hv; inversion Hv; subst.
  all: eexists; split; [reflexivity|]; split; [eauto | reflexivity].
Qed.

(** C9. From [NewWatcher] on, under every schedule: an instance set that
    [Next] returns was fetched earlier in the run; a fetch is a step of
    the goroutine at its first statement or after a tick, and what it
    fetches is the whole result of the registry's [GetService] for the
    watched name in the world of that moment. And the first fetch needs
    no tick: when [GetService] succeeds at the start, three steps of the
    goroutine (fetch, check, send) put its result in the channel, and a
    [Next] then returns it, the ticker never having fired. *)
Theorem Next_delivers_fetched_sets r name w0 :
  let s0 := NewWatcher r name w0 in
  (∀ acts pre v post,
     fst (run marshal unmarshal Dir acts s0) = pre ++ NextReturned (Instances v) :: post →
     Fetched v ∈ pre) ∧
  (∀ acts a s' o v,
     let s := snd (run marshal unmarshal Dir acts s0) in
     step marshal unmarshal Dir a s = Some (s', o) →
     Fetched v ∈ o →
     ∃ p, a = ActWatch p ∧ (pc s = PcStart ∨ pc s = PcFetch) ∧
          fst (GetService unmarshal r name (world s)) = Val (inl v)) ∧
  (∀ v w',
     GetService unmarshal r name w0 = (Val (inl v), w') →
     ∀ p1 p2 p3 q,
       run marshal unmarshal Dir
           [ActWatch p1; ActWatch p2; ActWatch p3; ActNext; ActSelect q] s0 =
       ([Fetched v; NextReturned (Instances v)],
        mkSys w' (mkWatcher r name false (mkChan None false) (mkChan None false) false)
              PcIdle false 0)).
Proof.
  intros s0. split; [|split].
  - intros acts.
    apply (run_deliveries_fetched acts s0 []).
    + split; [intros v [=] | intros v [[=]|[=]]].
    + intros pre v post Heq. now destruct pre.
  - intros acts a s' o v s Hstep Hv.
    assert (registry (watcher s) = r ∧ serviceName (watcher s) = name) as [Hr Hn].
    { apply (run_invariant (fun s => registry (watcher s) = r ∧ serviceName (watcher s) = name)).
      - intros a0 s1 s2 o0 H. exact (step_watched a0 s1 s2 o0 r name H).
      - now split. }
    destruct (step_Fetched a s s' o v Hstep Hv) as (p & Ha & Hpc & Hget).
    exists p. now rewrite Hr, Hn in Hget.
  - intros v w' Hget p1 p2 p3 q.
    subst s0. cbn [run]. unfold step at 1, alive, NewWatcher. cbn [pc].
    unfold watch_step. cbn [pc]. unfold fetch.
    cbn [watcher registry serviceName world]. rewrite Hget.
    destruct p3, q as [|[|[|q]]]; reflexivity.
Qed.

End WatcherFacts.

(** * The model at work

    The statements above, on the concrete store: a registry created on an
    empty file system, an instance registered, and the scenarios of the
    specification replayed. *)

Lemma Doc_encodes_all : encodes_all Doc.MarshalIndent.
Proof. intros data. now exists (Doc.Document data). Qed.

Lemma Doc_round_trip : round_trip Doc.MarshalIndent Doc.Unmarshal.
Proof. intros data b [= <-]. reflexivity. Qed.

Lemma Doc_reads_back : reads_back Doc.MarshalIndent Doc.Unmarshal.
Proof. intros data b _ [= <-]. reflexivity. Qed.

Lemma Doc_valid_v1 : valid_service Doc.svc_v1.
Proof.
  unfold valid_service. split_and!; try (vm_compute; reflexivity);
    [apply map_Forall_empty | repeat constructor].
Qed.

Lemma Doc_valid_v2 : valid_service Doc.svc_v2.
Proof.
  unfold valid_service. split_and!; try (vm_compute; reflexivity);
    [apply map_Forall_empty | repeat constructor].
Qed.

Lemma Doc_valid_no_id : valid_service Doc.svc_no_id.
Proof.
  unfold valid_service. split_and!; try (vm_compute; reflexivity);
    [apply map_Forall_empty | repeat constructor].
Qed.

Lemma Doc_valid_twice : valid_service Doc.svc_twice.
Proof.
  unfold valid_service. split_and!; try (vm_compute; reflexivity);
    [apply map_Forall_empty | repeat constructor].
Qed.

Lemma Doc_created_clean : clean Doc.data_created.
Proof.
  split; [vm_compute; reflexivity|]. intros n l Hl.
  unfold lookup_services in Hl. cbn [Services Doc.data_created] in Hl.
  now rewrite lookup_empty in Hl.
Qed.

Lemma Doc_registered_clean : clean Doc.data_registered.
Proof.
  split; [vm_compute; reflexivity|]. intros n l Hl.
  unfold lookup_services in Hl. cbn [Services Doc.data_registered] in Hl.
  apply lookup_singleton_Some in Hl as [<- <-]. split; [vm_compute; reflexivity|].
  intros e He. apply list_elem_of_singleton in He. injection He as ->.
  apply (valid_instance_of Doc.svc_v1), Doc_valid_v1.
Qed.







Lemma Doc_calm n w : faults w = Doc.quiet → calm n w.
Proof. intros H k _. now rewrite H. Qed.

Lemma Doc_created_file : files Doc.created !! Doc.path = Some (Doc.Document Doc.data_created).
Proof. vm_compute. reflexivity. Qed.

Lemma Doc_registered_file :
  files Doc.registered !! Doc.path = Some (Doc.Document Doc.data_registered).
Proof. vm_compute. reflexivity. Qed.

Lemma Doc_registered_list :
  services_of Doc.data_registered "svc" = [Some (instance_of Doc.svc_v1 1700000001)].
Proof. vm_compute. reflexivity. Qed.

(** Replace on conflict: [svc] registered as [v1] and then as [v2] under
    the same id is stored once, as [v2] with the endpoint of [v2] and the
    time of the second call. *)
Lemma Register_overwrites_or_appends_on_conflict :
  ∃ w' data',
    Register Doc.MarshalIndent Doc.Unmarshal Doc.reg (Some Doc.svc_v2) Doc.registered
      = (Val None, w') ∧
    files w' !! Doc.path = Some (Doc.Document data') ∧
    length (services_of data' "svc") = 1%nat ∧
    services_of data' "svc" !! 0%nat =
      Some (Some (mkInstance "1" "svc" "v2" ∅ ["http://b"] 1700000003)).
Proof.
  destruct (Register_overwrites_or_appends Doc.MarshalIndent Doc.Unmarshal
              Doc.reg Doc.svc_v2 Doc.registered (Doc.Document Doc.data_registered)
              Doc.data_registered Doc_encodes_all Doc_reads_back
              Doc_registered_file eq_refl)
    as (w' & b' & data' & Hreg & _ & Hfile & Hmar & _ & _ & Hover & _).
  - change (kratos_registry.Name Doc.svc_v2) with "svc".
    rewrite Doc_registered_list. repeat constructor. eauto.
  - now apply Doc_calm.
  - injection Hmar as <-.
    exists w', data'. split; [exact Hreg|]. split; [exact Hfile|].
    destruct (Hover 0%nat (instance_of Doc.svc_v1 1700000001)) as (Hlen & Hat & _).
    + change (kratos_registry.Name Doc.svc_v2) with "svc". now rewrite Doc_registered_list.
    + reflexivity.
    + intros j e' Hj. lia.
    + change (kratos_registry.Name Doc.svc_v2) with "svc" in *.
      rewrite Doc_registered_list in Hlen. split; [exact Hlen | exact Hat].
Defined.

(** A write whose first system call is refused reports the refusal and
    leaves the registry's file as it was; a write in which nothing fails
    puts the document at the path and leaves nothing at the temporary
    path. *)
Lemma writeRegistryFile_atomic_when_refused :
  (∃ w',
     writeRegistryFile Doc.MarshalIndent Doc.path Doc.data_created Doc.failing
       = (Val (Some "permission denied"), w') ∧
     files w' !! Doc.path = Some (Doc.Document Doc.data_registered)) ∧
  (∃ w',
     writeRegistryFile Doc.MarshalIndent Doc.path Doc.data_created Doc.registered
       = (Val None, w') ∧
     trace w' = trace Doc.registered ++
       [EvWriteFile (Doc.path +:+ ".tmp"); EvRename (Doc.path +:+ ".tmp") Doc.path] ∧
     files w' !! Doc.path = Some (Doc.Document Doc.data_created) ∧
     files w' !! (Doc.path +:+ ".tmp") = None).
Proof.
  split.
  - destruct (writeRegistryFile_atomic Doc.MarshalIndent Doc.path Doc.data_created
                Doc.failing) as (res & w' & Hw & _ & Hfail & _ & _ & Hres).
    destruct (Hfail (Doc.Document Doc.data_created) (mkFailure "permission denied" None))
      as [-> _]; [reflexivity | vm_compute; reflexivity |].
    exists w'. split; [exact Hw|]. rewrite Hres. vm_compute. reflexivity.
  - destruct (writeRegistryFile_atomic Doc.MarshalIndent Doc.path Doc.data_created
                Doc.registered) as (res & w' & Hw & _ & _ & _ & Hok & _).
    destruct (Hok (Doc.Document Doc.data_created)) as (Htrace & _ & Hdone);
      [reflexivity | vm_compute; reflexivity |].
    destruct Hdone as (-> & Hfile & Htmp); [vm_compute; reflexivity|].
    exists w'. repeat split; assumption.
Defined.

(** Deregistering an instance nobody registered succeeds and leaves the
    list of [svc] alone. *)
Lemma Deregister_removes_the_entry_unknown :
  ∃ w' data',
    Deregister Doc.MarshalIndent Doc.Unmarshal Doc.reg
      (Some (kratos_registry.mkServiceInstance "x" "none" "" ∅ [])) Doc.registered
      = (Val None, w') ∧
    files w' !! Doc.path = Some (Doc.Document data') ∧
    lookup_services data' "svc" = Some [Some (instance_of Doc.svc_v1 1700000001)].
Proof.
  destruct (Deregister_removes_the_entry Doc.MarshalIndent Doc.Unmarshal
              Doc.reg (kratos_registry.mkServiceInstance "x" "none" "" ∅ [])
              Doc.registered (Doc.Document Doc.data_registered)
              Doc.data_registered Doc_encodes_all Doc_round_trip
              Doc_registered_file eq_refl)
    as (w' & b' & data' & Hreg & _ & Hfile & Hmar & _ & Hothers & _).
  - vm_compute. constructor.
  - now apply Doc_calm.
  - injection Hmar as <-. exists w', data'.
    split; [exact Hreg|]. split; [exact Hfile|].
    rewrite (Hothers "svc") by discriminate. vm_compute. reflexivity.
Defined.



(** The watcher of [svc], run until its first value is in the channel,
    then stopped while the ticker fires and the goroutine goes on: [Next]
    fails with the watcher-stopped error. *)
Lemma Next_after_Stop_on_svc :
  ∃ s2,
    step Doc.MarshalIndent Doc.Unmarshal Doc.Dir ActStop
      (snd (run Doc.MarshalIndent Doc.Unmarshal Doc.Dir
              [ActWatch false; ActWatch false; ActWatch false]
              (NewWatcher Doc.reg "svc" Doc.registered)))
      = Some (s2, [StopReturned None]) ∧
    ∀ pick,
      Next pick (watcher (snd (run Doc.MarshalIndent Doc.Unmarshal Doc.Dir
                                 [ActTick; ActWatch false; ActStop; ActNext] s2)))
      = Some (Failed ErrWatcherStopped,
              watcher (snd (run Doc.MarshalIndent Doc.Unmarshal Doc.Dir
                              [ActTick; ActWatch false; ActStop; ActNext] s2))).
Proof.
  destruct (Next_after_Stop Doc.MarshalIndent Doc.Unmarshal Doc.Dir Doc.reg "svc"
              Doc.registered [ActWatch false; ActWatch false; ActWatch false]
              [ActTick; ActWatch false; ActStop; ActNext])
    as (s2 & Hstop & Hnext & _).
  - vm_compute. reflexivity.
  - exists s2. split; [exact Hstop | exact Hnext].
Defined.

(** A nil instance on the registry holding [svc]: [Register] refuses it,
    [Deregister] panics. *)
Lemma nil_instance_on_registered :
  Register Doc.MarshalIndent Doc.Unmarshal Doc.reg None Doc.registered
    = (Val (Some "service cannot be nil"), Doc.registered) ∧
  fst (Deregister Doc.MarshalIndent Doc.Unmarshal Doc.reg None Doc.registered)
    = Panic nil_deref.
Proof.
  destruct (nil_instance_Register_rejects_Deregister_panics Doc.MarshalIndent Doc.Unmarshal
              Doc.reg Doc.registered) as (Hreg & Hdereg & _).
  split; [exact Hreg|].
  rewrite (Hdereg (Doc.Document Doc.data_registered) Doc.data_registered);
    [reflexivity | vm_compute; reflexivity | exact Doc_registered_file | reflexivity].
Defined.

(** An instance without an id is stored without an id. *)
Lemma Register_keeps_empty_id_no_id :
  ∃ w' data' i e,
    Register Doc.MarshalIndent Doc.Unmarshal Doc.reg (Some Doc.svc_no_id) Doc.created
      = (Val None, w') ∧
    files w' !! Doc.path = Some (Doc.Document data') ∧
    services_of data' "svc" !! i = Some (Some e) ∧
    ID e = "" ∧ Name e = "svc".
Proof.
  destruct (Register_keeps_empty_id Doc.MarshalIndent Doc.Unmarshal
              Doc.reg Doc.svc_no_id Doc.created (Doc.Document Doc.data_created)
              Doc.data_created Doc_encodes_all Doc_reads_back
              Doc_created_file eq_refl)
    as (w' & b' & data' & i & e & Hreg & Hfile & Hmar & _ & _ & Hat & Hid & Hname).
  - vm_compute. constructor.
  - now apply Doc_calm.
  - reflexivity.
  - injection Hmar as <-.
    exists w', data', i, e. repeat (split; [assumption|]). exact Hname.
Defined.

(** C7 as stated does not hold: the instance registered without an id is
    the only entry of its list, its id is empty, and no entry of the list
    has the service name for id. *)
Lemma Register_does_not_default_id :
  ∃ w' data',
    Register Doc.MarshalIndent Doc.Unmarshal Doc.reg (Some Doc.svc_no_id) Doc.created
      = (Val None, w') ∧
    files w' !! Doc.path = Some (Doc.Document data') ∧
    services_of data' "svc" = [Some (mkInstance "" "svc" "v1" ∅ ["http://a"] 1700000001)] ∧
    ¬ ∃ e, Some e ∈ services_of data' "svc" ∧ ID e = kratos_registry.Name Doc.svc_no_id.
Proof.
  exists (snd (Register Doc.MarshalIndent Doc.Unmarshal Doc.reg (Some Doc.svc_no_id)
                 Doc.created)),
         (mkData (Some {[ "svc" := [Some (instance_of Doc.svc_no_id 1700000001)] ]})
                 "1.0.0" 1700000002).
  assert (services_of
            (mkData (Some {[ "svc" := [Some (instance_of Doc.svc_no_id 1700000001)] ]})
                    "1.0.0" 1700000002) "svc"
          = [Some (mkInstance "" "svc" "v1" ∅ ["http://a"] 1700000001)]) as Hlist
    by (vm_compute; reflexivity).
  split; [now vm_compute|]. split; [now vm_compute|]. split; [exact Hlist|].
  rewrite Hlist. intros (e & He & Hid).
  apply list_elem_of_singleton in He. injection He as ->. discriminate.
Qed.

(** The endpoints of an instance that lists one twice are stored as
    listed. *)
Lemma Register_keeps_repeated_endpoints_twice :
  ∃ w' data' i e,
    Register Doc.MarshalIndent Doc.Unmarshal Doc.reg (Some Doc.svc_twice) Doc.created
      = (Val None, w') ∧
    files w' !! Doc.path = Some (Doc.Document data') ∧
    services_of data' "svc" !! i = Some (Some e) ∧
    Endpoints e = ["http://a"; "http://a"].
Proof.
  destruct (Register_keeps_repeated_endpoints Doc.MarshalIndent Doc.Unmarshal
              Doc.reg Doc.svc_twice Doc.created (Doc.Document Doc.data_created)
              Doc.data_created Doc_encodes_all Doc_reads_back
              Doc_created_file eq_refl)
    as (w' & b' & data' & i & e & Hreg & Hfile & Hmar & _ & _ & Hat & Hends & _).
  - vm_compute. constructor.
  - now apply Doc_calm.
  - injection Hmar as <-.
    exists w', data', i, e. repeat (split; [assumption|]). exact Hends.
Defined.

(** C8 as stated does not hold: the only stored entry lists the endpoint
    twice. *)
Lemma Register_keeps_duplicate_endpoints :
  ∃ w' data' e,
    Register Doc.MarshalIndent Doc.Unmarshal Doc.reg (Some Doc.svc_twice) Doc.created
      = (Val None, w') ∧
    files w' !! Doc.path = Some (Doc.Document data') ∧
    services_of data' "svc" = [Some e] ∧
    ¬ NoDup (Endpoints e).
Proof.
  exists (snd (Register Doc.MarshalIndent Doc.Unmarshal Doc.reg (Some Doc.svc_twice)
                 Doc.created)),
         (mkData (Some {[ "svc" := [Some (instance_of Doc.svc_twice 1700000001)] ]})
                 "1.0.0" 1700000002),
         (instance_of Doc.svc_twice 1700000001).
  split; [now vm_compute|]. split; [now vm_compute|]. split; [now vm_compute|].
  cbn. intros Hnd. apply NoDup_cons in Hnd as [Hnotin _]. apply Hnotin. left.
Qed.

(** The watcher of [svc] delivers the registered instance to the first
    [Next] before any tick. *)
Lemma Next_delivers_fetched_sets_first :
  fst (run Doc.MarshalIndent Doc.Unmarshal Doc.Dir
         [ActWatch false; ActWatch false; ActWatch false; ActNext; ActSelect 2]
         (NewWatcher Doc.reg "svc" Doc.registered))
  = [Fetched [Doc.svc_v1]; NextReturned (Instances [Doc.svc_v1])].
Proof.
  destruct (Next_delivers_fetched_sets Doc.MarshalIndent Doc.Unmarshal Doc.Dir
              Doc.reg "svc" Doc.registered) as (_ & _ & Hfirst).
  assert (∃ w', GetService Doc.Unmarshal Doc.reg "svc" Doc.registered
                = (Val (inl [Doc.svc_v1]), w')) as [w' Hget].
  { eexists. vm_compute. reflexivity. }
  now rewrite (Hfirst _ _ Hget).
Defined.

(** A session on an empty file system, with a nil argument and the last
    instance of a name removed: the file has no empty list. *)
Lemma snapshot_has_no_empty_list_session :
  file_ok Doc.Unmarshal Doc.reg
    (run_calls Doc.MarshalIndent Doc.Unmarshal Doc.Dir Doc.reg
       [CallNew; CallRegister (Some Doc.svc_v1); CallRegister None;
        CallDeregister None; CallDeregister (Some Doc.svc_v1)]
       Doc.world0).
Proof.
  apply (proj1 (snapshot_has_no_empty_list Doc.MarshalIndent Doc.Unmarshal Doc.Dir
                  Doc.reg Doc_round_trip)).
  intros b Hb. vm_compute in Hb. discriminate.
Defined.

(** Why the statement on [Stop] speaks of a process that is alive: the
    goroutine reads [stopped] and only then enters the [select] that
    sends. A [Stop] between the two closes the channel, and the send case
    of the [select], if taken, panics. *)
Remark watch_can_panic_after_Stop :
  pc (snd (run Doc.MarshalIndent Doc.Unmarshal Doc.Dir
             [ActWatch false; ActWatch false; ActStop; ActWatch false]
             (NewWatcher Doc.reg "svc" Doc.registered)))
  = PcPanicked "send on closed channel".
Proof. vm_compute. reflexivity. Qed.

(** * Further properties of the registry *)

Section RegistryMore.

Context {Bytes : Type}.
Variable marshal : RegistryData → Bytes + error.
Variable unmarshal : Bytes → RegistryData + error.
Variable Dir : string → string.

Implicit Types (w : World Bytes) (r : Registry) (data : RegistryData).

(** ** New *)

(** [New] up to its call of [writeRegistryFile], when the directory is
    made and the file is found missing. *)
Lemma New_writes path w :
  faults w (calls w) = None →
  faults w (S (calls w)) = None →
  files w !! path = None →
  New marshal Dir path w =
  match writeRegistryFile marshal path (mkData (Some ∅) "1.0.0" (clock w (tick w)))
          (mkWorld (files w) (faults w) (S (S (calls w))) (clock w) (S (tick w))
             (trace w ++ [EvMkdirAll (Dir path); EvStat path; EvNow (clock w (tick w))]))
  with
  | (Val (Some e), w') => (Val (inr (Errorf "failed to initialize registry file: " e)), w')
  | (Val None, w') => (Val (inl (mkRegistry path)), w')
  | (Panic m, w') => (Panic m, w')
  end.
Proof.
  intros H0 H1 Hp. unfold New, os_MkdirAll, os_Stat.
  unfold bind at 1. unfold bind at 1. cbn [emit].
  unfold bind at 1. cbn [next_fault ret files faults calls clock tick trace].
  rewrite H0. cbn [fmap option_fmap option_map ret].
  unfold bind at 1. unfold bind at 1. cbn [emit].
  unfold bind at 1. cbn [next_fault ret files faults calls clock tick trace].
  unfold bind at 1. cbn [get_files files]. rewrite H1, Hp. cbn [ret].
  unfold bind at 1. cbn [time_Now_Unix files faults calls clock tick trace].
  unfold bind at 1. rewrite <- !app_assoc. cbn [app].
  destruct (writeRegistryFile _ _ _ _) as [[[e|]|m] w']; reflexivity.
Qed.

(** [New] when the file is there, or when [os.Stat] fails for another
    reason than its absence. *)
Lemma New_skips path w :
  faults w (calls w) = None →
  (is_Some (faults w (S (calls w))) ∨ is_Some (files w !! path)) →
  New marshal Dir path w =
  (Val (inl (mkRegistry path)),
   mkWorld (files w) (faults w) (S (S (calls w))) (clock w) (tick w)
           (trace w ++ [EvMkdirAll (Dir path); EvStat path])).
Proof.
  intros H0 Hskip. unfold New, os_MkdirAll, os_Stat.
  unfold bind at 1. unfold bind at 1. cbn [emit].
  unfold bind at 1. cbn [next_fault ret files faults calls clock tick trace].
  rewrite H0. cbn [fmap option_fmap option_map ret].
  unfold bind at 1. unfold bind at 1. cbn [emit].
  unfold bind at 1. cbn [next_fault ret files faults calls clock tick trace].
  unfold bind at 1. cbn [get_files files]. rewrite <- !app_assoc. cbn [app].
  destruct (faults w (S (calls w))) as [fl|]; [reflexivity|].
  destruct Hskip as [[? [=]]|[b ->]]. reflexivity.
Qed.

Lemma New_mkdir_fails path w fl :
  faults w (calls w) = Some fl →
  New marshal Dir path w =
  (Val (inr (Errorf "failed to create registry directory: " (failure_err fl))),
   mkWorld (files w) (faults w) (S (calls w)) (clock w) (tick w)
           (trace w ++ [EvMkdirAll (Dir path)])).
Proof.
  intros H0. unfold New, os_MkdirAll.
  unfold bind at 1. unfold bind at 1. cbn [emit].
  unfold bind at 1. cbn [next_fault ret files faults calls clock tick trace].
  rewrite H0. reflexivity.
Qed.

(** X1. On a path that holds no file, and when nothing fails, [New]
    returns a registry bound to the path and leaves in the file the
    snapshot with an empty, non-nil services map, format version
    [1.0.0] and the time of the call; [GetService] on the new registry
    then returns the empty list, without error, for every name. *)
Theorem New_creates_empty_snapshot path w :
  encodes_all marshal → round_trip marshal unmarshal →
  files w !! path = None →
  calm 5 w →
  ∃ w' b,
    New marshal Dir path w = (Val (inl (mkRegistry path)), w') ∧
    files w' !! path = Some b ∧
    unmarshal b = inl (mkData (Some ∅) "1.0.0" (clock w (tick w))) ∧
    ∀ name, ∃ w'',
      GetService unmarshal (mkRegistry path) name w' = (Val (inl []), w'').
Proof.
  intros Henc Hrt Hp Hcalm.
  assert (∀ k, (k < 5)%nat → faults w (k + calls w) = None) as Hc.
  { intros k Hk. rewrite Nat.add_comm. now apply Hcalm. }
  pose proof (Hc 0%nat ltac:(lia)) as H0. pose proof (Hc 1%nat ltac:(lia)) as H1.
  pose proof (Hc 2%nat ltac:(lia)) as H2. pose proof (Hc 3%nat ltac:(lia)) as H3.
  pose proof (Hc 4%nat ltac:(lia)) as H4. cbn [Nat.add] in *.
  destruct (Henc (mkData (Some ∅) "1.0.0" (clock w (tick w)))) as [b Hb].
  rewrite (New_writes path w H0 H1 Hp).
  rewrite (writeRegistryFile_ok _ _ _ _ b Hb) by assumption.
  eexists _, b. split; [reflexivity|]. cbn [files].
  split; [apply lookup_insert_eq|]. split; [apply Hrt, Hb|].
  intros name. eexists.
  eapply (GetService_reads unmarshal); cbn [files faults calls filePath].
  - exact H4.
  - apply lookup_insert_eq.
  - apply Hrt, Hb.
  - unfold services_of, lookup_services. cbn. now rewrite lookup_empty.
Qed.

(** X2. [New] on a path that holds a file, whatever the file holds and
    whichever system call fails, changes no file; and unless the
    directory cannot be made it returns a registry bound to the path. *)
Theorem New_keeps_existing_file path w b :
  files w !! path = Some b →
  files (snd (New marshal Dir path w)) = files w ∧
  (faults w (calls w) = None →
   fst (New marshal Dir path w) = Val (inl (mkRegistry path))).
Proof.
  intros Hp. destruct (faults w (calls w)) as [fl|] eqn:H0.
  - rewrite (New_mkdir_fails path w fl H0). split; [reflexivity | discriminate].
  - rewrite (New_skips path w H0) by (right; rewrite Hp; eauto).
    split; [reflexivity|]. reflexivity.
Qed.

(** X3. [New] never panics. When it returns an error the path holds what
    it held, and the error is either the failure to make the directory,
    no file touched, or the failure of the first write on a path that
    held no file. A failure of [os.Stat] is not an error of [New]: it
    returns a registry and writes nothing. *)
Theorem New_failures path w :
  (∃ res, fst (New marshal Dir path w) = Val res) ∧
  (∀ e, fst (New marshal Dir path w) = Val (inr e) →
     files (snd (New marshal Dir path w)) !! path = files w !! path ∧
     ((∃ fl, faults w (calls w) = Some fl ∧
             e = Errorf "failed to create registry directory: " (failure_err fl) ∧
             files (snd (New marshal Dir path w)) = files w) ∨
      (∃ e0, e = Errorf "failed to initialize registry file: " e0 ∧
             files w !! path = None))) ∧
  (∀ fl, faults w (calls w) = None → faults w (S (calls w)) = Some fl →
     fst (New marshal Dir path w) = Val (inl (mkRegistry path)) ∧
     files (snd (New marshal Dir path w)) = files w).
Proof.
  destruct (faults w (calls w)) as [fl|] eqn:H0.
  { rewrite (New_mkdir_fails path w fl H0). cbn [fst snd files].
    split; [eauto|]. split; [|discriminate].
    intros e [= <-]. split; [reflexivity|]. left. eauto. }
  destruct (faults w (S (calls w))) as [fl|] eqn:H1.
  { rewrite (New_skips path w H0) by (left; rewrite H1; eauto). cbn [fst snd files].
    split; [eauto|]. split; [discriminate|]. intros fl0 _ _. now split. }
  destruct (files w !! path) as [b0|] eqn:Hp.
  { rewrite (New_skips path w H0) by (right; rewrite Hp; eauto). cbn [fst snd files].
    split; [eauto|]. split; discriminate. }
  rewrite (New_writes path w H0 H1 Hp).
  match goal with |- context [writeRegistryFile marshal ?p ?d ?w1] =>
    destruct (writeRegistryFile_target marshal p d w1) as ([e|] & w' & -> & H)
  end; cbn [fst snd].
  - split; [eauto|]. split; [|discriminate].
    intros e' [= <-]. cbn [files] in H. split; [now rewrite H|]. right. eauto.
  - split; [eauto|]. split; discriminate.
Qed.

(** ** GetService *)

(** X4. [GetService] writes nothing, whatever it returns; and for a name
    the snapshot has no key for (also when the services map is nil) it
    returns the empty list and no error, provided the file is read. *)
Theorem GetService_reads_only r name w :
  files (snd (GetService unmarshal r name w)) = files w ∧
  (∀ b data,
     faults w (calls w) = None →
     files w !! filePath r = Some b →
     unmarshal b = inl data →
     lookup_services data name = None →
     fst (GetService unmarshal r name w) = Val (inl [])).
Proof.
  split; [apply GetService_files|].
  intros b data Hf Hr Hu Hnone.
  erewrite GetService_reads; eauto.
  unfold services_of. now rewrite Hnone.
Qed.

(** ** Failed mutations *)

(** X5. All or nothing: whenever [Register] or [Deregister] does not
    return [nil] (an error from any of the system calls, from decoding or
    encoding, or a panic), the registry's file holds what it held before
    the call. *)
Theorem failed_mutation_keeps_file r sv w :
  (fst (Register marshal unmarshal r sv w) ≠ Val None →
   files (snd (Register marshal unmarshal r sv w)) !! filePath r = files w !! filePath r) ∧
  (fst (Deregister marshal unmarshal r sv w) ≠ Val None →
   files (snd (Deregister marshal unmarshal r sv w)) !! filePath r = files w !! filePath r).
Proof.
  split; intros Hfail.
  - destruct (Register_target marshal unmarshal r sv w) as [[_ H]|[H _]];
      [exact H | contradiction].
  - destruct (Deregister_target marshal unmarshal r sv w) as [[_ H]|[H _]];
      [exact H | contradiction].
Qed.

(** ** Register, then read or remove *)

Lemma calm_at n w k : calm n w → (k < n)%nat → faults w (k + calls w) = None.
Proof. intros Hcalm Hk. rewrite Nat.add_comm. now apply Hcalm. Qed.

Lemma services_of_registered data name services t :
  services_of (set_Updated (set_services data name services) t) name = services.
Proof. unfold services_of. now rewrite lookup_set_Updated, lookup_set_services_eq. Qed.

Lemma to_kratos_place entries found s t :
  (∀ i, found = Some i → (i < length entries)%nat) →
  to_kratos (place (Some <$> entries) found (instance_of s t)) =
  Val (match found with
       | Some i => <[i := s]> (kratos_of <$> entries)
       | None => (kratos_of <$> entries) ++ [s]
       end).
Proof.
  intros Hlt. destruct found as [i|]; cbn [place].
  - rewrite <- list_fmap_insert, to_kratos_entries, list_fmap_insert.
    now rewrite kratos_of_instance_of.
  - change [Some (instance_of s t)] with (Some <$> [instance_of s t]).
    rewrite <- fmap_app, to_kratos_entries, fmap_app. cbn.
    now rewrite kratos_of_instance_of.
Qed.

(** X6. Register, then look up: for an instance whose strings are
    valid, on a snapshot whose strings are, and when nothing fails,
    [GetService] of the name right after [Register] returns what it would
    have returned before, with the caller's instance (id, name, version,
    metadata and endpoints as given) written over the first entry that
    had its id, or appended when no entry had it. *)
Theorem Register_then_GetService r s w b data :
  encodes_all marshal → reads_back marshal unmarshal →
  files w !! filePath r = Some b →
  unmarshal b = inl data →
  clean data → valid_service s →
  Forall is_Some (services_of data (kratos_registry.Name s)) →
  calm 4 w →
  ∃ found before w1 w2,
    index_of_id (services_of data (kratos_registry.Name s)) (kratos_registry.ID s)
      = Val found ∧
    to_kratos (services_of data (kratos_registry.Name s)) = Val before ∧
    Register marshal unmarshal r (Some s) w = (Val None, w1) ∧
    GetService unmarshal r (kratos_registry.Name s) w1 =
      (Val (inl (match found with
                 | Some i => <[i := s]> before
                 | None => before ++ [s]
                 end)), w2).
Proof.
  intros Henc Hrt Hfile Hdec Hclean Hvalid Hwf Hcalm.
  set (name := kratos_registry.Name s) in *.
  set (old := services_of data name) in *.
  destruct (index_of_id_total old (kratos_registry.ID s) Hwf) as [found Hfound].
  destruct (Forall_is_Some_entries _ Hwf) as [entries Hentries].
  set (data1 := set_Updated (set_services data name
                  (place old found (instance_of s (clock w (tick w)))))
                  (clock w (S (tick w)))).
  destruct (Henc data1) as [b1 Hb1].
  pose proof (calm_at 4 w 0 Hcalm ltac:(lia)) as H0.
  pose proof (calm_at 4 w 1 Hcalm ltac:(lia)) as H1.
  pose proof (calm_at 4 w 2 Hcalm ltac:(lia)) as H2.
  pose proof (calm_at 4 w 3 Hcalm ltac:(lia)) as H3. cbn [Nat.add] in *.
  exists found, (kratos_of <$> entries). eexists _, _.
  split; [exact Hfound|].
  split; [rewrite Hentries; apply to_kratos_entries|].
  split;
    [exact (Register_ok marshal unmarshal r s w b data found b1 H0 H1 H2 Hfile Hdec
              Hfound Hb1)|].
  eapply (GetService_reads unmarshal); cbn [files faults calls].
  - exact H3.
  - apply lookup_insert_eq.
  - apply (Hrt data1 b1); [unfold data1; now apply clean_registered | exact Hb1].
  - fold name. unfold data1. rewrite services_of_registered, Hentries.
    apply to_kratos_place. intros i ->.
    destruct (index_of_id_Some _ _ _ Hfound) as (e & Hi & _).
    apply lookup_lt_Some in Hi. now rewrite Hentries, length_fmap in Hi.
Qed.

(** X7. What is registered survives a restart: for an instance whose
    strings are valid, on a snapshot whose strings are, after a
    [Register] in which nothing fails, a registry constructed anew on the
    same path by [New] is the same registry, [New] has not touched the
    file, and [GetService] on it returns the list with the registered
    instance in its place. *)
Theorem Register_survives_New r s w b data :
  encodes_all marshal → reads_back marshal unmarshal →
  files w !! filePath r = Some b →
  unmarshal b = inl data →
  clean data → valid_service s →
  Forall is_Some (services_of data (kratos_registry.Name s)) →
  calm 6 w →
  ∃ found before w1 w2 w3,
    index_of_id (services_of data (kratos_registry.Name s)) (kratos_registry.ID s)
      = Val found ∧
    to_kratos (services_of data (kratos_registry.Name s)) = Val before ∧
    Register marshal unmarshal r (Some s) w = (Val None, w1) ∧
    New marshal Dir (filePath r) w1 = (Val (inl r), w2) ∧
    files w2 = files w1 ∧
    GetService unmarshal r (kratos_registry.Name s) w2 =
      (Val (inl (match found with
                 | Some i => <[i := s]> before
                 | None => before ++ [s]
                 end)), w3).
Proof.
  intros Henc Hrt Hfile Hdec Hclean Hvalid Hwf Hcalm.
  set (name := kratos_registry.Name s) in *.
  set (old := services_of data name) in *.
  destruct (index_of_id_total old (kratos_registry.ID s) Hwf) as [found Hfound].
  destruct (Forall_is_Some_entries _ Hwf) as [entries Hentries].
  set (data1 := set_Updated (set_services data name
                  (place old found (instance_of s (clock w (tick w)))))
                  (clock w (S (tick w)))).
  destruct (Henc data1) as [b1 Hb1].
  pose proof (calm_at 6 w 0 Hcalm ltac:(lia)) as H0.
  pose proof (calm_at 6 w 1 Hcalm ltac:(lia)) as H1.
  pose proof (calm_at 6 w 2 Hcalm ltac:(lia)) as H2.
  pose proof (calm_at 6 w 3 Hcalm ltac:(lia)) as H3.
  pose proof (calm_at 6 w 4 Hcalm ltac:(lia)) as H4.
  pose proof (calm_at 6 w 5 Hcalm ltac:(lia)) as H5. cbn [Nat.add] in *.
  exists found, (kratos_of <$> entries). eexists _, _, _.
  split; [exact Hfound|].
  split; [rewrite Hentries; apply to_kratos_entries|].
  split;
    [exact (Register_ok marshal unmarshal r s w b data found b1 H0 H1 H2 Hfile Hdec
              Hfound Hb1)|].
  split.
  { rewrite New_skips; cbn [files faults calls].
    - destruct r. reflexivity.
    - exact H3.
    - right. rewrite lookup_insert_eq. eauto. }
  split; [reflexivity|].
  eapply (GetService_reads unmarshal); cbn [files faults calls].
  - exact H5.
  - apply lookup_insert_eq.
  - apply (Hrt data1 b1); [unfold data1; now apply clean_registered | exact Hb1].
  - fold name. unfold data1. rewrite services_of_registered, Hentries.
    apply to_kratos_place. intros i ->.
    destruct (index_of_id_Some _ _ _ Hfound) as (e & Hi & _).
    apply lookup_lt_Some in Hi. now rewrite Hentries, length_fmap in Hi.
Qed.

(** [Deregister] when nothing fails. *)
Lemma Deregister_ok r s w b data found data1 b' :
  faults w (calls w) = None →
  faults w (S (calls w)) = None →
  faults w (S (S (calls w))) = None →
  files w !! filePath r = Some b →
  unmarshal b = inl data →
  index_of_id (services_of data (kratos_registry.Name s)) (kratos_registry.ID s) = Val found →
  store_services data (kratos_registry.Name s)
    (remove_at (services_of data (kratos_registry.Name s)) found) = Val data1 →
  marshal (set_Updated data1 (clock w (tick w))) = inl b' →
  Deregister marshal unmarshal r (Some s) w =
  (Val None,
   mkWorld (<[filePath r := b']> (delete (filePath r +:+ ".tmp") (files w)))
     (faults w) (S (S (S (calls w)))) (clock w) (S (tick w))
     (trace w ++
        [EvLock; EvReadFile (filePath r); EvNow (clock w (tick w));
         EvWriteFile (filePath r +:+ ".tmp");
         EvRename (filePath r +:+ ".tmp") (filePath r); EvUnlock])).
Proof.
  intros H0 H1 H2 Hfile Hdec Hfound Hstore Hb'.
  rewrite (Deregister_reads marshal unmarshal r s w b data found data1 H0 Hfile Hdec
             Hfound Hstore).
  rewrite (writeRegistryFile_ok _ _ _ _ b' Hb') by assumption.
  unfold written_by, unlocked. cbn [files faults calls clock tick trace].
  now rewrite <- !app_assoc.
Qed.

Lemma remove_at_elem services found (o : option ServiceInstance) :
  o ∈ remove_at services found → o ∈ services.
Proof.
  destruct found as [i|]; cbn [remove_at]; [|auto].
  rewrite elem_of_app. intros [H|H].
  - rewrite <- (take_drop i services). apply elem_of_app. now left.
  - rewrite <- (take_drop (S i) services). apply elem_of_app. now right.
Qed.

(** [Deregister] keeps a clean snapshot clean. *)
Lemma clean_stored data name found data1 t :
  clean data → valid name →
  store_services data name (remove_at (services_of data name) found) = Val data1 →
  clean (set_Updated data1 t).
Proof.
  intros Hc Hname Hstore.
  destruct (store_services_lookup _ _ _ _ Hstore) as [Hmine Hothers].
  split.
  - cbn [set_Updated DataVersion].
    unfold store_services, assign_services, delete_services in Hstore.
    destruct (remove_at _ _); [injection Hstore as <-; exact (proj1 Hc)|].
    destruct (Services data); [|discriminate]. injection Hstore as <-. exact (proj1 Hc).
  - intros n l. rewrite lookup_set_Updated.
    destruct (decide (n = name)) as [->|Hn].
    + intros Hl. split; [exact Hname|]. intros e He.
      unfold services_of in Hmine. rewrite Hl in Hmine. cbn in Hmine. subst l.
      apply remove_at_elem in He. eapply clean_services; eauto.
    + rewrite Hothers by exact Hn. apply Hc.
Qed.

(** X8. [Deregister] undoes [Register]: for an instance whose strings are
    valid and whose id no entry of its name had, on a snapshot whose
    strings are valid, and when nothing fails, registering it and then
    deregistering it leaves a snapshot in which every name has the list
    it had before (and the format version is kept). *)
Theorem Deregister_undoes_Register r s w b data :
  encodes_all marshal → reads_back marshal unmarshal →
  files w !! filePath r = Some b →
  unmarshal b = inl data →
  clean data → valid_service s →
  (∀ o, o ∈ services_of data (kratos_registry.Name s) →
        ∃ e, o = Some e ∧ ID e ≠ kratos_registry.ID s) →
  calm 6 w →
  ∃ w1 w2 b2 data2,
    Register marshal unmarshal r (Some s) w = (Val None, w1) ∧
    Deregister marshal unmarshal r (Some s) w1 = (Val None, w2) ∧
    files w2 !! filePath r = Some b2 ∧
    unmarshal b2 = inl data2 ∧
    DataVersion data2 = DataVersion data ∧
    ∀ n, services_of data2 n = services_of data n.
Proof.
  intros Henc Hrt Hfile Hdec Hclean Hvalid Habsent Hcalm.
  set (name := kratos_registry.Name s) in *.
  set (id := kratos_registry.ID s) in *.
  set (old := services_of data name) in *.
  pose proof (index_of_id_absent old id Habsent) as Hfound.
  set (inst := instance_of s (clock w (tick w))).
  set (data1 := set_Updated (set_services data name (place old None inst))
                  (clock w (S (tick w)))).
  destruct (Henc data1) as [b1 Hb1].
  assert (Hc1 : clean data1) by now apply clean_registered.
  pose proof (calm_at 6 w 0 Hcalm ltac:(lia)) as H0.
  pose proof (calm_at 6 w 1 Hcalm ltac:(lia)) as H1.
  pose proof (calm_at 6 w 2 Hcalm ltac:(lia)) as H2.
  pose proof (calm_at 6 w 3 Hcalm ltac:(lia)) as H3.
  pose proof (calm_at 6 w 4 Hcalm ltac:(lia)) as H4.
  pose proof (calm_at 6 w 5 Hcalm ltac:(lia)) as H5. cbn [Nat.add] in *.
  assert (Hl1 : services_of data1 name = old ++ [Some inst])
    by apply services_of_registered.
  assert (Hix : index_of_id (services_of data1 name) id = Val (Some (length old))).
  { rewrite Hl1. exact (index_of_id_place old id None inst Hfound eq_refl). }
  destruct (store_services_total data1 name (Some (length old))) as [data1' Hstore].
  destruct (store_services_lookup _ _ _ _ Hstore) as [Hmine Hothers].
  set (data2 := set_Updated data1' (clock w (S (S (tick w))))).
  destruct (Henc data2) as [b2 Hb2].
  assert (Hc2 : clean data2).
  { apply (clean_stored data1 name (Some (length old))); [exact Hc1 | apply Hvalid|].
    rewrite Hl1 in Hstore |- *. exact Hstore. }
  eexists _, _, b2, data2.
  split;
    [exact (Register_ok marshal unmarshal r s w b data None b1 H0 H1 H2 Hfile Hdec
              Hfound Hb1)|].
  split.
  { eapply (Deregister_ok r s _ b1 data1 (Some (length old)) data1' b2);
      cbn [files faults calls clock tick]; try assumption.
    - apply lookup_insert_eq.
    - apply Hrt; [exact Hc1 | exact Hb1]. }
  cbn [files]. split; [apply lookup_insert_eq|]. split; [apply Hrt; [exact Hc2 | exact Hb2]|].
  split.
  { unfold data2. cbn [set_Updated DataVersion].
    unfold store_services, assign_services, delete_services in Hstore.
    destruct (remove_at _ _); [injection Hstore as <-; reflexivity|].
    cbn in Hstore. injection Hstore as <-. reflexivity. }
  intros n. unfold services_of at 1. unfold data2. rewrite lookup_set_Updated.
  destruct (decide (n = name)) as [->|Hn].
  - fold (services_of data1' name). rewrite Hmine, Hl1. cbn [remove_at].
    fold old. now rewrite remove_middle, app_nil_r.
  - rewrite Hothers by exact Hn. unfold data1.
    rewrite lookup_set_Updated, lookup_set_services_ne by exact Hn. reflexivity.
Qed.

(** X9. After a [Deregister] in which nothing fails, on a list where the
    id occurs at most once, no entry of the name's list has the id any
    more, and [GetService] of the name returns no instance with it. *)
Theorem Deregister_leaves_no_such_id r s w b data :
  encodes_all marshal → round_trip marshal unmarshal →
  files w !! filePath r = Some b →
  unmarshal b = inl data →
  Forall is_Some (services_of data (kratos_registry.Name s)) →
  id_unique (services_of data (kratos_registry.Name s)) (kratos_registry.ID s) →
  calm 4 w →
  ∃ w1 w2 b1 data1 result,
    Deregister marshal unmarshal r (Some s) w = (Val None, w1) ∧
    files w1 !! filePath r = Some b1 ∧
    unmarshal b1 = inl data1 ∧
    (∀ e, Some e ∈ services_of data1 (kratos_registry.Name s) →
          ID e ≠ kratos_registry.ID s) ∧
    GetService unmarshal r (kratos_registry.Name s) w1 = (Val (inl result), w2) ∧
    ∀ k, k ∈ result → kratos_registry.ID k ≠ kratos_registry.ID s.
Proof.
  intros Henc Hrt Hfile Hdec Hwf Huniq Hcalm.
  set (name := kratos_registry.Name s) in *.
  set (id := kratos_registry.ID s) in *.
  set (old := services_of data name) in *.
  destruct (index_of_id_total old id Hwf) as [found Hfound].
  destruct (store_services_total data name found) as [data1' Hstore]. fold old in Hstore.
  destruct (store_services_lookup _ _ _ _ Hstore) as [Hmine _].
  set (data1 := set_Updated data1' (clock w (tick w))).
  destruct (Henc data1) as [b1 Hb1].
  pose proof (calm_at 4 w 0 Hcalm ltac:(lia)) as H0.
  pose proof (calm_at 4 w 1 Hcalm ltac:(lia)) as H1.
  pose proof (calm_at 4 w 2 Hcalm ltac:(lia)) as H2.
  pose proof (calm_at 4 w 3 Hcalm ltac:(lia)) as H3. cbn [Nat.add] in *.
  assert (Hnew : services_of data1 name = remove_at old found) by exact Hmine.
  assert (Hrest : ∀ o, o ∈ remove_at old found → ∃ e, o = Some e ∧ ID e ≠ id).
  { destruct found as [i|]; [|exact (index_of_id_None _ _ Hfound)].
    destruct (index_of_id_Some _ _ _ Hfound) as (ei & Hi & Hidi & _).
    assert (i < length old)%nat as Hlt by now apply lookup_lt_Some in Hi.
    intros o Ho. apply list_elem_of_lookup_1 in Ho as [j Hj].
    apply (lookup_remove_at _ _ _ _ Hlt) in Hj.
    pose proof (proj1 (Forall_lookup _ _) Hwf _ _ Hj) as [e ->].
    exists e. split; [reflexivity|]. intros Hid.
    pose proof (Huniq _ _ _ _ Hj Hi Hid Hidi) as Heq.
    case_decide; lia. }
  assert (Forall is_Some (remove_at old found)) as Hwf'.
  { apply Forall_forall. intros o Ho. destruct (Hrest o Ho) as (e & -> & _). eauto. }
  destruct (Forall_is_Some_entries _ Hwf') as [entries Hentries].
  eexists _, _, b1, data1, (kratos_of <$> entries).
  split;
    [exact (Deregister_ok r s w b data found data1' b1 H0 H1 H2 Hfile Hdec Hfound
              Hstore Hb1)|].
  cbn [files]. split; [apply lookup_insert_eq|]. split; [apply Hrt, Hb1|].
  fold name id. rewrite Hnew. split.
  { intros e He. destruct (Hrest _ He) as (e' & [= <-] & Hne). exact Hne. }
  split.
  { eapply (GetService_reads unmarshal); cbn [files faults calls].
    - exact H3.
    - apply lookup_insert_eq.
    - apply Hrt, Hb1.
    - rewrite Hnew, Hentries. apply to_kratos_entries. }
  intros k Hk. apply list_elem_of_fmap in Hk as (e & -> & He).
  destruct (Hrest (Some e)) as (e' & [= <-] & Hne); [|exact Hne].
  rewrite Hentries. apply list_elem_of_fmap. eauto.
Qed.

(** ** Panics and the lock *)

Lemma GetService_unread r name w e :
  fst (readRegistryFile unmarshal r w) = Val (inr e) →
  fst (GetService unmarshal r name w) =
  Val (inr (Errorf "failed to read registry file: " e)).
Proof.
  rewrite readRegistryFile_eq. cbn [fst]. intros [= H].
  unfold GetService, with_RLock, defer.
  unfold bind at 1. cbn [emit].
  unfold bind at 1. rewrite readRegistryFile_eq.
  cbn [files faults calls clock tick trace]. rewrite H. reflexivity.
Qed.

(** X10. On a file that is absent or holds a well-formed snapshot (no
    empty list, no nil entry, no id twice under a name: what the registry
    itself writes), no call panics for a non-nil instance: [Register],
    [Deregister] and [GetService] return, with [nil] or an error,
    whichever system calls fail. *)
Theorem well_formed_file_never_panics r w s name :
  file_holds unmarshal well_formed r w →
  (∃ res, fst (Register marshal unmarshal r (Some s) w) = Val res) ∧
  (∃ res, fst (Deregister marshal unmarshal r (Some s) w) = Val res) ∧
  (∃ res, fst (GetService unmarshal r name w) = Val res).
Proof.
  intros Hok.
  destruct (read_result unmarshal r w) as [[e He]|(b & data & Hf & Hr & Hu & Hread)].
  { rewrite (Register_unread marshal unmarshal r s w e He),
      (Deregister_unread marshal unmarshal r (Some s) w e He),
      (GetService_unread r name w e He). cbn [fst]. repeat split; eauto. }
  destruct (Hok b Hr) as (data0 & Hu0 & Hwf). rewrite Hu in Hu0. injection Hu0 as <-.
  destruct (well_formed_services data (kratos_registry.Name s) Hwf) as [Hsome _].
  destruct (index_of_id_total _ (kratos_registry.ID s) Hsome) as [found Hfound].
  split; [|split].
  - rewrite (Register_reads marshal unmarshal r s w b data found Hf Hr Hu Hfound).
    match goal with |- context [writeRegistryFile marshal ?p ?d ?w1] =>
      destruct (writeRegistryFile_target marshal p d w1) as ([e|] & w' & -> & _)
    end; cbn; eauto.
  - destruct (store_services_total data (kratos_registry.Name s) found) as [data1 Hs].
    rewrite (Deregister_reads marshal unmarshal r s w b data found data1 Hf Hr Hu Hfound Hs).
    match goal with |- context [writeRegistryFile marshal ?p ?d ?w1] =>
      destruct (writeRegistryFile_target marshal p d w1) as ([e|] & w' & -> & _)
    end; cbn; eauto.
  - destruct (well_formed_services data name Hwf) as [Hsome' _].
    destruct (Forall_is_Some_entries _ Hsome') as [entries Hentries].
    erewrite (GetService_reads unmarshal); eauto.
    rewrite Hentries. apply to_kratos_entries.
Qed.

(** *** What the calls add to the trace *)

Lemma appends_ret {A} P (a : A) : appends (Bytes:=Bytes) P (ret a).
Proof. intros w. exists []. cbn. now rewrite app_nil_r. Qed.

Lemma appends_lift {A} P (x : Res A) : appends P (lift Bytes x).
Proof. intros w. exists []. cbn. now rewrite app_nil_r. Qed.

Lemma appends_panic {A} P msg : appends P (panic Bytes (A:=A) msg).
Proof. intros w. exists []. cbn. now rewrite app_nil_r. Qed.

Lemma appends_emit P e : P e → appends P (emit Bytes e).
Proof. intros He w. exists [e]. cbn. split; [reflexivity | now repeat constructor]. Qed.

Lemma appends_next_fault P : appends P (next_fault Bytes).
Proof. intros w. exists []. cbn. now rewrite app_nil_r. Qed.

Lemma appends_get_files P : appends P (get_files Bytes).
Proof. intros w. exists []. cbn. now rewrite app_nil_r. Qed.

Lemma appends_set_files P fs : appends P (set_files Bytes fs).
Proof. intros w. exists []. cbn. now rewrite app_nil_r. Qed.

Lemma appends_now P : (∀ t, P (EvNow t)) → appends P (time_Now_Unix Bytes).
Proof. intros Ht w. exists [EvNow (clock w (tick w))]. cbn. split; [reflexivity|]. now repeat constructor. Qed.

Lemma appends_bind {A B} P (m : M Bytes A) (k : A → M Bytes B) :
  appends P m → (∀ a, appends P (k a)) → appends P (bind m k).
Proof.
  intros Hm Hk w. unfold bind. destruct (Hm w) as (e1 & H1 & HP1).
  destruct (m w) as [[a|msg] w1]; cbn [snd] in *.
  - destruct (Hk a w1) as (e2 & H2 & HP2). exists (e1 ++ e2).
    rewrite H2, H1, app_assoc. split; [reflexivity | now apply Forall_app].
  - exists e1. now split.
Qed.

Ltac appends_steps :=
  repeat first
    [ apply appends_ret | apply appends_lift | apply appends_panic
    | apply appends_next_fault | apply appends_get_files | apply appends_set_files
    | apply appends_emit; exact I
    | apply appends_now; intros ?; exact I
    | apply appends_bind; [|intros ?]
    | match goal with |- appends _ (match ?x with _ => _ end) => destruct x end ].

Lemma appends_readRegistryFile r :
  appends io_event (readRegistryFile unmarshal r).
Proof. unfold readRegistryFile, os_ReadFile. appends_steps. Qed.

Lemma appends_writeRegistryFile path data :
  appends io_event (writeRegistryFile marshal path data).
Proof. unfold writeRegistryFile, os_WriteFile, os_Rename. appends_steps. Qed.

Lemma with_Lock_trace {A} (body : M Bytes A) w :
  appends io_event body →
  ∃ evs, trace (snd (with_Lock Bytes body w)) = trace w ++ EvLock :: evs ++ [EvUnlock] ∧
         Forall io_event evs.
Proof.
  intros Hbody. unfold with_Lock, defer, bind. cbn [emit].
  match goal with |- context [body ?w1] => destruct (Hbody w1) as (evs & H & HP);
    destruct (body w1) as [res w2] end.
  exists evs. cbn [snd emit trace] in *. rewrite H, <- !app_assoc. now split.
Qed.

Lemma with_RLock_trace {A} (body : M Bytes A) w :
  appends io_event body →
  ∃ evs, trace (snd (with_RLock Bytes body w)) = trace w ++ EvRLock :: evs ++ [EvRUnlock] ∧
         Forall io_event evs.
Proof.
  intros Hbody. unfold with_RLock, defer, bind. cbn [emit].
  match goal with |- context [body ?w1] => destruct (Hbody w1) as (evs & H & HP);
    destruct (body w1) as [res w2] end.
  exists evs. cbn [snd emit trace] in *. rewrite H, <- !app_assoc. now split.
Qed.

(** X11. The lock is taken once and released once, last, in every
    outcome: whatever [Register] (of a non-nil instance), [Deregister]
    and [GetService] return, and also when they panic, what they add to
    the trace is the lock event, then system calls and clock readings
    only, then the matching unlock event. [Register] of a nil instance
    adds nothing. *)
Theorem lock_taken_and_released r s sv name w :
  (∃ evs, trace (snd (Register marshal unmarshal r (Some s) w))
          = trace w ++ EvLock :: evs ++ [EvUnlock] ∧ Forall io_event evs) ∧
  (∃ evs, trace (snd (Deregister marshal unmarshal r sv w))
          = trace w ++ EvLock :: evs ++ [EvUnlock] ∧ Forall io_event evs) ∧
  (∃ evs, trace (snd (GetService unmarshal r name w))
          = trace w ++ EvRLock :: evs ++ [EvRUnlock] ∧ Forall io_event evs) ∧
  trace (snd (Register marshal unmarshal r None w)) = trace w.
Proof.
  split; [|split; [|split; [|reflexivity]]].
  - unfold Register. apply with_Lock_trace.
    apply appends_bind; [apply appends_readRegistryFile|]. intros [data|e]; [|appends_steps].
    apply appends_bind; [appends_steps|]. intros t.
    apply appends_bind; [appends_steps|]. intros found.
    apply appends_bind; [appends_steps|]. intros t'.
    apply appends_bind; [apply appends_writeRegistryFile|]. intros [e|];
      unfold notifyWatchers; appends_steps.
  - unfold Deregister. apply with_Lock_trace.
    apply appends_bind; [apply appends_readRegistryFile|]. intros [data|e]; [|appends_steps].
    destruct sv as [s0|]; [|appends_steps].
    apply appends_bind; [appends_steps|]. intros found.
    apply appends_bind; [appends_steps|]. intros data1.
    apply appends_bind; [appends_steps|]. intros t'.
    apply appends_bind; [apply appends_writeRegistryFile|]. intros [e|];
      unfold notifyWatchers; appends_steps.
  - unfold GetService. apply with_RLock_trace.
    apply appends_bind; [apply appends_readRegistryFile|]. intros [data|e]; appends_steps.
Qed.

End RegistryMore.

(** * Further properties of the watcher *)

Section WatcherMore.

Context {Bytes : Type}.
Variable marshal : RegistryData → Bytes + error.
Variable unmarshal : Bytes → RegistryData + error.
Variable Dir : string → string.

Implicit Types (s : Sys Bytes) (a : Action) (o : list Obs).

Ltac step_cases H :=
  unfold step in H;
  repeat (case_match; try discriminate);
  unfold watch_step, fetch, Next_select, Stop, put_item, send, close, at_pc in *;
  repeat (case_match; try discriminate);
  simplify_eq; cbn in *.

Lemma step_stopped_closed a s s' o :
  step marshal unmarshal Dir a s = Some (s', o) →
  open_until_stopped s → stopped_closed s → stopped_closed s'.
Proof.
  unfold stopped_closed, open_until_stopped. intros H Hopen Hinv.
  step_cases H; intros Hs; try congruence; try (now apply Hinv);
    try (destruct Hinv as (? & ? & ?); [congruence|]; repeat split; congruence);
    try (destruct Hopen as [? ?]; [congruence|]; congruence); auto.
Qed.

Lemma reachable_stopped_closed r name w0 acts :
  stopped_closed (snd (run marshal unmarshal Dir acts (NewWatcher r name w0))).
Proof.
  apply (run_invariant marshal unmarshal Dir
           (fun s => open_until_stopped s ∧ stopped_closed s)).
  - intros a s s' o H [Hopen Hinv]. split.
    + exact (step_open marshal unmarshal Dir a s s' o H Hopen).
    + exact (step_stopped_closed a s s' o H Hopen Hinv).
  - split; [intros _; now split | intros [=]].
Qed.

(** X12. [Stop] wakes a waiting [Next]: in every state reached from
    [NewWatcher] in which the watcher is stopped, the [select] of [Next]
    has a ready case whatever it picks, so a call that was waiting in it
    returns; it returns the watcher-stopped error, or an item that was
    still in one of the channels. *)
Theorem Stop_wakes_Next r name w0 acts pick :
  let s := snd (run marshal unmarshal Dir acts (NewWatcher r name w0)) in
  stopped (watcher s) = true →
  ∃ res w',
    Next_select pick (watcher s) = Some (res, w') ∧
    (res = Failed ErrWatcherStopped ∨
     (∃ v, res = Instances v ∧ buffer (ch (watcher s)) = Some v) ∨
     (∃ e, res = Failed e ∧ buffer (errorCh (watcher s)) = Some e)) ∧
    (alive s = true → selecting s ≠ 0%nat →
     ∃ s', step marshal unmarshal Dir (ActSelect pick) s = Some (s', [NextReturned res])).
Proof.
  intros s Hs.
  destruct (reachable_stopped_closed r name w0 acts Hs) as (Hd & Hc & He). fold s in Hd, Hc, He.
  assert (∃ res w', Next_select pick (watcher s) = Some (res, w') ∧
            (res = Failed ErrWatcherStopped ∨
             (∃ v, res = Instances v ∧ buffer (ch (watcher s)) = Some v) ∨
             (∃ e, res = Failed e ∧ buffer (errorCh (watcher s)) = Some e)))
    as (res & w' & Hsel & Hres).
  { unfold Next_select, recv_ready. rewrite Hd, Hc, He, !orb_true_r.
    destruct pick as [|[|[|pick]]]; cbn [select_case];
      destruct (buffer (errorCh (watcher s))) as [e|], (buffer (ch (watcher s))) as [v|];
      eexists _, _; (split; [reflexivity|]); eauto. }
  exists res, w'. split; [exact Hsel|]. split; [exact Hres|].
  intros Halive Hsel0. unfold step. rewrite Halive.
  destruct (selecting s) as [|n]; [contradiction|]. rewrite Hsel. eauto.
Qed.

Lemma step_shut_down a s s' o :
  step marshal unmarshal Dir a s = Some (s', o) →
  shut_down s →
  shut_down s' ∧
  (steps_left (pc s') ≤ steps_left (pc s))%nat ∧
  (∀ p, a = ActWatch p → (steps_left (pc s') < steps_left (pc s))%nat).
Proof.
  unfold shut_down. intros H (Hs & Hd & Hc & He).
  step_cases H; unfold item_ready, send_ready in *;
    rewrite ?Hs, ?Hd, ?Hc, ?He in *; cbn in *; try discriminate;
    (split; [auto|]); (split; [lia|]); intros p' Hp'; try discriminate; lia.
Qed.

Lemma watch_disabled_shut_down p s :
  step marshal unmarshal Dir (ActWatch p) s = None →
  shut_down s → steps_left (pc s) = 0%nat.
Proof.
  unfold shut_down, step, alive, watch_step. intros H (Hs & Hd & Hc & He).
  destruct (pc s) as [|item|item| | | | |msg] eqn:Hpc; cbn in *; try discriminate;
    try reflexivity.
  - now rewrite Hs in H.
  - unfold item_ready, send_ready in H. rewrite Hd in H.
    destruct item; rewrite ?Hc, ?He in H; cbn in H;
      repeat (case_match; try discriminate).
  - rewrite Hd in H. repeat (case_match; try discriminate).
  - now rewrite Hs in H.
Qed.

Lemma run_shut_down acts s :
  shut_down s →
  (steps_left (pc (snd (run marshal unmarshal Dir acts s)))
   ≤ steps_left (pc s) - watch_count acts)%nat.
Proof.
  revert s. induction acts as [|a acts IH]; intros s Hs; [cbn; lia|].
  rewrite run_cons. destruct (step _ _ _ a s) as [[s' o]|] eqn:Ha; cbn [snd].
  - destruct (step_shut_down a s s' o Ha Hs) as (Hs' & Hle & Hlt).
    specialize (IH s' Hs'). destruct a; cbn [watch_count]; try lia.
    specialize (Hlt _ eq_refl). lia.
  - specialize (IH s Hs). destruct a; cbn [watch_count]; try lia.
    rewrite (watch_disabled_shut_down _ s Ha Hs) in *. lia.
Qed.

(** X13. [Stop] ends the polling: from any state reached from
    [NewWatcher] in which the watcher is stopped, and under every
    schedule, once the goroutine has been given four steps it has
    returned (or panicked); it is never left waiting. *)
Theorem Stop_ends_watch r name w0 before after :
  let s := snd (run marshal unmarshal Dir before (NewWatcher r name w0)) in
  stopped (watcher s) = true →
  (4 ≤ watch_count after)%nat →
  pc (snd (run marshal unmarshal Dir after s)) = PcReturned ∨
  ∃ msg, pc (snd (run marshal unmarshal Dir after s)) = PcPanicked msg.
Proof.
  intros s Hs Hcount.
  assert (shut_down s) as Hshut.
  { destruct (reachable_stopped_closed r name w0 before Hs) as (Hd & Hc & He).
    now repeat split. }
  pose proof (run_shut_down after s Hshut) as Hle.
  destruct (pc (snd (run marshal unmarshal Dir after s))) eqn:Hpc; eauto;
    destruct (pc s); cbn in Hle; lia.
Qed.

(** X14. The watcher only reads: no step of the goroutine, no tick, no
    [Next] and no [Stop] changes a file. *)
Theorem watcher_changes_no_file a s s' o :
  step marshal unmarshal Dir a s = Some (s', o) →
  (∀ c, a ≠ ActCall c) →
  files (world s') = files (world s).
Proof.
  intros H Hcall. unfold step in H. destruct (alive s); [|discriminate].
  destruct a as [p| | |pick| |c]; [| | | | |now destruct (Hcall c)].
  - unfold watch_step, fetch in H.
    pose proof (GetService_files unmarshal (registry (watcher s))
                  (serviceName (watcher s)) (world s)) as Hget.
    destruct (GetService _ _ _ _) as [[[l|e]|m] w'];
      destruct (pc s); cbn [snd] in Hget;
      repeat (case_match; try discriminate); simplify_eq; cbn; auto.
  - now simplify_eq.
  - repeat (case_match; try discriminate); now simplify_eq.
  - repeat (case_match; try discriminate); now simplify_eq.
  - repeat (case_match; try discriminate); now simplify_eq.
Qed.

(** X15. A tick delivers the current set, changed or not: with the
    goroutine waiting for the ticker, the watcher not stopped and both
    channels empty, a tick followed by five steps of the goroutine and a
    [Next] returns the whole result [GetService] gives at that moment;
    nothing compares it with what was delivered before. *)
Theorem tick_delivers_current_set s v w' p1 p2 p3 p4 p5 q :
  pc s = PcIdle →
  stopped (watcher s) = false → ctx_done (watcher s) = false →
  ch (watcher s) = mkChan None false → errorCh (watcher s) = mkChan None false →
  GetService unmarshal (registry (watcher s)) (serviceName (watcher s)) (world s)
    = (Val (inl v), w') →
  fst (run marshal unmarshal Dir
         [ActTick; ActWatch p1; ActWatch p2; ActWatch p3; ActWatch p4; ActWatch p5;
          ActNext; ActSelect q] s)
  = [Fetched v; NextReturned (Instances v)].
Proof.
  destruct s as [w [rg nm dn c ec st] p tk sel]. cbn [pc watcher world stopped ctx_done
    ch errorCh registry serviceName]. intros -> -> -> -> -> Hget.
  cbn -[GetService]. unfold fetch, at_pc. cbn -[GetService]. rewrite Hget.
  destruct p5, q as [|[|[|q]]]; reflexivity.
Qed.

(** X16. A failed fetch after a tick is delivered as that error: in the
    same situation, when [GetService] returns an error, the goroutine
    puts it on the error channel and [Next] returns it, whatever its
    [select] picks. *)
Theorem tick_error_delivered s e w' p1 p2 p3 p4 p5 q :
  pc s = PcIdle →
  stopped (watcher s) = false → ctx_done (watcher s) = false →
  ch (watcher s) = mkChan None false → errorCh (watcher s) = mkChan None false →
  GetService unmarshal (registry (watcher s)) (serviceName (watcher s)) (world s)
    = (Val (inr e), w') →
  fst (run marshal unmarshal Dir
         [ActTick; ActWatch p1; ActWatch p2; ActWatch p3; ActWatch p4; ActWatch p5;
          ActNext; ActSelect q] s)
  = [NextReturned (Failed e)].
Proof.
  destruct s as [w [rg nm dn c ec st] p tk sel]. cbn [pc watcher world stopped ctx_done
    ch errorCh registry serviceName]. intros -> -> -> -> -> Hget.
  cbn -[GetService]. unfold fetch, at_pc. cbn -[GetService]. rewrite Hget.
  destruct p5, q as [|[|[|q]]]; reflexivity.
Qed.

Lemma run_quiet_idle acts w r name sel :
  Forall (fun a => a ≠ ActTick ∧ a ≠ ActStop) acts →
  fst (run marshal unmarshal Dir acts (mkSys w (fresh_watcher r name) PcIdle false sel)) = [].
Proof.
  revert w sel. induction acts as [|a acts IH]; intros w sel Hacts; [reflexivity|].
  apply Forall_cons in Hacts as [[Ht Hs] Hacts].
  destruct a as [p| | |pick| |c]; try contradiction.
  - cbn. now apply IH.
  - cbn. destruct (run _ _ _ acts _) as [os s''] eqn:Hrun.
    specialize (IH w (S sel) Hacts). rewrite Hrun in IH. exact IH.
  - cbn [run]. unfold step, alive. cbn [pc selecting watcher].
    destruct sel as [|n]; [now apply IH|].
    replace (Next_select pick (fresh_watcher r name)) with
      (@None (NextResult * Watcher)) by now destruct pick as [|[|[|pick]]].
    now apply IH.
  - cbn. destruct (run _ _ _ acts _) as [os s''] eqn:Hrun.
    specialize (IH (call marshal unmarshal Dir r c w) sel Hacts).
    rewrite Hrun in IH. exact IH.
Qed.

(** X17. A failure of the very first fetch is reported nowhere: when
    [GetService] fails at the start, the goroutine drops the error and
    waits for the ticker, and under every schedule without a tick and
    without [Stop] no [Next] returns, neither a value nor an error. *)
Theorem first_fetch_error_is_dropped r name w0 e w' p acts :
  GetService unmarshal r name w0 = (Val (inr e), w') →
  Forall (fun a => a ≠ ActTick ∧ a ≠ ActStop) acts →
  fst (run marshal unmarshal Dir (ActWatch p :: acts) (NewWatcher r name w0)) = [].
Proof.
  intros Hget Hacts. cbn [run]. unfold step, alive, NewWatcher. cbn [pc watch_step].
  unfold fetch. cbn [watcher registry serviceName world]. rewrite Hget.
  cbn [ticker_C selecting].
  pose proof (run_quiet_idle acts w' r name 0 Hacts) as Hq. unfold fresh_watcher in Hq.
  destruct (run _ _ _ acts _) as [os s'']. exact Hq.
Qed.

Lemma fetches_app o1 o2 : fetches (o1 ++ o2) = fetches o1 ++ fetches o2.
Proof.
  induction o1 as [|x o1 IH]; [reflexivity|].
  destruct x; cbn; now rewrite IH.
Qed.

Lemma deliveries_app o1 o2 : deliveries (o1 ++ o2) = deliveries o1 ++ deliveries o2.
Proof.
  induction o1 as [|x o1 IH]; [reflexivity|].
  destruct x as [v|[v|e]|e]; cbn; now rewrite IH.
Qed.

Lemma step_in_fetch_order a s s' o obs :
  step marshal unmarshal Dir a s = Some (s', o) →
  in_fetch_order s obs → in_fetch_order s' (obs ++ o).
Proof.
  unfold in_fetch_order. intros H. 
  step_cases H; rewrite deliveries_app, fetches_app; cbn [deliveries fetches];
    unfold buffered, in_hand; cbn [pc watcher ch buffer];
    intros Hinv; repeat (case_match; simplify_eq);
    rewrite ?app_nil_r in *; cbn [app] in *; try exact Hinv; try congruence.
  all: rewrite <- ?app_assoc; cbn [app].
  all: try (etransitivity; [|exact Hinv]; first
              [ apply sublist_inserts_r; reflexivity
              | apply sublist_app; [reflexivity|]; repeat constructor ]).
  all: try (apply (sublist_app _ _ [_] [_]); [exact Hinv|reflexivity]).
  all: match goal with
       | |- sublist (?d ++ [?x; ?y]) _ =>
           change (d ++ [x; y]) with (d ++ ([x] ++ [y]));
           rewrite (assoc_L (++)); apply sublist_app; [exact Hinv|reflexivity]
       end.
Qed.

Lemma run_in_fetch_order acts : ∀ s obs,
  in_fetch_order s obs →
  in_fetch_order (snd (run marshal unmarshal Dir acts s))
                 (obs ++ fst (run marshal unmarshal Dir acts s)).
Proof.
  induction acts as [|a acts IH]; intros s obs Hinv.
  - cbn. now rewrite app_nil_r.
  - rewrite run_cons. destruct (step _ _ _ a s) as [[s' o]|] eqn:Ha.
    + cbn [fst snd]. rewrite (assoc_L (++)). apply IH.
      eapply step_in_fetch_order; eauto.
    + now apply IH.
Qed.

(** X18.  [watch] hands over the sets in the order it fetched them: whatever
    the interleaving of ticks, [Next] calls and [Stop], the service lists
    that [Next] has returned are a subsequence of the lists [GetService] gave
    the goroutine.  A set can be lost at the stop; none is invented,
    repeated or reordered. *)
Theorem Next_keeps_fetch_order r name w0 acts :
  sublist
    (deliveries (fst (run marshal unmarshal Dir acts (NewWatcher r name w0))))
    (fetches (fst (run marshal unmarshal Dir acts (NewWatcher r name w0)))).
Proof.
  pose proof (run_in_fetch_order acts (NewWatcher r name w0) []) as Hrun.
  cbn [app] in Hrun. unfold in_fetch_order in Hrun.
  etransitivity; [|apply Hrun; cbn; constructor].
  apply sublist_inserts_r. reflexivity.
Qed.

End WatcherMore.

(** * The factory *)

Section FactoryFacts.

Context {Bytes : Type}.
Variable marshal : RegistryData → Bytes + error.
Variable unmarshal : Bytes → RegistryData + error.
Variable Dir : string → string.

Implicit Types (w : World Bytes) (config : option conf.Registry) (c : conf.Registry).

Lemma New_returns path w :
  ∃ res w', New marshal Dir path w = (Val res, w') ∧
            (∀ r, res = inl r → r = mkRegistry path).
Proof.
  destruct (faults w (calls w)) as [fl|] eqn:H0.
  { rewrite (New_mkdir_fails marshal Dir path w fl H0). eexists _, _. split; [reflexivity|].
    discriminate. }
  destruct (faults w (S (calls w))) as [fl|] eqn:H1.
  { rewrite (New_skips marshal Dir path w H0) by (left; rewrite H1; eauto).
    eexists _, _. split; [reflexivity|]. now intros r [= <-]. }
  destruct (files w !! path) as [b0|] eqn:Hp.
  { rewrite (New_skips marshal Dir path w H0) by (right; rewrite Hp; eauto).
    eexists _, _. split; [reflexivity|]. now intros r [= <-]. }
  rewrite (New_writes marshal Dir path w H0 H1 Hp).
  match goal with |- context [writeRegistryFile marshal ?p ?d ?w1] =>
    destruct (writeRegistryFile_target marshal p d w1) as ([e|] & w' & -> & H)
  end.
  - eexists _, _. split; [reflexivity|]. discriminate.
  - eexists _, _. split; [reflexivity|]. now intros r [= <-].
Qed.

(** X19. [CreateRegistry] never panics, whatever the configuration and the
    state of the disk. When it returns an error, the registrar and the
    discovery are both nil. When it returns no error, the configuration is
    one that [ValidateConfig] accepts, of type [local], and the registrar
    and the discovery are one and the same registry, bound to the
    configured file path. *)
Theorem CreateRegistry_outcomes config w :
  ∃ registrar discovery err w',
    CreateRegistry marshal Dir config w = (Val (registrar, discovery, err), w') ∧
    (err ≠ None → registrar = None ∧ discovery = None) ∧
    (err = None →
       ∃ c l, config = Some c ∧ conf.Type_ c = "local" ∧ conf.Local c = Some l ∧
              conf.FilePath l ≠ "" ∧
              registrar = Some (mkRegistry (conf.FilePath l)) ∧ discovery = registrar ∧
              ValidateConfig config = None).
Proof.
  destruct config as [c|]; cbn [CreateRegistry].
  2:{ eexists _, _, _, _. split; [reflexivity|]. split; [auto|discriminate]. }
  unfold ValidateConfig.
  destruct (String.eqb (conf.Type_ c) "local") eqn:Elocal.
  - apply String.eqb_eq in Elocal. rewrite Elocal. cbn [String.eqb Ascii.eqb Bool.eqb].
    unfold createLocalRegistry. destruct (conf.Local c) as [l|] eqn:El.
    2:{ eexists _, _, _, _. split; [reflexivity|]. split; [auto|discriminate]. }
    destruct (String.eqb (conf.FilePath l) "") eqn:Ep.
    { eexists _, _, _, _. split; [reflexivity|]. split; [auto|discriminate]. }
    apply String.eqb_neq in Ep.
    destruct (New_returns (conf.FilePath l) w) as (res & w' & HNew & Hres).
    unfold bind. rewrite HNew. destruct res as [r|e].
    + rewrite (Hres r eq_refl). eexists _, _, _, _. split; [reflexivity|].
      split; [congruence|]. intros _. exists c, l. repeat split; auto.
    + eexists _, _, _, _. split; [reflexivity|]. split; [auto|discriminate].
  - unfold createEtcdRegistry, createConsulRegistry, createNacosRegistry,
      createKubernetesRegistry.
    repeat case_match; eexists _, _, _, _; (split; [reflexivity|]);
      (split; [auto|discriminate]).
Qed.

(** X20. A configuration that [ValidateConfig] rejects is rejected by
    [CreateRegistry] too, before any system call: it returns an error with
    nil registrar and discovery and leaves the world as it was. *)
Theorem CreateRegistry_rejects_unvalidated config w e :
  ValidateConfig config = Some e →
  ∃ e', CreateRegistry marshal Dir config w = (Val (None, None, Some e'), w).
Proof.
  destruct config as [c|]; cbn [CreateRegistry ValidateConfig]; [|eauto].
  unfold createLocalRegistry, createEtcdRegistry, createConsulRegistry,
    createNacosRegistry, createKubernetesRegistry.
  intros H. repeat (case_match; simplify_eq); eauto.
  all: match goal with
       | H1 : String.eqb ?x ?a = true, H2 : String.eqb ?x ?b = true |- _ =>
           apply String.eqb_eq in H1; apply String.eqb_eq in H2; congruence
       end.
Qed.

(** X21. Only the local registry is implemented: a configuration of any
    other type fails even when [ValidateConfig] accepts it, with the
    message [<type> registry not implemented yet], and the world is left
    as it was. *)
Theorem CreateRegistry_only_local_is_implemented c w :
  ValidateConfig (Some c) = None →
  conf.Type_ c ≠ "local" →
  CreateRegistry marshal Dir (Some c) w =
  (Val (None, None, Some (conf.Type_ c +:+ " registry not implemented yet")), w).
Proof.
  cbn [CreateRegistry ValidateConfig].
  unfold createEtcdRegistry, createConsulRegistry,
    createNacosRegistry, createKubernetesRegistry.
  intros H Hlocal. apply String.eqb_neq in Hlocal. rewrite Hlocal in *.
  repeat (case_match; simplify_eq);
    repeat match goal with
    | H1 : String.eqb _ _ = true |- _ => apply String.eqb_eq in H1; rewrite H1
    end; reflexivity.
Qed.

(** X22. From a configuration of type [local] that [ValidateConfig]
    accepts, on a path that holds no file and when nothing fails,
    [CreateRegistry] returns a registry bound to the configured path, as
    registrar and as discovery, and the file then holds the empty
    snapshot. *)
Theorem CreateRegistry_local_creates_the_file c w :
  encodes_all marshal → round_trip marshal unmarshal →
  ValidateConfig (Some c) = None →
  conf.Type_ c = "local" →
  ∃ l, conf.Local c = Some l ∧
    (files w !! conf.FilePath l = None → calm 4 w →
     ∃ w' b,
       CreateRegistry marshal Dir (Some c) w =
       (Val (Some (mkRegistry (conf.FilePath l)), Some (mkRegistry (conf.FilePath l)), None), w') ∧
       files w' !! conf.FilePath l = Some b ∧
       unmarshal b = inl (mkData (Some ∅) "1.0.0" (clock w (tick w)))).
Proof.
  intros Henc Hrt Hv Ht. cbn [CreateRegistry ValidateConfig] in *.
  rewrite Ht in *. cbn [String.eqb Ascii.eqb Bool.eqb] in *.
  destruct (conf.Local c) as [l|]; [|discriminate]. exists l. split; [reflexivity|].
  intros Hp Hcalm. unfold createLocalRegistry.
  destruct (String.eqb (conf.FilePath l) ""); [discriminate|].
  assert (∀ k, (k < 4)%nat → faults w (k + calls w) = None) as Hc.
  { intros k Hk. rewrite Nat.add_comm. now apply Hcalm. }
  pose proof (Hc 0%nat ltac:(lia)) as H0. pose proof (Hc 1%nat ltac:(lia)) as H1.
  pose proof (Hc 2%nat ltac:(lia)) as H2. pose proof (Hc 3%nat ltac:(lia)) as H3.
  cbn [Nat.add] in *.
  destruct (Henc (mkData (Some ∅) "1.0.0" (clock w (tick w)))) as [b Hb].
  unfold bind. rewrite (New_writes marshal Dir _ w H0 H1 Hp).
  rewrite (writeRegistryFile_ok _ _ _ _ b Hb) by assumption.
  eexists _, b. split; [reflexivity|]. cbn [files].
  split; [apply lookup_insert_eq|]. apply Hrt, Hb.
Qed.

End FactoryFacts.

(** * The in-memory registry *)

Section MemoryFacts.

Variable TrimSpace : string → string.

Implicit Types (r : memory.Registry) (sv : kratos_registry.ServiceInstance).

Lemma slices_Contains_elem (have : list string) v :
  memory.slices_Contains have v = true ↔ v ∈ have.
Proof.
  induction have as [|x have IH]; cbn.
  - split; [discriminate | intros H; inversion H].
  - destruct (String.eqb x v) eqn:E.
    + apply String.eqb_eq in E. subst. split; [left | auto].
    + apply String.eqb_neq in E. rewrite IH. split; [now right|].
      intros H. inversion H; subst; [congruence | assumption].
Qed.

Lemma merge_endpoints_app have more :
  ∃ added, memory.merge_endpoints have more = have ++ added ∧
           (∀ x, x ∈ more → x ∈ have ++ added) ∧
           (∀ x, x ∈ added → x ∈ more ∧ x ∉ have) ∧
           NoDup added ∧ sublist added more.
Proof.
  revert have. induction more as [|e more IH]; intros have; cbn.
  - exists []. rewrite app_nil_r. repeat split; try constructor.
    + intros x H; inversion H.
    + inversion H.
    + inversion H.
  - destruct (memory.slices_Contains have e) eqn:E.
    + apply slices_Contains_elem in E.
      destruct (IH have) as (added & -> & Hall & Hnew & Hnd & Hsub).
      exists added. repeat split; auto.
      * intros x Hx. inversion Hx; subst; [apply elem_of_app; now left | auto].
      * right. now apply Hnew.
      * now apply Hnew.
      * now constructor.
    + assert (e ∉ have) as Hne.
      { intros Hin. apply slices_Contains_elem in Hin. congruence. }
      destruct (IH (have ++ [e])) as (added & -> & Hall & Hnew & Hnd & Hsub).
      exists (e :: added). rewrite <- app_assoc. cbn [app]. repeat split.
      * intros x Hx. specialize (Hall x). rewrite <- app_assoc in Hall. cbn [app] in Hall.
        inversion Hx; subst; [|auto]. apply elem_of_app. right. left.
      * inversion H; subst; [left|]. right. now apply Hnew.
      * inversion H; subst; [exact Hne|]. intros Hin.
        apply (proj2 (Hnew x ltac:(assumption))). apply elem_of_app. now left.
      * constructor; [|exact Hnd]. intros Hin.
        apply (proj2 (Hnew e Hin)). apply elem_of_app. right. left.
      * now constructor.
Qed.

Lemma merge_endpoints_have have more :
  (∀ x, x ∈ more → x ∈ have) → memory.merge_endpoints have more = have.
Proof.
  induction more as [|e more IH]; intros Hall; cbn; [reflexivity|].
  assert (memory.slices_Contains have e = true) as ->.
  { apply slices_Contains_elem, Hall. left. }
  apply IH. intros x Hx. apply Hall. now right.
Qed.


(** X24. Registering the same instance twice in a row leaves the in-memory
    registry as one registration does, and both calls return nil. *)
Theorem memory_Register_twice_is_Register_once r sv :
  fst (memory.Register TrimSpace r (Some sv)) = Val None ∧
  memory.Register TrimSpace (snd (memory.Register TrimSpace r (Some sv))) (Some sv) =
  (Val None, snd (memory.Register TrimSpace r (Some sv))).
Proof.
  unfold memory.Register at 1 3 4.
  destruct (memory.entries r !! _) as [entry|] eqn:Hk; cbn [fst snd]; (split; [reflexivity|]).
  - unfold memory.Register. cbn [memory.authority memory.entries].
    rewrite lookup_insert_eq. cbn [memory.ID memory.Name memory.Endpoints memory.Version].
    rewrite (merge_endpoints_have (memory.merge_endpoints _ _)).
    + now rewrite insert_insert_eq.
    + intros x Hx.
      destruct (merge_endpoints_app (memory.Endpoints entry) (kratos_registry.Endpoints sv))
        as (added & -> & Hall & _). now apply Hall.
  - unfold memory.Register. cbn [memory.authority memory.entries].
    rewrite lookup_insert_eq. unfold memory.NewServiceEntry.
    cbn [memory.ID memory.Name memory.Endpoints memory.Version].
    rewrite merge_endpoints_have by auto. now rewrite insert_insert_eq.
Qed.

(** X25. After the first registration under a name, [GetService] of the
    name returns exactly one instance: the one registered, with a blank id
    replaced by the name and with an empty metadata map, whatever metadata
    was handed in. *)
Theorem memory_Register_then_GetService r sv :
  memory.entries r
    !! memory.normalizeName TrimSpace (memory.authority r) (kratos_registry.Name sv)
  = None →
  memory.GetService TrimSpace (snd (memory.Register TrimSpace r (Some sv)))
    (kratos_registry.Name sv) =
  ([kratos_registry.mkServiceInstance
      (if String.eqb (TrimSpace (kratos_registry.ID sv)) ""
       then kratos_registry.Name sv else kratos_registry.ID sv)
      (kratos_registry.Name sv) (kratos_registry.Version sv) ∅
      (kratos_registry.Endpoints sv)], None).
Proof.
  intros Hk. unfold memory.Register. rewrite Hk. cbn [snd].
  unfold memory.GetService. cbn [memory.authority memory.entries].
  now rewrite lookup_insert_eq.
Qed.

(** X26. [Deregister] compares the id handed in with the id stored.  After
    the first registration under a name, deregistering the same instance
    gives back the registry as it was when the id is not blank (or equals
    the name); an instance registered with a blank id, stored under its
    name as id, is left in place by [Deregister] of the same instance. *)
Theorem memory_Deregister_after_Register r sv :
  memory.entries r
    !! memory.normalizeName TrimSpace (memory.authority r) (kratos_registry.Name sv)
  = None →
  (TrimSpace (kratos_registry.ID sv) ≠ "" ∨ kratos_registry.ID sv = kratos_registry.Name sv →
   memory.Deregister TrimSpace (snd (memory.Register TrimSpace r (Some sv))) (Some sv)
   = (Val None, r)) ∧
  (TrimSpace (kratos_registry.ID sv) = "" → kratos_registry.ID sv ≠ kratos_registry.Name sv →
   memory.Deregister TrimSpace (snd (memory.Register TrimSpace r (Some sv))) (Some sv)
   = (Val None, snd (memory.Register TrimSpace r (Some sv)))).
Proof.
  intros Hk. unfold memory.Register. rewrite Hk. cbn [snd].
  unfold memory.Deregister. cbn [memory.authority memory.entries].
  rewrite lookup_insert_eq. unfold memory.NewServiceEntry.
  cbn [memory.ID memory.Name]. rewrite String.eqb_refl. cbn [andb].
  split.
  - intros Hid.
    assert (String.eqb (if String.eqb (TrimSpace (kratos_registry.ID sv)) ""
                        then kratos_registry.Name sv else kratos_registry.ID sv)
                       (kratos_registry.ID sv) = true) as ->.
    { destruct Hid as [Hid|Hid].
      - apply String.eqb_neq in Hid. rewrite Hid. apply String.eqb_refl.
      - rewrite Hid. destruct (String.eqb _ ""); apply String.eqb_refl. }
    rewrite delete_insert_eq, delete_id by exact Hk. now destruct r.
  - intros Hblank Hne. rewrite Hblank. cbn [String.eqb].
    assert (String.eqb (kratos_registry.Name sv) (kratos_registry.ID sv) = false) as ->.
    { apply String.eqb_neq. congruence. }
    reflexivity.
Qed.

Lemma New_entries_last authority pre e post : ∀ m,
  Forall is_Some pre → Forall is_Some post →
  (∀ e', Some e' ∈ post →
         memory.normalizeName TrimSpace authority (memory.Name e') ≠
         memory.normalizeName TrimSpace authority (memory.Name e)) →
  ∃ m', memory.New_entries TrimSpace authority (pre ++ Some e :: post) m = Val m' ∧
        m' !! memory.normalizeName TrimSpace authority (memory.Name e) = Some e.
Proof.
  induction pre as [|p pre IH]; intros m Hpre Hpost Hlast.
  - cbn [app memory.New_entries].
    assert (∀ m0, m0 !! memory.normalizeName TrimSpace authority (memory.Name e) = Some e →
            ∃ m', memory.New_entries TrimSpace authority post m0 = Val m' ∧
                  m' !! memory.normalizeName TrimSpace authority (memory.Name e) = Some e) as Hp.
    { clear Hpre. induction post as [|q post IHp]; intros m0 Hm0; [cbn; eauto|].
      inversion Hpost as [|? ? [q' ->] Hpost']; subst. cbn [memory.New_entries].
      apply IHp; [exact Hpost' | |].
      - intros e' He'. apply Hlast. now right.
      - rewrite lookup_insert_ne; [exact Hm0|]. apply Hlast. left. }
    apply Hp. apply lookup_insert_eq.
  - inversion Hpre as [|? ? [p' ->] Hpre']; subst. cbn [app memory.New_entries].
    now apply IH.
Qed.

(** X27. [New] keeps, for each normalized name, the last of the entries
    given under it: [GetService] of an entry's name returns that entry when
    no later entry normalizes to the same key.  A nil entry makes [New]
    panic. *)
Theorem memory_New_keeps_the_last_entry authority pre e post :
  Forall is_Some pre → Forall is_Some post →
  (∀ e', Some e' ∈ post →
         memory.normalizeName TrimSpace authority (memory.Name e') ≠
         memory.normalizeName TrimSpace authority (memory.Name e)) →
  (∃ r, memory.New TrimSpace authority (pre ++ Some e :: post) = Val r ∧
        memory.GetService TrimSpace r (memory.Name e) =
        ([kratos_registry.mkServiceInstance (memory.ID e) (memory.Name e) (memory.Version e)
            ∅ (memory.Endpoints e)], None)) ∧
  memory.New TrimSpace authority (pre ++ None :: post) = Panic nil_deref.
Proof.
  intros Hpre Hpost Hlast. split.
  - destruct (New_entries_last authority pre e post ∅ Hpre Hpost Hlast) as (m' & Hm & Hl).
    unfold memory.New. rewrite Hm. eexists. split; [reflexivity|].
    unfold memory.GetService. cbn [memory.authority memory.entries]. now rewrite Hl.
  - unfold memory.New. generalize (∅ : gmap string memory.ServiceEntry).
    clear Hlast. induction pre as [|p pre IH]; intros m; [reflexivity|].
    inversion Hpre as [|? ? [p' ->] Hpre']; subst. cbn [app memory.New_entries].
    now apply IH.
Qed.

(** X28. The revision without authority cannot hold anything: its [New]
    panics as soon as it is given an entry, and on the registry it returns
    when given none, [Register] of any instance panics, on the assignment
    to the nil map, and leaves the registry as it was. *)
Theorem memory_New2_registry_is_unusable given (r : memory.Registry2) :
  memory.New2 given = Val r →
  given = [] ∧
  ∀ sv, memory.Register2 TrimSpace r (Some sv) = (Panic memory.nil_map, r).
Proof.
  unfold memory.New2. destruct given as [|[e|] given]; cbn; try discriminate.
  intros [= <-]. split; [reflexivity|]. reflexivity.
Qed.

End MemoryFacts.

(** * The further properties at work *)

Lemma Doc_world0_empty : files Doc.world0 !! Doc.path = None.
Proof. vm_compute. reflexivity. Qed.

Lemma Doc_registered_some :
  Forall is_Some (services_of Doc.data_registered "svc").
Proof. rewrite Doc_registered_list. repeat constructor. eauto. Qed.

(** [New] on the empty disk. *)
Lemma New_creates_empty_snapshot_on_empty_disk :
  ∃ w' b,
    New Doc.MarshalIndent Doc.Dir Doc.path Doc.world0 = (Val (inl Doc.reg), w') ∧
    files w' !! Doc.path = Some b ∧
    Doc.Unmarshal b = inl Doc.data_created ∧
    ∀ name, ∃ w'', GetService Doc.Unmarshal Doc.reg name w' = (Val (inl []), w'').
Proof.
  apply (New_creates_empty_snapshot Doc.MarshalIndent Doc.Unmarshal Doc.Dir
           Doc.path Doc.world0 Doc_encodes_all Doc_round_trip Doc_world0_empty).
  now apply Doc_calm.
Defined.

(** [New] again on the path that holds the registered instance. *)
Lemma New_keeps_existing_file_registered :
  files (snd (New Doc.MarshalIndent Doc.Dir Doc.path Doc.registered)) = files Doc.registered ∧
  (faults Doc.registered (calls Doc.registered) = None →
   fst (New Doc.MarshalIndent Doc.Dir Doc.path Doc.registered) = Val (inl Doc.reg)).
Proof.
  exact (New_keeps_existing_file Doc.MarshalIndent Doc.Dir Doc.path Doc.registered
           (Doc.Document Doc.data_registered) Doc_registered_file).
Defined.

(** [svc] registered as [v2] over [v1], then looked up. *)
Lemma Register_then_GetService_v2 :
  ∃ w1 w2,
    Register Doc.MarshalIndent Doc.Unmarshal Doc.reg (Some Doc.svc_v2) Doc.registered
      = (Val None, w1) ∧
    GetService Doc.Unmarshal Doc.reg "svc" w1 = (Val (inl [Doc.svc_v2]), w2).
Proof.
  destruct (Register_then_GetService Doc.MarshalIndent Doc.Unmarshal
              Doc.reg Doc.svc_v2 Doc.registered (Doc.Document Doc.data_registered)
              Doc.data_registered Doc_encodes_all Doc_reads_back
              Doc_registered_file eq_refl Doc_registered_clean Doc_valid_v2
              Doc_registered_some)
    as (found & before & w1 & w2 & Hfound & Hbefore & Hreg & Hget).
  - now apply Doc_calm.
  - exists w1, w2. split; [exact Hreg|].
    vm_compute in Hfound. injection Hfound as <-.
    vm_compute in Hbefore. injection Hbefore as <-. exact Hget.
Defined.

(** The same, with the registry constructed anew in between. *)
Lemma Register_survives_New_v2 :
  ∃ w1 w2 w3,
    Register Doc.MarshalIndent Doc.Unmarshal Doc.reg (Some Doc.svc_v2) Doc.registered
      = (Val None, w1) ∧
    New Doc.MarshalIndent Doc.Dir Doc.path w1 = (Val (inl Doc.reg), w2) ∧
    GetService Doc.Unmarshal Doc.reg "svc" w2 = (Val (inl [Doc.svc_v2]), w3).
Proof.
  destruct (Register_survives_New Doc.MarshalIndent Doc.Unmarshal Doc.Dir
              Doc.reg Doc.svc_v2 Doc.registered (Doc.Document Doc.data_registered)
              Doc.data_registered Doc_encodes_all Doc_reads_back
              Doc_registered_file eq_refl Doc_registered_clean Doc_valid_v2
              Doc_registered_some)
    as (found & before & w1 & w2 & w3 & Hfound & Hbefore & Hreg & Hnew & _ & Hget).
  - now apply Doc_calm.
  - exists w1, w2, w3. split; [exact Hreg|]. split; [exact Hnew|].
    vm_compute in Hfound. injection Hfound as <-.
    vm_compute in Hbefore. injection Hbefore as <-. exact Hget.
Defined.

(** [svc] registered on the new registry and deregistered: the file holds
    no service again. *)
Lemma Deregister_undoes_Register_on_new :
  ∃ w1 w2 data2,
    Register Doc.MarshalIndent Doc.Unmarshal Doc.reg (Some Doc.svc_v1) Doc.created
      = (Val None, w1) ∧
    Deregister Doc.MarshalIndent Doc.Unmarshal Doc.reg (Some Doc.svc_v1) w1 = (Val None, w2) ∧
    files w2 !! Doc.path = Some (Doc.Document data2) ∧
    ∀ n, services_of data2 n = [].
Proof.
  destruct (Deregister_undoes_Register Doc.MarshalIndent Doc.Unmarshal
              Doc.reg Doc.svc_v1 Doc.created (Doc.Document Doc.data_created)
              Doc.data_created Doc_encodes_all Doc_reads_back
              Doc_created_file eq_refl Doc_created_clean Doc_valid_v1)
    as (w1 & w2 & b2 & data2 & Hreg & Hdereg & Hfile & Hdec & _ & Hsame).
  - intros o Ho. vm_compute in Ho. inversion Ho.
  - now apply Doc_calm.
  - destruct b2 as [d|raw]; [|discriminate]. injection Hdec as ->.
    exists w1, w2, data2. repeat (split; [assumption|]).
    intros n. rewrite Hsame. reflexivity.
Defined.

(** [svc] deregistered from the registry that holds it: no instance is
    returned any more. *)
Lemma Deregister_leaves_no_such_id_registered :
  ∃ w1 w2 result,
    Deregister Doc.MarshalIndent Doc.Unmarshal Doc.reg (Some Doc.svc_v1) Doc.registered
      = (Val None, w1) ∧
    GetService Doc.Unmarshal Doc.reg "svc" w1 = (Val (inl result), w2) ∧
    ∀ k, k ∈ result → kratos_registry.ID k ≠ "1".
Proof.
  destruct (Deregister_leaves_no_such_id Doc.MarshalIndent Doc.Unmarshal
              Doc.reg Doc.svc_v1 Doc.registered (Doc.Document Doc.data_registered)
              Doc.data_registered Doc_encodes_all Doc_round_trip
              Doc_registered_file eq_refl Doc_registered_some)
    as (w1 & w2 & b1 & data1 & result & Hdereg & _ & _ & _ & Hget & Hno).
  - intros i j e e' Hi Hj _ _.
    change (kratos_registry.Name Doc.svc_v1) with "svc" in *.
    rewrite Doc_registered_list in Hi, Hj.
    destruct i as [|i], j as [|j]; try reflexivity; discriminate.
  - now apply Doc_calm.
  - exists w1, w2, result. split; [exact Hdereg|]. split; [exact Hget | exact Hno].
Defined.

(** On the file written by [Register], no call panics. *)
Lemma well_formed_file_never_panics_registered :
  (∃ res, fst (Register Doc.MarshalIndent Doc.Unmarshal Doc.reg (Some Doc.svc_v2) Doc.registered)
          = Val res) ∧
  (∃ res, fst (Deregister Doc.MarshalIndent Doc.Unmarshal Doc.reg (Some Doc.svc_v2) Doc.registered)
          = Val res) ∧
  (∃ res, fst (GetService Doc.Unmarshal Doc.reg "svc" Doc.registered) = Val res).
Proof.
  apply (well_formed_file_never_panics Doc.MarshalIndent Doc.Unmarshal).
  intros b Hb.
  assert (Some b = Some (Doc.Document Doc.data_registered)) as [= ->]
    by (rewrite <- Hb; exact Doc_registered_file).
  exists Doc.data_registered. split; [reflexivity|].
  intros n l Hl. unfold lookup_services in Hl. cbn [Services Doc.data_registered] in Hl.
  apply lookup_singleton_Some in Hl as [<- <-].
  split; [discriminate|]. split; [repeat constructor; eauto|].
  intros id i j e e' Hi Hj _ _.
  destruct i as [|i], j as [|j]; try reflexivity; discriminate.
Defined.

(** A [Next] that waits when [Stop] is called returns the watcher-stopped
    error or the set that was in the channel. *)
Lemma Stop_wakes_Next_on_svc :
  ∃ res w',
    Next_select 0%nat
      (watcher (snd (run Doc.MarshalIndent Doc.Unmarshal Doc.Dir [ActNext; ActStop]
                       (NewWatcher Doc.reg "svc" Doc.registered))))
    = Some (res, w') ∧
    ∃ s', step Doc.MarshalIndent Doc.Unmarshal Doc.Dir (ActSelect 0%nat)
            (snd (run Doc.MarshalIndent Doc.Unmarshal Doc.Dir [ActNext; ActStop]
                    (NewWatcher Doc.reg "svc" Doc.registered)))
          = Some (s', [NextReturned res]).
Proof.
  destruct (Stop_wakes_Next Doc.MarshalIndent Doc.Unmarshal Doc.Dir Doc.reg "svc"
              Doc.registered [ActNext; ActStop] 0%nat)
    as (res & w' & Hsel & _ & Hstep).
  - vm_compute. reflexivity.
  - exists res, w'. split; [exact Hsel|].
    apply Hstep; [vm_compute; reflexivity | vm_compute; discriminate].
Defined.

(** Stopped at once, the goroutine of [svc] is over after four of its
    steps. *)
Lemma Stop_ends_watch_on_svc :
  pc (snd (run Doc.MarshalIndent Doc.Unmarshal Doc.Dir
             [ActWatch false; ActWatch false; ActWatch false; ActWatch false]
             (snd (run Doc.MarshalIndent Doc.Unmarshal Doc.Dir [ActStop]
                     (NewWatcher Doc.reg "svc" Doc.registered))))) = PcReturned ∨
  ∃ msg,
    pc (snd (run Doc.MarshalIndent Doc.Unmarshal Doc.Dir
               [ActWatch false; ActWatch false; ActWatch false; ActWatch false]
               (snd (run Doc.MarshalIndent Doc.Unmarshal Doc.Dir [ActStop]
                       (NewWatcher Doc.reg "svc" Doc.registered))))) = PcPanicked msg.
Proof.
  apply (Stop_ends_watch Doc.MarshalIndent Doc.Unmarshal Doc.Dir Doc.reg "svc"
           Doc.registered [ActStop]
           [ActWatch false; ActWatch false; ActWatch false; ActWatch false]).
  - vm_compute. reflexivity.
  - cbn. lia.
Defined.

(** The first fetch of the watcher of [svc] leaves the files alone. *)
Lemma watcher_changes_no_file_first_fetch :
  ∃ s' o,
    step Doc.MarshalIndent Doc.Unmarshal Doc.Dir (ActWatch false)
      (NewWatcher Doc.reg "svc" Doc.registered) = Some (s', o) ∧
    files (world s') = files Doc.registered.
Proof.
  assert (∃ s' o, step Doc.MarshalIndent Doc.Unmarshal Doc.Dir (ActWatch false)
                    (NewWatcher Doc.reg "svc" Doc.registered) = Some (s', o))
    as (s' & o & H) by (eexists _, _; vm_compute; reflexivity).
  exists s', o. split; [exact H|].
  apply (watcher_changes_no_file Doc.MarshalIndent Doc.Unmarshal Doc.Dir _ _ _ _ H).
  discriminate.
Defined.

(** A tick on the idle watcher of [svc] delivers the instance registered. *)
Lemma tick_delivers_current_set_on_svc :
  fst (run Doc.MarshalIndent Doc.Unmarshal Doc.Dir
         [ActTick; ActWatch false; ActWatch false; ActWatch false; ActWatch false;
          ActWatch false; ActNext; ActSelect 0%nat]
         (mkSys Doc.registered (fresh_watcher Doc.reg "svc") PcIdle false 0))
  = [Fetched [Doc.svc_v1]; NextReturned (Instances [Doc.svc_v1])].
Proof.
  apply (tick_delivers_current_set Doc.MarshalIndent Doc.Unmarshal Doc.Dir
           (mkSys Doc.registered (fresh_watcher Doc.reg "svc") PcIdle false 0)
           [Doc.svc_v1]
           (snd (GetService Doc.Unmarshal Doc.reg "svc" Doc.registered)));
    [reflexivity | reflexivity | reflexivity | reflexivity | reflexivity |].
  vm_compute. reflexivity.
Defined.

(** A tick when the file cannot be read delivers the error of the read. *)
Lemma tick_error_delivered_on_failing :
  fst (run Doc.MarshalIndent Doc.Unmarshal Doc.Dir
         [ActTick; ActWatch false; ActWatch false; ActWatch false; ActWatch false;
          ActWatch false; ActNext; ActSelect 0%nat]
         (mkSys Doc.failing (fresh_watcher Doc.reg "svc") PcIdle false 0))
  = [NextReturned (Failed "failed to read registry file: permission denied")].
Proof.
  apply (tick_error_delivered Doc.MarshalIndent Doc.Unmarshal Doc.Dir
           (mkSys Doc.failing (fresh_watcher Doc.reg "svc") PcIdle false 0)
           "failed to read registry file: permission denied"
           (snd (GetService Doc.Unmarshal Doc.reg "svc" Doc.failing)));
    [reflexivity | reflexivity | reflexivity | reflexivity | reflexivity |].
  vm_compute. reflexivity.
Defined.

(** When the file cannot be read at the start, a [Next] that follows
    receives nothing. *)
Lemma first_fetch_error_is_dropped_on_failing :
  fst (run Doc.MarshalIndent Doc.Unmarshal Doc.Dir
         [ActWatch false; ActNext; ActWatch false; ActSelect 0%nat]
         (NewWatcher Doc.reg "svc" Doc.failing)) = [].
Proof.
  apply (first_fetch_error_is_dropped Doc.MarshalIndent Doc.Unmarshal Doc.Dir
           Doc.reg "svc" Doc.failing "failed to read registry file: permission denied"
           (snd (GetService Doc.Unmarshal Doc.reg "svc" Doc.failing))).
  - vm_compute. reflexivity.
  - repeat constructor; discriminate.
Defined.

(** A local configuration without a file path. *)
Lemma CreateRegistry_rejects_unvalidated_no_path :
  ∃ e', CreateRegistry Doc.MarshalIndent Doc.Dir (Some MemDoc.local_no_path) Doc.world0
        = (Val (None, None, Some e'), Doc.world0).
Proof.
  apply (CreateRegistry_rejects_unvalidated Doc.MarshalIndent Doc.Dir
           (Some MemDoc.local_no_path) Doc.world0 "local registry file path cannot be empty").
  reflexivity.
Defined.

(** An etcd configuration that passes the validation. *)
Lemma CreateRegistry_only_local_is_implemented_etcd :
  ValidateConfig (Some MemDoc.etcd) = None ∧
  CreateRegistry Doc.MarshalIndent Doc.Dir (Some MemDoc.etcd) Doc.world0
  = (Val (None, None, Some "etcd registry not implemented yet"), Doc.world0).
Proof.
  split; [reflexivity|].
  apply (CreateRegistry_only_local_is_implemented Doc.MarshalIndent Doc.Dir
           MemDoc.etcd Doc.world0); [reflexivity | discriminate].
Defined.

(** The default configuration on the empty disk. *)
Lemma CreateRegistry_local_creates_the_file_default :
  ∃ w' b,
    CreateRegistry Doc.MarshalIndent Doc.Dir (Some GetDefaultConfig) Doc.world0 =
    (Val (Some (mkRegistry "./registry.json"), Some (mkRegistry "./registry.json"), None), w') ∧
    files w' !! "./registry.json" = Some b ∧
    Doc.Unmarshal b = inl Doc.data_created.
Proof.
  destruct (CreateRegistry_local_creates_the_file Doc.MarshalIndent Doc.Unmarshal Doc.Dir
              GetDefaultConfig Doc.world0 Doc_encodes_all Doc_round_trip eq_refl eq_refl)
    as (l & Hl & H).
  injection Hl as <-. apply H; [vm_compute; reflexivity | now apply Doc_calm].
Defined.


(** An instance without an id, registered in memory, is returned under
    the id [svc]. *)
Lemma memory_Register_then_GetService_no_id :
  memory.GetService MemDoc.TrimSpace
    (snd (memory.Register MemDoc.TrimSpace MemDoc.empty (Some Doc.svc_no_id))) "svc" =
  ([kratos_registry.mkServiceInstance "svc" "svc" "v1" ∅ ["http://a"]], None).
Proof.
  apply (memory_Register_then_GetService MemDoc.TrimSpace MemDoc.empty Doc.svc_no_id).
  vm_compute. reflexivity.
Defined.

(** The instance without an id stays after it has been deregistered. *)
Lemma memory_Deregister_after_Register_no_id :
  memory.Deregister MemDoc.TrimSpace
    (snd (memory.Register MemDoc.TrimSpace MemDoc.empty (Some Doc.svc_no_id)))
    (Some Doc.svc_no_id)
  = (Val None, snd (memory.Register MemDoc.TrimSpace MemDoc.empty (Some Doc.svc_no_id))).
Proof.
  destruct (memory_Deregister_after_Register MemDoc.TrimSpace MemDoc.empty Doc.svc_no_id)
    as [_ H].
  - vm_compute. reflexivity.
  - apply H; [vm_compute; reflexivity | discriminate].
Defined.

(** Two entries for [svc]: the second is the one held. *)
Lemma memory_New_keeps_the_last_entry_of_two :
  ∃ r, memory.New MemDoc.TrimSpace "zero"
         [Some MemDoc.entry_v1; Some (memory.mkServiceEntry "2" " svc" ["http://b"] "v2")]
       = Val r ∧
       memory.GetService MemDoc.TrimSpace r " svc" =
       ([kratos_registry.mkServiceInstance "2" " svc" "v2" ∅ ["http://b"]], None).
Proof.
  destruct (memory_New_keeps_the_last_entry MemDoc.TrimSpace "zero"
              [Some MemDoc.entry_v1] (memory.mkServiceEntry "2" " svc" ["http://b"] "v2") [])
    as [H _].
  - repeat constructor. eauto.
  - constructor.
  - intros e' He'. inversion He'.
  - exact H.
Defined.

(** [svc] on the registry that [New] returns without entries. *)
Lemma memory_New2_registry_is_unusable_empty :
  memory.New2 [] = Val (memory.mkRegistry2 None) ∧
  memory.Register2 MemDoc.TrimSpace (memory.mkRegistry2 None) (Some Doc.svc_v1)
  = (Panic memory.nil_map, memory.mkRegistry2 None).
Proof.
  split; [reflexivity|].
  destruct (memory_New2_registry_is_unusable MemDoc.TrimSpace [] (memory.mkRegistry2 None))
    as [_ H]; [reflexivity | exact (H Doc.svc_v1)].
Defined.
